(** * The buffer cache and the page allocator of the lab "lock" kernel

    Shallow embeddings of kernel/kalloc.c and kernel/bio.c, followed by
    the facts proved about them.  The models come first (module [Kalloc],
    then the definitions of module [Bio]), the proofs after them (the
    rest of [Bio], then [KallocFacts]). *)

From Stdlib Require Import ZArith String Lia.
From stdpp Require Import base list numbers gmap.

(** * The page allocator of kernel/kalloc.c

    One free list per CPU.  A free page stores the pointer to the next
    free page in its first word; [mem] maps every page of RAM to that
    word, a pointer is an address and the null pointer is 0.  Addresses
    are integers: RAM ends far below [2 ^ 64], so that no address
    computed here wraps around.  The CPU a call runs on is an argument
    of the call, and one call runs at a time. *)

Module Kalloc.

Local Open Scope Z_scope.

(** What the file takes from param.h, riscv.h, memlayout.h and the linker
    script: the number of CPUs, the page size, the first address after
    the kernel ([end]), the end of RAM and the macro [PGROUNDUP]. *)
Record layout := Layout {
  NCPU : nat;
  PGSIZE : Z;
  kernel_end : Z;
  PHYSTOP : Z;
  PGROUNDUP : Z -> Z
}.

(** The first word of a page after [memset(pa, 1, PGSIZE)] and after
    [memset(r, 5, PGSIZE)]. *)
Definition JUNK1 : Z := 72340172838076673.
Definition JUNK5 : Z := 361700864190383365.

(** The bound of the walk in [kalloc], [16 * 1024]. *)
Definition CHUNK : nat := Z.to_nat (16 * 1024).

Inductive kevent :=
| KPushOff
| KPopOff
| KAcquire (i : nat)
| KRelease (i : nat).

(** [mem]: the first word of every page; [freelist]: [kmem[i].freelist]. *)
Record kstate := KState {
  mem : gmap Z Z;
  freelist : list Z;
  ktrace : list kevent
}.

(** A call returns, panics, follows a pointer that leads out of RAM or
    out of [kmem], or runs a loop for longer than the fuel it was given. *)
Inductive kres (A : Type) :=
| KRet (a : A) (s : kstate)
| KPanic (msg : string) (s : kstate)
| KFault
| KSpin.
Arguments KRet {A} a s.
Arguments KPanic {A} msg s.
Arguments KFault {A}.
Arguments KSpin {A}.

Definition K (A : Type) : Type := kstate -> kres A.

Definition kret {A} (a : A) : K A := fun s => KRet a s.

Definition kbind {A B} (m : K A) (k : A -> K B) : K B :=
  fun s =>
    match m s with
    | KRet a s' => k a s'
    | KPanic msg s' => KPanic msg s'
    | KFault => KFault
    | KSpin => KSpin
    end.

Declare Scope kalloc_scope.
Delimit Scope kalloc_scope with kalloc.
Bind Scope kalloc_scope with K.
Notation "x <- m ;; k" := (kbind m (fun x => k))
  (at level 100, m at next level, k at level 200, right associativity)
  : kalloc_scope.
Notation "m ;; k" := (kbind m (fun _ => k))
  (at level 100, k at level 200, right associativity) : kalloc_scope.
Local Open Scope kalloc_scope.

Definition kpanic {A} (msg : string) : K A := fun s => KPanic msg s.

Definition kemit (e : kevent) : K unit :=
  fun s => KRet tt (KState (mem s) (freelist s) (ktrace s ++ [e])).

(** [hartid = cpuid()] between [push_off] and [pop_off]; the CPU the code
    runs on is an argument of the calls. *)
Definition my_hart (hart : nat) : K nat :=
  kemit KPushOff ;; kemit KPopOff ;; kret hart.

(** Read [p->next]. *)
Definition get_next (p : Z) : K Z :=
  fun s =>
    match mem s !! p with
    | Some w => KRet w s
    | None => KFault
    end.

(** Write the first word of page [p]. *)
Definition set_word (p w : Z) : K unit :=
  fun s =>
    match mem s !! p with
    | Some _ => KRet tt (KState (<[p := w]> (mem s)) (freelist s) (ktrace s))
    | None => KFault
    end.

(** Read and write [kmem[i].freelist]. *)
Definition get_head (i : nat) : K Z :=
  fun s =>
    match freelist s !! i with
    | Some p => KRet p s
    | None => KFault
    end.

Definition set_head (i : nat) (p : Z) : K unit :=
  fun s =>
    match freelist s !! i with
    | Some _ => KRet tt (KState (mem s) (<[i := p]> (freelist s)) (ktrace s))
    | None => KFault
    end.

Section Code.
Variable L : layout.

(** ** kfree *)

Definition kfree (hart : nat) (pa : Z) : K unit :=
  if negb (pa mod PGSIZE L =? 0) || (pa <? kernel_end L) || (pa >=? PHYSTOP L)
  then kpanic "kfree"
  else
    set_word pa JUNK1 ;;
    hartid <- my_hart hart ;;
    kemit (KAcquire hartid) ;;
    hd <- get_head hartid ;;
    set_word pa hd ;;
    set_head hartid pa ;;
    kemit (KRelease hartid).

(** ** freerange and kinit *)

(** [for(; p + PGSIZE <= (char* )pa_end; p += PGSIZE) kfree(p);] *)
Fixpoint free_loop (fuel : nat) (hart : nat) (p pa_end : Z) : K unit :=
  match fuel with
  | O => fun _ => KSpin
  | S fuel =>
      if p + PGSIZE L <=? pa_end then
        kfree hart p ;;
        free_loop fuel hart (p + PGSIZE L) pa_end
      else kret tt
  end.

Definition freerange (fuel : nat) (hart : nat) (pa_start pa_end : Z) : K unit :=
  free_loop fuel hart (PGROUNDUP L pa_start) pa_end.

(** The locks are events of the trace and have no state of their own,
    so the loop of [initlock] leaves nothing behind. *)
Definition kinit (fuel : nat) (hart : nat) : K unit :=
  freerange fuel hart (kernel_end L) (PHYSTOP L).

(** ** kalloc *)

(** [for (int j = 0; j < 16 * 1024; j++) {
       if (!current->next) break;
       current = current->next; }] *)
Fixpoint walk (n : nat) (m : gmap Z Z) (current : Z) : option Z :=
  match n with
  | O => Some current
  | S n =>
      match m !! current with
      | None => None
      | Some nx => if nx =? 0 then Some current else walk n m nx
      end
  end.

Definition walk_chunk (current : Z) : K Z :=
  fun s =>
    match walk CHUNK (mem s) current with
    | Some c => KRet c s
    | None => KFault
    end.

(** The loop over the other CPUs, with [n] of them still to visit; the
    result is [r]. *)
Fixpoint steal (n : nat) (hartid i : nat) : K Z :=
  match n with
  | O => kret 0
  | S n =>
      if decide (i = hartid) then steal n hartid (S i)
      else
        kemit (KAcquire i) ;;
        current <- get_head i ;;
        if current =? 0 then
          kemit (KRelease i) ;;
          steal n hartid (S i)
        else
          current <- walk_chunk current ;;
          r <- get_head i ;;
          rest <- get_next current ;;
          set_head i rest ;;
          set_word current 0 ;;
          (if r =? 0 then kret tt
           else
             nx <- get_next r ;;
             set_head hartid nx) ;;
          kemit (KRelease i) ;;
          kret r
  end.

Definition kalloc (hart : nat) : K Z :=
  hartid <- my_hart hart ;;
  kemit (KAcquire hartid) ;;
  r <- get_head hartid ;;
  r <- (if r =? 0 then steal (NCPU L) hartid 0%nat
        else
          nx <- get_next r ;;
          set_head hartid nx ;;
          kret r) ;;
  kemit (KRelease hartid) ;;
  (if r =? 0 then kret tt else set_word r JUNK5) ;;
  kret r.

End Code.

(** ** Reading the free lists back *)

(** [is_run m p l]: following [next] from [p] visits the pages [l] and
    then reaches the null pointer. *)
Fixpoint is_run (m : gmap Z Z) (p : Z) (l : list Z) : Prop :=
  match l with
  | [] => p = 0
  | a :: l' => p = a /\ a <> 0 /\ exists w, m !! a = Some w /\ is_run m w l'
  end.

(** The same, computed. *)
Fixpoint run_of (fuel : nat) (m : gmap Z Z) (p : Z) : option (list Z) :=
  match fuel with
  | O => None
  | S fuel =>
      if p =? 0 then Some []
      else
        match m !! p with
        | None => None
        | Some w =>
            match run_of fuel m w with
            | Some l => Some (p :: l)
            | None => None
            end
        end
  end.

(** The [n] pages from [p] upwards. *)
Fixpoint pages (L : layout) (n : nat) (p : Z) : list Z :=
  match n with
  | O => []
  | S n => p :: pages L n (p + PGSIZE L)
  end.

(** The number of whole pages between [p] and [pa_end]. *)
Definition page_count (L : layout) (p pa_end : Z) : nat :=
  Z.to_nat ((pa_end - p) / PGSIZE L).

(** The lock events of a CPU that looks at the lists of the CPUs
    [i], ..., [i + n - 1] and passes over itself. *)
Definition probes (hart i n : nat) : list kevent :=
  concat (map (fun k => if decide (k = hart) then []
                        else [KAcquire k; KRelease k]) (seq i n)).

(** The free lists [ls], one per CPU, share no page. *)
Definition kwf (L : layout) (s : kstate) (ls : list (list Z)) : Prop :=
  length ls = NCPU L /\
  length (freelist s) = NCPU L /\
  (forall i l, ls !! i = Some l ->
     exists p, freelist s !! i = Some p /\ is_run (mem s) p l) /\
  NoDup (concat ls).

Definition kwf_check (L : layout) (s : kstate) (ls : list (list Z)) : bool :=
  bool_decide (length ls = NCPU L) &&
  bool_decide (map (run_of (S (length (concat ls))) (mem s)) (freelist s)
               = map Some ls) &&
  bool_decide (NoDup (concat ls)).

(** ** Examples *)

(** Two CPUs, pages of 4096 bytes from 0x80021000 to 0x80029000. *)
Definition small : layout :=
  Layout 2 4096 2147618816 2147651584
         (fun a => (a + 4095) / 4096 * 4096).

Definition page (k : Z) : Z := 2147618816 + 4096 * k.

(** RAM of [small] with nothing on any list. *)
Definition ram : gmap Z Z :=
  list_to_map (map (fun k => (page (Z.of_nat k), JUNK5)) (seq 0 8)).

(** The words that make [l] a list in memory. *)
Definition link (l : list Z) : list (Z * Z) := zip l (tail l ++ [0]).

(** The state of [small] in which CPU [i] has the free list [ls !! i]. *)
Definition lay (ls : list (list Z)) : kstate :=
  KState (list_to_map (concat (map link ls)) ∪ ram)
         (map (fun l => default 0 (head l)) ls) [].

End Kalloc.

(** * The sharded buffer cache of kernel/bio.c

    A shallow embedding of [binit], [bget], [bread], [bwrite], [brelse],
    [bpin] and [bunpin].  The pool [bcache.buf] is an array of [buf]
    records; a [struct buf *] into the pool is the index of the slot, the
    null pointer is [None].  The per-bucket lists are kept exactly as the
    code keeps them: through the [next] field of every slot and the
    [next] field of the dummy heads [map.head[i]].

    Spin locks, sleep locks and the disk driver are collaborators of this
    file; every call to them is recorded in a trace of events. *)

Module Bio.

Local Open Scope Z_scope.

(** ** Constants and machine integers *)

(** [#define NBUCKET 13] *)
Definition NBUCKET : Z := 13.

(** [#define HASH(x) ((x) % NBUCKET)], on a [uint] argument. *)
Definition HASH (x : Z) : Z := x mod NBUCKET.

(** The literal [0xffffffff] that [bget] starts its minimum from. *)
Definition UINT_MAX : Z := 4294967295.

(** Arithmetic on [uint] wraps around modulo 2^32. *)
Definition uint (x : Z) : Z := x mod 2 ^ 32.

(** ** Data *)

(** [struct sleeplock]: the two fields [holdingsleep] reads. *)
Record sleeplock := Sleeplock {
  locked : Z;
  pid : Z
}.

(** [struct buf].  The block contents play no part in the bookkeeping and
    are left out; [timestamp] is the field this lab added. *)
Record buf := Buf {
  valid : Z;
  dev : Z;
  blockno : Z;
  lock : sleeplock;
  refcnt : Z;
  timestamp : Z;
  next : option nat
}.

Definition set_valid (v : Z) (b : buf) : buf :=
  Buf v (dev b) (blockno b) (lock b) (refcnt b) (timestamp b) (next b).
Definition set_dev (v : Z) (b : buf) : buf :=
  Buf (valid b) v (blockno b) (lock b) (refcnt b) (timestamp b) (next b).
Definition set_blockno (v : Z) (b : buf) : buf :=
  Buf (valid b) (dev b) v (lock b) (refcnt b) (timestamp b) (next b).
Definition set_lock (v : sleeplock) (b : buf) : buf :=
  Buf (valid b) (dev b) (blockno b) v (refcnt b) (timestamp b) (next b).
Definition set_refcnt (v : Z) (b : buf) : buf :=
  Buf (valid b) (dev b) (blockno b) (lock b) v (timestamp b) (next b).
Definition set_timestamp (v : Z) (b : buf) : buf :=
  Buf (valid b) (dev b) (blockno b) (lock b) (refcnt b) v (next b).
Definition set_next (v : option nat) (b : buf) : buf :=
  Buf (valid b) (dev b) (blockno b) (lock b) (refcnt b) (timestamp b) v.

(** The spin locks the file takes: [bcache.lock], [map.lock[i]] and the
    clock's [tickslock]. *)
Inductive spinlock :=
| bcache_lock
| map_lock (i : nat)
| tickslock.

Global Instance spinlock_eq_dec : EqDecision spinlock.
Proof. solve_decision. Defined.

(** Calls into the collaborators, in program order. *)
Inductive event :=
| EvAcquire (l : spinlock)
| EvRelease (l : spinlock)
| EvAcquireSleep (b : nat)
| EvReleaseSleep (b : nat)
| EvDiskRW (b : nat) (write : bool).

(** The memory the file owns, the clock it reads, and the calls made so
    far (oldest first). *)
Record state := State {
  bcache_buf : list buf;
  map_head : list (option nat);
  ticks : Z;
  trace : list event
}.

Definition with_bufs (bs : list buf) (s : state) : state :=
  State bs (map_head s) (ticks s) (trace s).
Definition with_heads (hs : list (option nat)) (s : state) : state :=
  State (bcache_buf s) hs (ticks s) (trace s).
Definition with_event (e : event) (s : state) : state :=
  State (bcache_buf s) (map_head s) (ticks s) (trace s ++ [e]).

(** [NBUF] comes from param.h; it is the length of [bcache.buf]. *)
Definition NBUF (s : state) : Z := Z.of_nat (length (bcache_buf s)).

(** ** Outcomes and the state monad *)

(** A call returns, panics (the kernel stops with the memory as it is at
    that point), dereferences a pointer outside the pool, or loops for
    ever. *)
Inductive outcome (A : Type) :=
| Ret (a : A) (s : state)
| Panic (msg : string) (s : state)
| Fault
| Spin.
Arguments Ret {A} a s.
Arguments Panic {A} msg s.
Arguments Fault {A}.
Arguments Spin {A}.

Definition M (A : Type) : Type := state -> outcome A.

Definition ret {A} (a : A) : M A := fun s => Ret a s.

Definition bind {A B} (m : M A) (k : A -> M B) : M B :=
  fun s =>
    match m s with
    | Ret a s' => k a s'
    | Panic msg s' => Panic msg s'
    | Fault => Fault
    | Spin => Spin
    end.

Declare Scope bio_scope.
Delimit Scope bio_scope with bio.
Bind Scope bio_scope with M.
Notation "x <- m ;; k" := (bind m (fun x => k))
  (at level 100, m at next level, k at level 200, right associativity)
  : bio_scope.
Notation "m ;; k" := (bind m (fun _ => k))
  (at level 100, k at level 200, right associativity) : bio_scope.
Local Open Scope bio_scope.

Definition panic {A} (msg : string) : M A := fun s => Panic msg s.

(** Result of a loop that only reads memory. *)
Inductive walk (A : Type) :=
| Exit (a : A)
| Wild
| Endless.
Arguments Exit {A} a.
Arguments Wild {A}.
Arguments Endless {A}.

Definition lift {A} (w : walk A) : M A :=
  fun s =>
    match w with
    | Exit a => Ret a s
    | Wild => Fault
    | Endless => Spin
    end.

(** ** Collaborators *)

Definition emit (e : event) : M unit :=
  fun s => Ret tt (with_event e s).

Definition acquire (l : spinlock) : M unit := emit (EvAcquire l).

Definition release (l : spinlock) : M unit := emit (EvRelease l).

(** Read [*b]. *)
Definition load (b : nat) : M buf :=
  fun s =>
    match bcache_buf s !! b with
    | Some x => Ret x s
    | None => Fault
    end.

(** Update fields of [*b]. *)
Definition store (b : nat) (f : buf -> buf) : M unit :=
  fun s =>
    match bcache_buf s !! b with
    | Some x => Ret tt (with_bufs (<[b := f x]> (bcache_buf s)) s)
    | None => Fault
    end.

(** Read [map.head[i].next]. *)
Definition load_head (i : nat) : M (option nat) :=
  fun s =>
    match map_head s !! i with
    | Some p => Ret p s
    | None => Fault
    end.

(** Write [map.head[i].next]. *)
Definition store_head (i : nat) (p : option nat) : M unit :=
  fun s =>
    match map_head s !! i with
    | Some _ => Ret tt (with_heads (<[i := p]> (map_head s)) s)
    | None => Fault
    end.

(** Modelled from the spec: kernel/sleeplock.c is not part of the sources.
    The content lock is a blocking, exclusive, per-slot lock;
    [initsleeplock] leaves it free, [acquiresleep] returns once the lock
    belongs to the calling process (the wait itself is outside a
    sequential model), [releasesleep] frees it, and [holdingsleep] tells
    whether the calling process holds it. *)
Definition initsleeplock (b : nat) : M unit :=
  store b (set_lock (Sleeplock 0 0)).

Definition acquiresleep (me : Z) (b : nat) : M unit :=
  store b (set_lock (Sleeplock 1 me)) ;;
  emit (EvAcquireSleep b).

Definition releasesleep (b : nat) : M unit :=
  store b (set_lock (Sleeplock 0 0)) ;;
  emit (EvReleaseSleep b).

Definition holding (me : Z) (x : buf) : bool :=
  negb (locked (lock x) =? 0) && (pid (lock x) =? me).

Definition holdingsleep (me : Z) (b : nat) : M bool :=
  x <- load b ;;
  ret (holding me x).

(** Read the global [ticks] (under [tickslock], which the caller takes). *)
Definition read_ticks : M Z := fun s => Ret (ticks s) s.

(** The disk driver: only the call is recorded. *)
Definition virtio_disk_rw (b : nat) (write : bool) : M unit :=
  _ <- load b ;;
  emit (EvDiskRW b write).

(** ** binit *)

(** The inner loop of [binit],
    [for (int j = 0; i < NBUF / NBUCKET; j++) { ... }].
    [None] is the [return] inside the loop; [Some b] is the loop being
    left with the cursor at [b]. *)
Fixpoint binit_inner (fuel : nat) (i j : Z) (b : nat) : M (option nat) :=
  match fuel with
  | O => fun _ => Spin
  | S fuel =>
      fun s =>
        if i <? NBUF s / NBUCKET then
          if Z.of_nat b >=? NBUF s then Ret None s
          else
            (initsleeplock b ;;
             hd <- load_head (Z.to_nat i) ;;
             store b (set_next hd) ;;
             store_head (Z.to_nat i) (Some b) ;;
             binit_inner fuel i (j + 1) (S b)) s
        else Ret (Some b) s
  end.

(** The outer loop, [for (int i = 0; ; i = (i + 1) % NBUCKET)]. *)
Fixpoint binit_outer (fuel : nat) (i : Z) (b : nat) : M unit :=
  match fuel with
  | O => fun _ => Spin
  | S fuel =>
      r <- binit_inner (S fuel) i 0 b ;;
      match r with
      | None => ret tt
      | Some b' => binit_outer fuel ((i + 1) mod NBUCKET) b'
      end
  end.

Definition binit (fuel : nat) : M unit := binit_outer fuel 0 0%nat.

(** Static storage before [binit]: everything is zero. *)
Definition zero_buf : buf := Buf 0 0 0 (Sleeplock 0 0) 0 0 None.

Definition boot (nbuf : nat) : state :=
  State (replicate nbuf zero_buf) (replicate (Z.to_nat NBUCKET) None) 0 [].

(** ** bget *)

(** Loops give up after more steps than the pool (plus a dummy head) has
    nodes: a walk that long has come back to a node it has seen, and none
    of these loops writes memory, so the C loop never ends. *)
Definition steps (bufs : list buf) : nat := S (S (length bufs)).

(** [for(b = map.head[h].next; b != 0; b = b->next)
       if(b->dev == dev && b->blockno == blockno) ...] *)
Fixpoint find_cached (fuel : nat) (bufs : list buf) (d bn : Z)
    (b : option nat) : walk (option nat) :=
  match fuel with
  | O => Endless
  | S fuel =>
      match b with
      | None => Exit None
      | Some k =>
          match bufs !! k with
          | None => Wild
          | Some x =>
              if (dev x =? d) && (blockno x =? bn) then Exit (Some k)
              else find_cached fuel bufs d bn (next x)
          end
      end
  end.

(** [for(b = map.head[h].next; b != 0; b = b->next)
       if(b->refcnt == 0 && b->timestamp < min) { empty = b; min = b->timestamp; }] *)
Fixpoint scan_lru (fuel : nat) (bufs : list buf) (min : Z)
    (empty : option nat) (b : option nat) : walk (option nat) :=
  match fuel with
  | O => Endless
  | S fuel =>
      match b with
      | None => Exit empty
      | Some k =>
          match bufs !! k with
          | None => Wild
          | Some x =>
              if (refcnt x =? 0) && (timestamp x <? min)
              then scan_lru fuel bufs (timestamp x) (Some k) (next x)
              else scan_lru fuel bufs min empty (next x)
          end
      end
  end.

(** [for (b = map.head[i].next; b != 0; b = b->next)
       if (b->refcnt == 0) { empty = b; goto STEAL; }] *)
Fixpoint first_free (fuel : nat) (bufs : list buf) (b : option nat)
    : walk (option nat) :=
  match fuel with
  | O => Endless
  | S fuel =>
      match b with
      | None => Exit None
      | Some k =>
          match bufs !! k with
          | None => Wild
          | Some x =>
              if refcnt x =? 0 then Exit (Some k)
              else first_free fuel bufs (next x)
          end
      end
  end.

(** The three scans of [bget], run on the memory as it is. *)
Definition lookup (d bn : Z) (hd : option nat) : M (option nat) :=
  fun s => lift (find_cached (steps (bcache_buf s)) (bcache_buf s) d bn hd) s.

Definition scan_local (hd : option nat) : M (option nat) :=
  fun s => lift (scan_lru (steps (bcache_buf s)) (bcache_buf s) UINT_MAX None hd) s.

Definition scan_free (hd : option nat) : M (option nat) :=
  fun s => lift (first_free (steps (bcache_buf s)) (bcache_buf s) hd) s.

(** The loop over the other buckets,
    [for (i = 0; i < NBUCKET; i++) { if (i == h) continue; ... }],
    with [n] buckets still to visit; falling out of it is the panic. *)
Fixpoint steal_scan (n : nat) (h i : nat) : M (nat * nat) :=
  match n with
  | O => panic "bget: no buffers"
  | S n =>
      if decide (i = h) then steal_scan n h (S i)
      else
        acquire (map_lock i) ;;
        hd <- load_head i ;;
        r <- scan_free hd ;;
        match r with
        | Some e => ret (i, e)
        | None => release (map_lock i) ;; steal_scan n h (S i)
        end
  end.

(** A [struct buf *] that may also point at a dummy head, as the cursor
    of the unlink loop does. *)
Inductive cursor :=
| at_head (i : nat)
| at_buf (k : nat).

Definition cursor_next (bufs : list buf) (heads : list (option nat))
    (c : cursor) : option (option nat) :=
  match c with
  | at_head i => heads !! i
  | at_buf k => next <$> bufs !! k
  end.

(** [for (b = &map.head[i]; empty != b->next; b = b->next);] *)
Fixpoint steal_prev (fuel : nat) (bufs : list buf)
    (heads : list (option nat)) (empty : nat) (b : cursor) : walk cursor :=
  match fuel with
  | O => Endless
  | S fuel =>
      match cursor_next bufs heads b with
      | None => Wild
      | Some nx =>
          if decide (nx = Some empty) then Exit b
          else
            match nx with
            | None => Wild
            | Some k => steal_prev fuel bufs heads empty (at_buf k)
            end
      end
  end.

Definition predecessor (i empty : nat) : M cursor :=
  fun s => lift (steal_prev (steps (bcache_buf s)) (bcache_buf s)
                   (map_head s) empty (at_head i)) s.

(** [b->next = p] for such a cursor. *)
Definition store_cursor_next (c : cursor) (p : option nat) : M unit :=
  match c with
  | at_head i => store_head i p
  | at_buf k => store k (set_next p)
  end.

(** The block at label [STEAL], up to the two releases. *)
Definition steal (i h empty : nat) : M unit :=
  b <- predecessor i empty ;;
  e <- load empty ;;
  store_cursor_next b (next e) ;;
  hd <- load_head h ;;
  store empty (set_next hd) ;;
  store_head h (Some empty).

(** The block at label [EVICT]. *)
Definition evict (me d bn : Z) (h empty : nat) : M nat :=
  store empty (set_dev d) ;;
  store empty (set_blockno bn) ;;
  store empty (set_valid 0) ;;
  store empty (set_refcnt 1) ;;
  release (map_lock h) ;;
  acquiresleep me empty ;;
  ret empty.

Definition bget (me d bn : Z) : M nat :=
  let h := Z.to_nat (HASH bn) in
  acquire (map_lock h) ;;
  hd <- load_head h ;;
  hit <- lookup d bn hd ;;
  match hit with
  | Some b =>
      store b (fun x => set_refcnt (uint (refcnt x + 1)) x) ;;
      release (map_lock h) ;;
      acquiresleep me b ;;
      ret b
  | None =>
      cand <- scan_local hd ;;
      match cand with
      | Some empty => evict me d bn h empty
      | None =>
          acquire bcache_lock ;;
          found <- steal_scan (Z.to_nat NBUCKET) h 0%nat ;;
          let '(i, empty) := found in
          steal i h empty ;;
          release (map_lock i) ;;
          release bcache_lock ;;
          evict me d bn h empty
      end
  end.

(** ** bread, bwrite, brelse, bpin, bunpin *)

Definition bread (me d bn : Z) : M nat :=
  b <- bget me d bn ;;
  x <- load b ;;
  if valid x =? 0 then
    virtio_disk_rw b false ;;
    store b (set_valid 1) ;;
    ret b
  else ret b.

Definition bwrite (me : Z) (b : nat) : M unit :=
  held <- holdingsleep me b ;;
  if negb held then panic "bwrite"
  else virtio_disk_rw b true.

Definition brelse (me : Z) (b : nat) : M unit :=
  held <- holdingsleep me b ;;
  if negb held then panic "brelse"
  else
    x <- load b ;;
    let h := Z.to_nat (HASH (blockno x)) in
    releasesleep b ;;
    acquire (map_lock h) ;;
    store b (fun x => set_refcnt (uint (refcnt x - 1)) x) ;;
    x' <- load b ;;
    (if refcnt x' =? 0 then
       acquire tickslock ;;
       t <- read_ticks ;;
       store b (set_timestamp t) ;;
       release tickslock
     else ret tt) ;;
    release (map_lock h).

Definition bpin (b : nat) : M unit :=
  x <- load b ;;
  let h := Z.to_nat (HASH (blockno x)) in
  acquire (map_lock h) ;;
  store b (fun x => set_refcnt (uint (refcnt x + 1)) x) ;;
  release (map_lock h).

Definition bunpin (b : nat) : M unit :=
  x <- load b ;;
  let h := Z.to_nat (HASH (blockno x)) in
  acquire (map_lock h) ;;
  store b (fun x => set_refcnt (uint (refcnt x - 1)) x) ;;
  release (map_lock h).

(** ** Reading the memory back *)

(** [is_list bufs p l]: following [next] from [p] visits exactly the slots
    [l], in this order, and then reaches the null pointer. *)
Fixpoint is_list (bufs : list buf) (p : option nat) (l : list nat) : Prop :=
  match l with
  | [] => p = None
  | k :: l' =>
      p = Some k /\ exists x, bufs !! k = Some x /\ is_list bufs (next x) l'
  end.

(** The list of bucket [i]. *)
Definition bucket (s : state) (i : nat) (l : list nat) : Prop :=
  exists p, map_head s !! i = Some p /\ is_list (bcache_buf s) p l.

(** The same, computed. *)
Fixpoint chain (fuel : nat) (bufs : list buf) (p : option nat)
    : option (list nat) :=
  match fuel with
  | O => None
  | S fuel =>
      match p with
      | None => Some []
      | Some k =>
          match bufs !! k with
          | None => None
          | Some x =>
              match chain fuel bufs (next x) with
              | Some l => Some (k :: l)
              | None => None
              end
          end
      end
  end.

Definition chains (s : state) : list (option (list nat)) :=
  map (chain (steps (bcache_buf s)) (bcache_buf s)) (map_head s).

(** The pool is partitioned into [NBUCKET] null-terminated lists [ls]
    that share no slot. *)
Definition wf (s : state) (ls : list (list nat)) : Prop :=
  length ls = Z.to_nat NBUCKET /\
  (forall i l, ls !! i = Some l -> bucket s i l /\ NoDup l) /\
  (forall i j li lj k, i <> j -> ls !! i = Some li -> ls !! j = Some lj ->
     k ∈ li -> k ∉ lj).

(** Every slot of the pool is on one of the lists. *)
Definition covers (s : state) (ls : list (list nat)) : Prop :=
  forall k, (k < length (bcache_buf s))%nat ->
    exists i l, ls !! i = Some l /\ k ∈ l.

(** The same, decided by reading the lists back. *)
Definition wf_check (s : state) (ls : list (list nat)) : bool :=
  bool_decide (length ls = Z.to_nat NBUCKET) &&
  bool_decide (chains s = map Some ls) &&
  bool_decide (NoDup (concat ls)).

(** A slot that nobody holds. *)
Definition evictable (bufs : list buf) (k : nat) : Prop :=
  exists x, bufs !! k = Some x /\ refcnt x = 0.

(** What [evict] leaves in the slot. *)
Definition claimed (me d bn : Z) (x : buf) : buf :=
  Buf 0 d bn (Sleeplock 1 me) 1 (timestamp x) (next x).

(** The state in which the scans of [bget] run. *)
Definition entered (h : nat) (s : state) : state :=
  with_event (EvAcquire (map_lock h)) s.

(** The state in which the other buckets are searched. *)
Definition searching (h : nat) (s : state) : state :=
  with_event (EvAcquire bcache_lock) (entered h s).

(** Taking and giving back the locks of the buckets [ks], one after the
    other. *)
Definition handoffs (ks : list nat) : list event :=
  flat_map (fun k => [EvAcquire (map_lock k); EvRelease (map_lock k)]) ks.

(** Two memories that differ in [next] fields only. *)
Definition same_fields (bufs bufs' : list buf) : Prop :=
  forall k, set_next None <$> bufs' !! k = set_next None <$> bufs !! k.

(** Where the unlink loop stops: at the head when [empty] is first, else
    at the slot before it. *)
Definition stop_at (c : cursor) (l1 : list nat) : cursor :=
  match list.last l1 with
  | None => c
  | Some q => at_buf q
  end.

(** ** The three ways in which bget returns *)

(** [HIT]: the block is cached in slot [b]; its count goes up by one. *)
Definition hit_state (me : Z) (h b : nat) (x : buf) (s : state) : state :=
  State (<[b := set_lock (Sleeplock 1 me) (set_refcnt (uint (refcnt x + 1)) x)]>
           (bcache_buf s))
        (map_head s) (ticks s)
        (trace s ++ [EvAcquire (map_lock h); EvRelease (map_lock h);
                     EvAcquireSleep b]).

(** [ADMIT_LOCAL]: slot [b] of the bucket itself is recycled. *)
Definition local_state (me d bn : Z) (h b : nat) (x : buf) (s : state)
    : state :=
  State (<[b := claimed me d bn x]> (bcache_buf s))
        (map_head s) (ticks s)
        (trace s ++ [EvAcquire (map_lock h); EvRelease (map_lock h);
                     EvAcquireSleep b]).

(** The state in which label [STEAL] is reached, bucket [j] having been
    found after the buckets [ks]. *)
Definition found_state (h j : nat) (ks : list nat) (s : state) : state :=
  State (bcache_buf s) (map_head s) (ticks s)
        (trace s ++ [EvAcquire (map_lock h); EvAcquire bcache_lock] ++
           handoffs ks ++ [EvAcquire (map_lock j)]).

(** [ADMIT_STOLEN]: [sm] is the memory after the unlinking and linking. *)
Definition stolen_state (me d bn : Z) (h j b : nat) (x : buf) (sm : state)
    : state :=
  State (<[b := claimed me d bn x]> (bcache_buf sm))
        (map_head sm) (ticks sm)
        (trace sm ++ [EvRelease (map_lock j); EvRelease bcache_lock;
                      EvRelease (map_lock h); EvAcquireSleep b]).

(** The state in which [bget] panics. *)
Definition exhausted_state (h : nat) (ks : list nat) (s : state) : state :=
  State (bcache_buf s) (map_head s) (ticks s)
        (trace s ++ [EvAcquire (map_lock h); EvAcquire bcache_lock] ++
           handoffs ks).

Inductive bget_path (me d bn : Z) (s : state) (b : nat) (s' : state) : Prop :=
| path_hit (hd : option nat) (x : buf) :
    map_head s !! Z.to_nat (HASH bn) = Some hd ->
    find_cached (steps (bcache_buf s)) (bcache_buf s) d bn hd = Exit (Some b) ->
    bcache_buf s !! b = Some x ->
    s' = hit_state me (Z.to_nat (HASH bn)) b x s ->
    bget_path me d bn s b s'
| path_local (hd : option nat) (x : buf) :
    map_head s !! Z.to_nat (HASH bn) = Some hd ->
    find_cached (steps (bcache_buf s)) (bcache_buf s) d bn hd = Exit None ->
    scan_lru (steps (bcache_buf s)) (bcache_buf s) UINT_MAX None hd
      = Exit (Some b) ->
    bcache_buf s !! b = Some x ->
    s' = local_state me d bn (Z.to_nat (HASH bn)) b x s ->
    bget_path me d bn s b s'
| path_stolen (hd hdj : option nat) (j : nat) (ks : list nat) (sm : state)
    (x : buf) :
    map_head s !! Z.to_nat (HASH bn) = Some hd ->
    find_cached (steps (bcache_buf s)) (bcache_buf s) d bn hd = Exit None ->
    scan_lru (steps (bcache_buf s)) (bcache_buf s) UINT_MAX None hd
      = Exit None ->
    j <> Z.to_nat (HASH bn) ->
    (j < Z.to_nat NBUCKET)%nat ->
    map_head s !! j = Some hdj ->
    first_free (steps (bcache_buf s)) (bcache_buf s) hdj = Exit (Some b) ->
    steal j (Z.to_nat (HASH bn)) b (found_state (Z.to_nat (HASH bn)) j ks s)
      = Ret tt sm ->
    bcache_buf sm !! b = Some x ->
    s' = stolen_state me d bn (Z.to_nat (HASH bn)) j b x sm ->
    bget_path me d bn s b s'.

(** What [bread] adds when the slot came back without data: the disk
    read and the flag. *)
Definition loaded (b : nat) (x : buf) (s : state) : state :=
  State (<[b := set_valid 1 x]> (bcache_buf s)) (map_head s) (ticks s)
        (trace s ++ [EvDiskRW b false]).

(** ** The interface as a set of calls *)

Inductive call :=
| Bget (me d bn : Z)
| Bread (me d bn : Z)
| Bwrite (me : Z) (b : nat)
| Brelse (me : Z) (b : nat)
| Bpin (b : nat)
| Bunpin (b : nat).

Definition run (c : call) : M unit :=
  match c with
  | Bget me d bn => bget me d bn ;; ret tt
  | Bread me d bn => bread me d bn ;; ret tt
  | Bwrite me b => bwrite me b
  | Brelse me b => brelse me b
  | Bpin b => bpin b
  | Bunpin b => bunpin b
  end.

(** The memory a call leaves behind, whether it returns or panics. *)
Definition final {A} (o : outcome A) : option state :=
  match o with
  | Ret _ s => Some s
  | Panic _ s => Some s
  | Fault => None
  | Spin => None
  end.

(** Every slot of [bufs] is still there in [bufs'] and caches the same
    block. *)
Definition same_ident (bufs bufs' : list buf) : Prop :=
  forall k x, bufs !! k = Some x ->
    exists x', bufs' !! k = Some x' /\ dev x' = dev x /\ blockno x' = blockno x.

(** [m] relates the state it starts in and the state it ends in by [R]. *)
Definition respects {A} (R : state -> state -> Prop) (m : M A) : Prop :=
  forall s,
    match m s with
    | Ret _ s' => R s s'
    | Panic _ s' => R s s'
    | Fault => True
    | Spin => True
    end.

Definition ident_kept (s s' : state) : Prop :=
  same_ident (bcache_buf s) (bcache_buf s').

(** The same for the slots that somebody holds. *)
Definition held_ident_kept (s s' : state) : Prop :=
  forall k x, bcache_buf s !! k = Some x -> refcnt x <> 0 ->
    exists x', bcache_buf s' !! k = Some x' /\
      dev x' = dev x /\ blockno x' = blockno x.

(** [s'] has the heads and the [next] fields of [s]. *)
Definition links_kept (s s' : state) : Prop :=
  map_head s' = map_head s /\
  forall k, next <$> bcache_buf s' !! k = next <$> bcache_buf s !! k.

(** ** The memory binit builds *)

(** [binit] links slot [k] in front of slot [k - 1]. *)
Definition prev (k : nat) : option nat :=
  match k with
  | O => None
  | S k => Some k
  end.

(** The pool of [n] slots when the first [b] have been linked. *)
Definition linked (b n : nat) : list buf :=
  map (fun k => set_next (prev k) zero_buf) (seq 0 b) ++
  replicate (n - b) zero_buf.

Definition linking (b n : nat) : state :=
  State (linked b n) (<[0%nat := prev b]> (replicate (Z.to_nat NBUCKET) None))
        0 [].

(** ** The states the kernel can be in *)

(** The timer interrupt moves the clock. *)
Definition advance (t : Z) (s : state) : state :=
  State (bcache_buf s) (map_head s) t (trace s).

(** After [binit] on a pool of at least [NBUCKET] slots, any call that
    returns and any tick of the clock lead to a reachable state. *)
Inductive reachable : state -> Prop :=
| reach_binit (n fuel : nat) (s : state) :
    (Z.to_nat NBUCKET <= n)%nat ->
    binit fuel (boot n) = Ret tt s ->
    reachable s
| reach_call (c : call) (s s' : state) :
    reachable s ->
    run c s = Ret tt s' ->
    reachable s'
| reach_tick (t : Z) (s : state) :
    reachable s ->
    ticks s <= t <= UINT_MAX ->
    reachable (advance t s).

(** A history: calls that return, and ticks. *)
Inductive action :=
| Call (c : call)
| Tick (t : Z).

Fixpoint play (acts : list action) (s : state) : option state :=
  match acts with
  | [] => Some s
  | Call c :: acts =>
      match run c s with
      | Ret _ s' => play acts s'
      | _ => None
      end
  | Tick t :: acts =>
      if (ticks s <=? t) && (t <=? UINT_MAX) then play acts (advance t s)
      else None
  end.

(** The state after [binit] on 13 slots, which leaves [linking 13 13],
    and the history [acts]. *)
Definition after (acts : list action) : option state :=
  play acts (linking 13 13).

(** Block 5 is read and released at the last tick before the clock
    wraps. *)
Definition history_stamp : list action :=
  [Call (Bget 1 1 5); Tick UINT_MAX; Call (Brelse 1 12)].

(** Then twelve blocks of bucket 0 are read and kept. *)
Definition history_busy : list action :=
  history_stamp ++
  map (fun k => Call (Bget 1 1 (13 * Z.of_nat k))) (seq 0 12).

Definition pool_stamped : state :=
  Eval vm_compute in default (boot 0) (after history_stamp).

Definition pool_busy : state :=
  Eval vm_compute in default (boot 0) (after history_busy).

(** ** Lock discipline on a trace *)

Definition is_shard_lock (l : spinlock) : bool :=
  match l with
  | map_lock _ => true
  | _ => false
  end.

Fixpoint drop_lock (l : spinlock) (held : list spinlock) : list spinlock :=
  match held with
  | [] => []
  | l' :: held => if decide (l = l') then held else l' :: drop_lock l held
  end.

(** [calm held tr]: starting with the spin locks [held], the calls [tr]
    never take a sleep lock and never start disk I/O while a bucket lock
    is held. *)
Fixpoint calm (held : list spinlock) (tr : list event) : bool :=
  match tr with
  | [] => true
  | EvAcquire l :: tr => calm (l :: held) tr
  | EvRelease l :: tr => calm (drop_lock l held) tr
  | EvAcquireSleep _ :: tr => negb (existsb is_shard_lock held) && calm held tr
  | EvDiskRW _ _ :: tr => negb (existsb is_shard_lock held) && calm held tr
  | EvReleaseSleep _ :: tr => calm held tr
  end.

(** The spin locks held after the calls [tr]. *)
Fixpoint held_after (held : list spinlock) (tr : list event)
    : list spinlock :=
  match tr with
  | [] => held
  | EvAcquire l :: tr => held_after (l :: held) tr
  | EvRelease l :: tr => held_after (drop_lock l held) tr
  | _ :: tr => held_after held tr
  end.

(** Calls that neither sleep nor touch the disk. *)
Definition quiet_event (e : event) : bool :=
  match e with
  | EvAcquireSleep _ => false
  | EvDiskRW _ _ => false
  | _ => true
  end.

(** [m], started without spin locks, keeps the discipline in whatever it
    adds to the trace. *)
Definition calm_run {A} (m : M A) (s : state) : Prop :=
  match m s with
  | Ret _ s' => exists evs, trace s' = trace s ++ evs /\ calm [] evs = true
  | Panic _ s' => exists evs, trace s' = trace s ++ evs /\ calm [] evs = true
  | Fault => True
  | Spin => True
  end.

(** [m] only adds quiet calls to the trace. *)
Definition quiet_step (s s' : state) : Prop :=
  exists evs, trace s' = trace s ++ evs /\ forallb quiet_event evs = true.

(** Four slots: slot 0 alone in bucket 5 and held; slots 1 (held twice)
    and 2 (free, stamped 50) in bucket 6; slot 3 (free, stamped 1) in
    bucket 7. *)
Definition pool_steal : state :=
  State [Buf 1 1 18 (Sleeplock 0 0) 1 4 None;
         Buf 1 1 6 (Sleeplock 0 0) 2 0 (Some 2%nat);
         Buf 1 1 19 (Sleeplock 0 0) 0 50 None;
         Buf 1 1 7 (Sleeplock 0 0) 0 1 None]
        [None; None; None; None; None; Some 0%nat; Some 1%nat; Some 3%nat;
         None; None; None; None; None]
        60 [].

Definition lists_steal : list (list nat) :=
  [[]; []; []; []; []; [0%nat]; [1%nat; 2%nat]; [3%nat]; []; []; []; []; []].

(** Two free slots: slot 0 in bucket 5, released at tick 2^32 - 1, and
    slot 1 in bucket 6, released at tick 7. *)
Definition pool_sentinel : state :=
  State [Buf 1 1 18 (Sleeplock 0 0) 0 UINT_MAX None;
         Buf 1 1 6 (Sleeplock 0 0) 0 7 None]
        [None; None; None; None; None; Some 0%nat; Some 1%nat; None;
         None; None; None; None; None]
        9 [].

(** The same with slot 1 held twice: slot 0 is the only free slot. *)
Definition pool_last_free : state :=
  State [Buf 1 1 18 (Sleeplock 0 0) 0 UINT_MAX None;
         Buf 1 1 6 (Sleeplock 0 0) 2 7 None]
        [None; None; None; None; None; Some 0%nat; Some 1%nat; None;
         None; None; None; None; None]
        9 [].

Definition lists_sentinel : list (list nat) :=
  [[]; []; []; []; []; [0%nat]; [1%nat]; []; []; []; []; []; []].

(** Bucket 5 with slot 0 (free, stamped 8) in front of slot 1 (free,
    stamped 7). *)
Definition pool_two : state :=
  State [Buf 1 1 18 (Sleeplock 0 0) 0 8 (Some 1%nat);
         Buf 1 1 31 (Sleeplock 0 0) 0 7 None]
        [None; None; None; None; None; Some 0%nat; None; None;
         None; None; None; None; None]
        9 [].

Definition lists_two : list (list nat) :=
  [[]; []; []; []; []; [0%nat; 1%nat]; []; []; []; []; []; []; []].

(** ** Example pools *)

(** One slot, held once, last stamped at tick 3; the clock shows 9. *)
Definition pool_pinned : state :=
  State [Buf 1 1 0 (Sleeplock 0 0) 1 3 None]
        (Some 0%nat :: replicate 12 None) 9 [].

(** The same slot, locked by process 7. *)
Definition pool_locked : state :=
  State [Buf 1 1 0 (Sleeplock 1 7) 1 3 None]
        (Some 0%nat :: replicate 12 None) 9 [].

(** One free slot in bucket 0. *)
Definition pool_free : state :=
  State [Buf 1 1 0 (Sleeplock 0 0) 0 3 None]
        (Some 0%nat :: replicate 12 None) 9 [].

(** ** Basic facts *)

Lemma lookup_store (bufs : list buf) (b : nat) (x y : buf) :
  bufs !! b = Some x -> <[b := y]> bufs !! b = Some y.
Proof. intros H. apply list_lookup_insert_eq. eapply lookup_lt_Some; eauto. Qed.

(** *** Equations for running one statement *)

Lemma bind_bind {A B C} (m : M A) (k1 : A -> M B) (k2 : B -> M C) (s : state) :
  bind (bind m k1) k2 s = bind m (fun a => bind (k1 a) k2) s.
Proof. unfold bind. destruct (m s); reflexivity. Qed.

Lemma bind_ret {A B} (a : A) (k : A -> M B) (s : state) :
  bind (ret a) k s = k a s.
Proof. reflexivity. Qed.

Lemma bind_emit {B} (e : event) (k : unit -> M B) (s : state) :
  bind (emit e) k s = k tt (with_event e s).
Proof. reflexivity. Qed.

Lemma bind_read_ticks {B} (k : Z -> M B) (s : state) :
  bind read_ticks k s = k (ticks s) s.
Proof. reflexivity. Qed.

Lemma bind_load {B} (b : nat) (k : buf -> M B) (s : state) (x : buf) :
  bcache_buf s !! b = Some x -> bind (load b) k s = k x s.
Proof. intros H. unfold bind, load. rewrite H. reflexivity. Qed.

Lemma bind_store {B} (b : nat) (f : buf -> buf) (k : unit -> M B)
    (s : state) (x : buf) :
  bcache_buf s !! b = Some x ->
  bind (store b f) k s = k tt (with_bufs (<[b := f x]> (bcache_buf s)) s).
Proof. intros H. unfold bind, store. rewrite H. reflexivity. Qed.

Lemma bind_load_head {B} (i : nat) (k : option nat -> M B) (s : state)
    (p : option nat) :
  map_head s !! i = Some p -> bind (load_head i) k s = k p s.
Proof. intros H. unfold bind, load_head. rewrite H. reflexivity. Qed.

Lemma bind_store_head {B} (i : nat) (p : option nat) (k : unit -> M B)
    (s : state) (q : option nat) :
  map_head s !! i = Some q ->
  bind (store_head i p) k s = k tt (with_heads (<[i := p]> (map_head s)) s).
Proof. intros H. unfold bind, store_head. rewrite H. reflexivity. Qed.

Lemma store_ret (b : nat) (f : buf -> buf) (s : state) (x : buf) :
  bcache_buf s !! b = Some x ->
  store b f s = Ret tt (with_bufs (<[b := f x]> (bcache_buf s)) s).
Proof. intros H. unfold store. rewrite H. reflexivity. Qed.

Ltac mem :=
  cbn [bcache_buf map_head ticks trace with_bufs with_heads with_event];
  first [ eassumption | eapply lookup_store; mem ].

Ltac mstep :=
  first
    [ rewrite bind_bind
    | rewrite bind_ret
    | rewrite bind_emit
    | rewrite bind_read_ticks
    | erewrite bind_load by mem
    | erewrite bind_store by mem
    | erewrite bind_load_head by mem
    | erewrite bind_store_head by mem ].

Ltac mrun := unfold acquire, release, acquiresleep, releasesleep, virtio_disk_rw,
  holdingsleep, initsleeplock; repeat mstep.

Lemma uint_small (x : Z) : 0 <= x < 2 ^ 32 -> uint x = x.
Proof. intros H. unfold uint. apply Z.mod_small. exact H. Qed.

Lemma uint_minus_one : uint (0 - 1) = UINT_MAX.
Proof. reflexivity. Qed.

(** ** bwrite and brelse check the content lock *)

(** C6: [bwrite] and [brelse] on a slot whose content lock the caller
    does not hold panic at once, with nothing changed; when the caller
    holds the lock both return. *)
Theorem content_lock_enforced (me : Z) (b : nat) (s : state) (x : buf) :
  bcache_buf s !! b = Some x ->
  if holding me x
  then (exists s', bwrite me b s = Ret tt s') /\ (exists s', brelse me b s = Ret tt s')
  else bwrite me b s = Panic "bwrite" s /\ brelse me b s = Panic "brelse" s.
Proof.
  intros Hb.
  destruct (holding me x) eqn:Hh.
  - split.
    + unfold bwrite. mrun. rewrite Hh. cbn [negb]. mrun. eauto.
    + unfold brelse. mrun. rewrite Hh. cbn [negb]. mrun.
      match goal with |- context [if ?c then _ else _] => destruct c end;
        mrun; eauto.
  - split.
    + unfold bwrite. mrun. rewrite Hh. reflexivity.
    + unfold brelse. mrun. rewrite Hh. reflexivity.
Qed.

Lemma content_lock_enforced_held :
  bcache_buf pool_locked !! 0%nat = Some (Buf 1 1 0 (Sleeplock 1 7) 1 3 None) /\
  (exists s', bwrite 7 0 pool_locked = Ret tt s') /\
  (exists s', brelse 7 0 pool_locked = Ret tt s').
Proof.
  split; [reflexivity |].
  exact (content_lock_enforced 7 0 pool_locked _ eq_refl).
Defined.

(** ** Stamping the time of the last release *)

(** [bunpin] takes the count of the only slot of [pool_pinned] from 1 to 0
    and leaves the stamp at 3 although the clock shows 9. *)
Lemma bunpin_keeps_stale_stamp :
  bcache_buf pool_pinned = [Buf 1 1 0 (Sleeplock 0 0) 1 3 None] /\
  bunpin 0 pool_pinned =
    Ret tt (State [Buf 1 1 0 (Sleeplock 0 0) 0 3 None] (map_head pool_pinned)
              (ticks pool_pinned)
              [EvAcquire (map_lock 0); EvRelease (map_lock 0)]) /\
  ticks pool_pinned <> 3.
Proof. split; [reflexivity |]. split; [reflexivity |]. discriminate. Qed.

(** C2, as the code has it: when [brelse] takes the count from 1 to 0 it
    stores the current [ticks] in [timestamp]; [bunpin] making the same
    transition writes [refcnt] only. *)
Theorem stamp_on_release_only (me : Z) (b : nat) (s : state) (x : buf) :
  bcache_buf s !! b = Some x ->
  refcnt x = 1 ->
  (holding me x = true ->
   exists s', brelse me b s = Ret tt s' /\
     bcache_buf s' = <[b := set_timestamp (ticks s) (set_refcnt 0 (set_lock (Sleeplock 0 0) x))]> (bcache_buf s)) /\
  (exists s', bunpin b s = Ret tt s' /\
     bcache_buf s' = <[b := set_refcnt 0 x]> (bcache_buf s)).
Proof.
  intros Hb Hr. split.
  - intros Hh. unfold brelse. mrun. rewrite Hh. cbn [negb]. mrun.
    cbn [refcnt set_refcnt set_lock]. rewrite Hr.
    change (uint (1 - 1)) with 0. cbn [Z.eqb]. mrun.
    eexists. split; [reflexivity |].
    cbn [bcache_buf with_bufs with_event].
    rewrite !list_insert_insert_eq. reflexivity.
  - unfold bunpin. mrun. rewrite Hr. eexists. split; reflexivity.
Qed.

Lemma stamp_on_release_only_witness :
  exists s', brelse 7 0 pool_locked = Ret tt s' /\
    bcache_buf s' = [Buf 1 1 0 (Sleeplock 0 0) 0 9 None].
Proof.
  exact (proj1 (stamp_on_release_only 7 0 pool_locked _ eq_refl eq_refl) eq_refl).
Defined.

(** ** Candidates are unreferenced *)

Lemma scan_lru_evictable (fuel : nat) (bufs : list buf) (min : Z)
    (empty p : option nat) (e : nat) :
  scan_lru fuel bufs min empty p = Exit (Some e) ->
  empty = Some e \/ evictable bufs e.
Proof.
  revert min empty p.
  induction fuel as [| fuel IH]; intros min empty p; cbn [scan_lru];
    [discriminate |].
  destruct p as [k |]; [| intros [= ->]; by left].
  destruct (bufs !! k) as [x |] eqn:Hk; [| discriminate].
  destruct (refcnt x =? 0) eqn:Hr; cbn [andb].
  - destruct (timestamp x <? min); intros H; apply IH in H; [| exact H].
    destruct H as [[= <-] | H]; [| by right].
    right. exists x. split; [exact Hk | by apply Z.eqb_eq].
  - apply IH.
Qed.

Lemma first_free_evictable (fuel : nat) (bufs : list buf) (p : option nat)
    (e : nat) :
  first_free fuel bufs p = Exit (Some e) -> evictable bufs e.
Proof.
  revert p.
  induction fuel as [| fuel IH]; intros p; cbn [first_free]; [discriminate |].
  destruct p as [k |]; [| discriminate].
  destruct (bufs !! k) as [x |] eqn:Hk; [| discriminate].
  destruct (refcnt x =? 0) eqn:Hr.
  - intros [= <-]. exists x. split; [exact Hk | by apply Z.eqb_eq].
  - apply IH.
Qed.

(** ** bunpin below zero *)

(** After the wrap-around a [bpin] brings the count back to 0, and the
    next miss in the bucket recycles the slot. *)
Lemma unpin_wrap_undone_by_pin :
  bcache_buf pool_free = [Buf 1 1 0 (Sleeplock 0 0) 0 3 None] /\
  bunpin 0 pool_free =
    Ret tt (State [Buf 1 1 0 (Sleeplock 0 0) UINT_MAX 3 None]
              (map_head pool_free) 9
              [EvAcquire (map_lock 0); EvRelease (map_lock 0)]) /\
  (bunpin 0 ;; bpin 0 ;; bget 1 1 13) pool_free =
    Ret 0%nat (State [Buf 0 1 13 (Sleeplock 1 1) 1 3 None]
                 (map_head pool_free) 9
                 [EvAcquire (map_lock 0); EvRelease (map_lock 0);
                  EvAcquire (map_lock 0); EvRelease (map_lock 0);
                  EvAcquire (map_lock 0); EvRelease (map_lock 0);
                  EvAcquireSleep 0]).
Proof. split; [reflexivity |]. split; vm_compute; reflexivity. Qed.

(** C10, as the code has it: [bunpin] decrements without a test, so a
    count of 0 becomes 2^32 - 1; with that count neither scan of [bget]
    picks the slot. *)
Theorem bunpin_wraps (b : nat) (s : state) (x : buf) :
  bcache_buf s !! b = Some x ->
  exists s',
    bunpin b s = Ret tt s' /\
    bcache_buf s' = <[b := set_refcnt (uint (refcnt x - 1)) x]> (bcache_buf s) /\
    (refcnt x = 0 ->
       bcache_buf s' !! b = Some (set_refcnt UINT_MAX x) /\
       (forall fuel min empty p, empty <> Some b ->
          scan_lru fuel (bcache_buf s') min empty p <> Exit (Some b)) /\
       (forall fuel p, first_free fuel (bcache_buf s') p <> Exit (Some b))).
Proof.
  intros Hb. unfold bunpin. mrun. eexists. split; [reflexivity |].
  cbn [bcache_buf with_bufs with_event]. split; [reflexivity |].
  intros Hr. rewrite Hr. change (uint (0 - 1)) with UINT_MAX.
  assert (Hb' : <[b := set_refcnt UINT_MAX x]> (bcache_buf s) !! b
                = Some (set_refcnt UINT_MAX x)) by (eapply lookup_store; eauto).
  split; [exact Hb' |]. split.
  - intros fuel min empty p Hne H.
    apply scan_lru_evictable in H. destruct H as [H | (y & Hy & Hy0)]; [done |].
    rewrite Hb' in Hy. injection Hy as <-. discriminate Hy0.
  - intros fuel p H.
    apply first_free_evictable in H. destruct H as (y & Hy & Hy0).
    rewrite Hb' in Hy. injection Hy as <-. discriminate Hy0.
Qed.

Lemma bunpin_wraps_witness :
  exists s',
    bunpin 0 pool_free = Ret tt s' /\
    bcache_buf s' = [Buf 1 1 0 (Sleeplock 0 0) UINT_MAX 3 None].
Proof.
  destruct (bunpin_wraps 0 pool_free _ eq_refl) as (s' & H1 & H2 & _).
  exists s'. split; [exact H1 | exact H2].
Defined.

(** ** Running bget *)

Ltac norm :=
  unfold searching, entered, with_event, with_bufs, with_heads;
  cbn [bcache_buf map_head ticks trace].

Lemma bind_lift {A B} (w : state -> walk A) (k : A -> M B) (s : state) :
  bind (fun s => lift (w s) s) k s =
    match w s with
    | Exit a => k a s
    | Wild => Fault
    | Endless => Spin
    end.
Proof. unfold bind, lift. destruct (w s); reflexivity. Qed.

Lemma find_cached_some (fuel : nat) (bufs : list buf) (d bn : Z)
    (p : option nat) (b : nat) :
  find_cached fuel bufs d bn p = Exit (Some b) ->
  exists x, bufs !! b = Some x /\ dev x = d /\ blockno x = bn.
Proof.
  revert p.
  induction fuel as [| fuel IH]; intros p; cbn [find_cached]; [discriminate |].
  destruct p as [k |]; [| discriminate].
  destruct (bufs !! k) as [x |] eqn:Hk; [| discriminate].
  destruct ((dev x =? d) && (blockno x =? bn)) eqn:Hm.
  - intros [= <-]. apply andb_true_iff in Hm as [Hd Hb].
    exists x. repeat split; [exact Hk | by apply Z.eqb_eq | by apply Z.eqb_eq].
  - apply IH.
Qed.

Lemma evict_ret (me d bn : Z) (h e : nat) (s : state) (x : buf) :
  bcache_buf s !! e = Some x ->
  evict me d bn h e s =
    Ret e (State (<[e := claimed me d bn x]> (bcache_buf s)) (map_head s)
             (ticks s) (trace s ++ [EvRelease (map_lock h); EvAcquireSleep e])).
Proof.
  intros He. unfold evict. mrun. unfold ret.
  norm.
  rewrite !list_insert_insert_eq, <- app_assoc. reflexivity.
Qed.

Lemma evict_none (me d bn : Z) (h e : nat) (s : state) :
  bcache_buf s !! e = None -> evict me d bn h e s = Fault.
Proof. intros He. unfold evict, bind, store. rewrite He. reflexivity. Qed.

Lemma bget_hit (me d bn : Z) (s : state) (hd : option nat) (b : nat) (x : buf) :
  map_head s !! Z.to_nat (HASH bn) = Some hd ->
  find_cached (steps (bcache_buf s)) (bcache_buf s) d bn hd = Exit (Some b) ->
  bcache_buf s !! b = Some x ->
  bget me d bn s =
    Ret b (State
             (<[b := set_lock (Sleeplock 1 me) (set_refcnt (uint (refcnt x + 1)) x)]>
                (bcache_buf s))
             (map_head s) (ticks s)
             (trace s ++ [EvAcquire (map_lock (Z.to_nat (HASH bn)));
                          EvRelease (map_lock (Z.to_nat (HASH bn)));
                          EvAcquireSleep b])).
Proof.
  intros Hh Hf Hb. unfold bget. cbv zeta. mrun.
  unfold lookup. rewrite bind_lift.
  norm.
  rewrite Hf. mrun. unfold ret.
  norm.
  rewrite !list_insert_insert_eq, <- !app_assoc. reflexivity.
Qed.

Lemma bget_local (me d bn : Z) (s : state) (hd : option nat) (e : nat) (x : buf) :
  map_head s !! Z.to_nat (HASH bn) = Some hd ->
  find_cached (steps (bcache_buf s)) (bcache_buf s) d bn hd = Exit None ->
  scan_lru (steps (bcache_buf s)) (bcache_buf s) UINT_MAX None hd = Exit (Some e) ->
  bcache_buf s !! e = Some x ->
  bget me d bn s =
    Ret e (State (<[e := claimed me d bn x]> (bcache_buf s))
             (map_head s) (ticks s)
             (trace s ++ [EvAcquire (map_lock (Z.to_nat (HASH bn)));
                          EvRelease (map_lock (Z.to_nat (HASH bn)));
                          EvAcquireSleep e])).
Proof.
  intros Hh Hf Hl He. unfold bget. cbv zeta. mrun.
  unfold lookup, scan_local. rewrite bind_lift.
  norm.
  rewrite Hf. rewrite bind_lift.
  norm.
  rewrite Hl. erewrite evict_ret by mem.
  norm.
  rewrite <- !app_assoc. reflexivity.
Qed.

Lemma bget_miss (me d bn : Z) (s : state) (hd : option nat) :
  map_head s !! Z.to_nat (HASH bn) = Some hd ->
  find_cached (steps (bcache_buf s)) (bcache_buf s) d bn hd = Exit None ->
  scan_lru (steps (bcache_buf s)) (bcache_buf s) UINT_MAX None hd = Exit None ->
  bget me d bn s =
    (found <- steal_scan (Z.to_nat NBUCKET) (Z.to_nat (HASH bn)) 0%nat ;;
     let '(i, empty) := found in
     steal i (Z.to_nat (HASH bn)) empty ;;
     release (map_lock i) ;;
     release bcache_lock ;;
     evict me d bn (Z.to_nat (HASH bn)) empty)
      (searching (Z.to_nat (HASH bn)) s).
Proof.
  intros Hh Hf Hl. unfold bget. cbv zeta. mrun.
  unfold lookup, scan_local. rewrite bind_lift.
  norm.
  rewrite Hf. rewrite bind_lift.
  norm.
  rewrite Hl. mrun. reflexivity.
Qed.

(** ** The search through the other buckets *)

Lemma steal_scan_spec (n h i : nat) (s : state) :
  match steal_scan n h i s with
  | Ret (j, e) s' =>
      exists ks hd,
        s' = State (bcache_buf s) (map_head s) (ticks s)
               (trace s ++ handoffs ks ++ [EvAcquire (map_lock j)]) /\
        j <> h /\ (i <= j < i + n)%nat /\
        map_head s !! j = Some hd /\
        first_free (steps (bcache_buf s)) (bcache_buf s) hd = Exit (Some e)
  | Panic msg s' =>
      exists ks,
        msg = "bget: no buffers"%string /\
        s' = State (bcache_buf s) (map_head s) (ticks s)
               (trace s ++ handoffs ks) /\
        forall k, (i <= k < i + n)%nat -> k <> h ->
          exists hd, map_head s !! k = Some hd /\
            first_free (steps (bcache_buf s)) (bcache_buf s) hd = Exit None
  | Fault | Spin => True
  end.
Proof.
  revert i s. induction n as [| n IH]; intros i s; cbn [steal_scan].
  - unfold panic. exists []. split; [reflexivity |]. split.
    + destruct s. cbn. by rewrite app_nil_r.
    + intros k Hk. lia.
  - destruct (decide (i = h)) as [-> | Hne].
    + specialize (IH (S h) s).
      destruct (steal_scan n h (S h) s) as [[j e] s' | msg s' | |]; [| | done | done].
      * destruct IH as (ks & hd & -> & ? & ? & ? & ?).
        exists ks, hd. split_and!; try done; lia.
      * destruct IH as (ks & -> & -> & Hall).
        exists ks. split_and!; try done.
        intros k Hk Hkh. apply Hall; [lia | done].
    + mrun. destruct (map_head s !! i) as [hd |] eqn:Hhd.
      2:{ unfold bind, load_head. norm. by rewrite Hhd. }
      mrun. unfold scan_free. rewrite bind_lift. norm.
      destruct (first_free _ _ hd) as [[e |] | |] eqn:Hff; [| | done | done].
      * unfold ret. exists [], hd.
        split_and!; try done; lia.
      * mrun.
        match goal with |- context [steal_scan n h (S i) ?s1] =>
          specialize (IH (S i) s1); destruct (steal_scan n h (S i) s1)
            as [[j e] s' | msg s' | |] end; [| | done | done]; revert IH; norm.
        -- intros (ks & hd' & -> & ? & ? & ? & ?).
           exists (i :: ks), hd'. split_and!; try done; try lia.
           cbn [handoffs flat_map]. by rewrite <- !app_assoc.
        -- intros (ks & -> & -> & Hall).
           exists (i :: ks). split_and!; try done.
           ++ cbn [handoffs flat_map]. by rewrite <- !app_assoc.
           ++ intros k Hk Hkh. destruct (decide (k = i)) as [-> | Hki].
              ** eauto.
              ** apply Hall; [lia | done].
Qed.
(** ** Unlinking touches [next] fields only *)

Lemma same_fields_refl (bufs : list buf) : same_fields bufs bufs.
Proof. intros k. reflexivity. Qed.

Lemma same_fields_trans (b1 b2 b3 : list buf) :
  same_fields b1 b2 -> same_fields b2 b3 -> same_fields b1 b3.
Proof. intros H12 H23 k. rewrite H23. apply H12. Qed.

Lemma same_fields_set_next (bufs : list buf) (k : nat) (x : buf)
    (p : option nat) :
  bufs !! k = Some x -> same_fields bufs (<[k := set_next p x]> bufs).
Proof.
  intros Hk j. destruct (decide (k = j)) as [<- | Hne].
  - rewrite (lookup_store _ _ _ _ Hk), Hk. reflexivity.
  - by rewrite list_lookup_insert_ne.
Qed.

Lemma same_fields_lookup (bufs bufs' : list buf) (k : nat) (x : buf) :
  same_fields bufs bufs' -> bufs !! k = Some x ->
  exists x', bufs' !! k = Some x' /\ set_next None x' = set_next None x.
Proof.
  intros H Hk. specialize (H k). rewrite Hk in H.
  destruct (bufs' !! k) as [x' |]; [| discriminate H].
  exists x'. split; [reflexivity |]. cbn in H. congruence.
Qed.

Lemma steal_frame (i h e : nat) (s : state) :
  match steal i h e s with
  | Ret _ s' =>
      trace s' = trace s /\ ticks s' = ticks s /\
      same_fields (bcache_buf s) (bcache_buf s')
  | Panic _ _ => False
  | Fault | Spin => True
  end.
Proof.
  unfold steal, predecessor. rewrite bind_lift.
  destruct (steal_prev _ _ _ e (at_head i)) as [c | |]; [| done | done].
  destruct (bcache_buf s !! e) as [xe |] eqn:He.
  2:{ unfold bind, load. by rewrite He. }
  mrun.
  assert (Hstep : match store_cursor_next c (next xe) s with
                  | Ret _ s1 => trace s1 = trace s /\ ticks s1 = ticks s /\
                      same_fields (bcache_buf s) (bcache_buf s1)
                  | Panic _ _ => False
                  | Fault | Spin => True
                  end).
  { destruct c as [i' | q]; cbn [store_cursor_next].
    - unfold store_head. destruct (map_head s !! i'); [| done]. norm.
      split_and!; try done.
    - unfold store. destruct (bcache_buf s !! q) as [xq |] eqn:Hq; [| done]. norm.
      split_and!; try done. by apply same_fields_set_next. }
  unfold bind at 1.
  destruct (store_cursor_next c (next xe) s) as [[] s1 | | |]; [| done | done | done].
  destruct Hstep as (Ht & Hk & Hf).
  destruct (map_head s1 !! h) as [hd |] eqn:Hh.
  2:{ unfold bind, load_head. by rewrite Hh. }
  mrun.
  destruct (same_fields_lookup _ _ _ _ Hf He) as (xe' & He' & _).
  mrun. unfold store_head. norm. rewrite Hh.
  split_and!; try done.
  eapply same_fields_trans; [exact Hf |]. by apply same_fields_set_next.
Qed.

(** ** Every way out of bget *)

Lemma scan_lru_some (fuel : nat) (bufs : list buf) (min : Z)
    (p : option nat) (e : nat) :
  scan_lru fuel bufs min None p = Exit (Some e) -> evictable bufs e.
Proof. intros H. apply scan_lru_evictable in H as [H | H]; [done | exact H]. Qed.

Lemma bget_inv (me d bn : Z) (s : state) :
  match bget me d bn s with
  | Ret b s' => bget_path me d bn s b s'
  | Panic msg s' =>
      exists ks,
        msg = "bget: no buffers"%string /\
        s' = exhausted_state (Z.to_nat (HASH bn)) ks s /\
        forall k, (k < Z.to_nat NBUCKET)%nat -> k <> Z.to_nat (HASH bn) ->
          exists hd, map_head s !! k = Some hd /\
            first_free (steps (bcache_buf s)) (bcache_buf s) hd = Exit None
  | Fault | Spin => True
  end.
Proof.
  set (h := Z.to_nat (HASH bn)).
  destruct (map_head s !! h) as [hd |] eqn:Hh.
  2:{ unfold bget, bind, acquire, emit, load_head. norm. fold h. by rewrite Hh. }
  destruct (find_cached (steps (bcache_buf s)) (bcache_buf s) d bn hd)
    as [[b |] | |] eqn:Hf.
  - destruct (find_cached_some _ _ _ _ _ _ Hf) as (x & Hb & _).
    rewrite (bget_hit me d bn s hd b x Hh Hf Hb).
    by eapply path_hit.
  - destruct (scan_lru (steps (bcache_buf s)) (bcache_buf s) UINT_MAX None hd)
      as [[e |] | |] eqn:Hl.
    + destruct (scan_lru_some _ _ _ _ _ Hl) as (x & He & _).
      rewrite (bget_local me d bn s hd e x Hh Hf Hl He).
      by eapply path_local.
    + rewrite (bget_miss me d bn s hd Hh Hf Hl). fold h.
      unfold bind at 1.
      pose proof (steal_scan_spec (Z.to_nat NBUCKET) h 0 (searching h s)) as Hscan.
      destruct (steal_scan (Z.to_nat NBUCKET) h 0 (searching h s))
        as [[j e] sf | msg sf | |]; [| | done | done].
      * revert Hscan. norm.
        intros (ks & hdj & -> & Hjh & Hj & Hhdj & Hff).
        rewrite <- !app_assoc. cbn [app].
        change (State (bcache_buf s) (map_head s) (ticks s) _)
          with (found_state h j ks s).
        pose proof (steal_frame j h e (found_state h j ks s)) as Hst.
        unfold bind at 1.
        destruct (steal j h e (found_state h j ks s)) as [[] sm | | |] eqn:Hsteal;
          [| done | done | done].
        destruct Hst as (_ & _ & Hsf).
        destruct (first_free_evictable _ _ _ _ Hff) as (x0 & He0 & _).
        destruct (same_fields_lookup _ _ _ _ Hsf He0) as (x & He & _).
        mrun. rewrite (evict_ret _ _ _ _ _ _ x) by (norm; exact He).
        norm. rewrite <- ?app_assoc. cbn [app].
        eapply (path_stolen _ _ _ _ _ _ hd hdj j ks sm x); try done. lia.
      * revert Hscan. norm. intros (ks & -> & -> & Hall).
        exists ks. split_and!; try done.
        -- unfold exhausted_state. by rewrite <- !app_assoc.
        -- intros k Hk Hkh. apply Hall; [lia | done].
    + unfold bget, lookup, scan_local. cbv zeta. mrun. fold h.
      rewrite bind_lift. norm. rewrite Hf. rewrite bind_lift. norm. by rewrite Hl.
    + unfold bget, lookup, scan_local. cbv zeta. mrun. fold h.
      rewrite bind_lift. norm. rewrite Hf. rewrite bind_lift. norm. by rewrite Hl.
  - unfold bget, lookup. cbv zeta. mrun. fold h.
    rewrite bind_lift. norm. by rewrite Hf.
  - unfold bget, lookup. cbv zeta. mrun. fold h.
    rewrite bind_lift. norm. by rewrite Hf.
Qed.

(** ** A failed admission *)

(** C8: when [bget] panics for want of a free slot, the pool and the
    bucket heads (identities, counts, valid flags, list links) are as
    they were before the call. *)
Theorem failed_admission_changes_nothing (me d bn : Z) (s s' : state)
    (msg : string) :
  bget me d bn s = Panic msg s' ->
  msg = "bget: no buffers"%string /\
  bcache_buf s' = bcache_buf s /\ map_head s' = map_head s.
Proof.
  intros H. pose proof (bget_inv me d bn s) as Hinv. rewrite H in Hinv.
  destruct Hinv as (ks & -> & -> & _). done.
Qed.

Lemma failed_admission_changes_nothing_witness :
  exists s',
    bget 1 1 13 pool_pinned = Panic "bget: no buffers" s' /\
    bcache_buf s' = bcache_buf pool_pinned /\
    map_head s' = map_head pool_pinned.
Proof.
  assert (H : bget 1 1 13 pool_pinned =
              Panic "bget: no buffers"
                (exhausted_state 0 (seq 1 12) pool_pinned))
    by (vm_compute; reflexivity).
  eexists. split; [exact H |].
  exact (proj2 (failed_admission_changes_nothing 1 1 13 pool_pinned _ _ H)).
Defined.

(** ** Relating the state before and after *)

Section Respects.
Context (R : state -> state -> Prop).
Hypothesis R_refl : forall s, R s s.
Hypothesis R_trans : forall s1 s2 s3, R s1 s2 -> R s2 s3 -> R s1 s3.

Lemma respects_ret {A} (a : A) : respects R (ret a).
Proof. intros s. apply R_refl. Qed.

Lemma respects_panic {A} (msg : string) : respects R (@panic A msg).
Proof. intros s. apply R_refl. Qed.

Lemma respects_bind {A B} (m : M A) (k : A -> M B) :
  respects R m -> (forall a, respects R (k a)) -> respects R (bind m k).
Proof.
  intros Hm Hk s. unfold bind. specialize (Hm s).
  destruct (m s) as [a s1 | msg s1 | |]; [| done | done | done].
  specialize (Hk a s1).
  destruct (k a s1) as [b s2 | msg s2 | |]; [| | done | done];
    by eapply R_trans.
Qed.

Lemma respects_load (b : nat) : respects R (load b).
Proof. intros s. unfold load. destruct (bcache_buf s !! b); [apply R_refl | done]. Qed.

Lemma respects_load_head (i : nat) : respects R (load_head i).
Proof. intros s. unfold load_head. destruct (map_head s !! i); [apply R_refl | done]. Qed.

Lemma respects_read_ticks : respects R read_ticks.
Proof. intros s. apply R_refl. Qed.
End Respects.

Lemma ident_kept_refl (s : state) : ident_kept s s.
Proof. intros k x Hk. eauto. Qed.

Lemma ident_kept_trans (s1 s2 s3 : state) :
  ident_kept s1 s2 -> ident_kept s2 s3 -> ident_kept s1 s3.
Proof.
  intros H12 H23 k x Hk.
  destruct (H12 k x Hk) as (x2 & Hk2 & Hd2 & Hb2).
  destruct (H23 k x2 Hk2) as (x3 & Hk3 & Hd3 & Hb3).
  exists x3. split_and!; [done | congruence | congruence].
Qed.

Lemma same_ident_insert (bufs : list buf) (b : nat) (x y : buf) :
  bufs !! b = Some x -> dev y = dev x -> blockno y = blockno x ->
  same_ident bufs (<[b := y]> bufs).
Proof.
  intros Hb Hd Hn k z Hk. destruct (decide (b = k)) as [<- | Hne].
  - assert (z = x) as -> by congruence.
    exists y. by rewrite (lookup_store _ _ _ _ Hb).
  - exists z. by rewrite list_lookup_insert_ne.
Qed.

Lemma ident_kept_emit (e : event) : respects ident_kept (emit e).
Proof. intros s k x Hk. cbn. eauto. Qed.

Lemma ident_kept_store (b : nat) (f : buf -> buf) :
  (forall x, dev (f x) = dev x /\ blockno (f x) = blockno x) ->
  respects ident_kept (store b f).
Proof.
  intros Hf s. unfold store. destruct (bcache_buf s !! b) as [x |] eqn:Hb; [| done].
  destruct (Hf x). by apply (same_ident_insert _ _ x).
Qed.

Ltac ident :=
  repeat first
    [ apply respects_bind; [exact ident_kept_trans | | intros ?]
    | apply ident_kept_store; intros []; by split
    | apply ident_kept_emit
    | apply respects_ret; exact ident_kept_refl
    | apply respects_panic; exact ident_kept_refl
    | apply respects_load; exact ident_kept_refl
    | apply respects_load_head; exact ident_kept_refl
    | apply respects_read_ticks; exact ident_kept_refl
    | match goal with |- respects _ (if ?c then _ else _) => destruct c end
    | match goal with |- respects _ (let _ := _ in _) => cbv zeta end ].

Lemma ident_kept_brelse (me : Z) (b : nat) : respects ident_kept (brelse me b).
Proof.
  unfold brelse, holdingsleep, releasesleep, acquire, release. ident.
Qed.

Lemma ident_kept_bwrite (me : Z) (b : nat) : respects ident_kept (bwrite me b).
Proof.
  unfold bwrite, holdingsleep, virtio_disk_rw. ident.
Qed.

Lemma ident_kept_bpin (b : nat) : respects ident_kept (bpin b).
Proof. unfold bpin, acquire, release. ident. Qed.

Lemma ident_kept_bunpin (b : nat) : respects ident_kept (bunpin b).
Proof. unfold bunpin, acquire, release. ident. Qed.

(** ** Slots in use keep their block *)

Lemma ident_kept_held (s s' : state) : ident_kept s s' -> held_ident_kept s s'.
Proof. intros H k x Hk _. by apply H. Qed.

Lemma held_then_kept (s1 s2 s3 : state) :
  held_ident_kept s1 s2 -> ident_kept s2 s3 -> held_ident_kept s1 s3.
Proof.
  intros H12 H23 k x Hk Hr.
  destruct (H12 k x Hk Hr) as (x2 & Hk2 & Hd2 & Hb2).
  destruct (H23 k x2 Hk2) as (x3 & Hk3 & Hd3 & Hb3).
  exists x3. split_and!; [done | congruence | congruence].
Qed.

Lemma same_fields_ident (bufs bufs' : list buf) :
  same_fields bufs bufs' -> same_ident bufs bufs'.
Proof.
  intros H k x Hk. destruct (same_fields_lookup _ _ _ _ H Hk) as (x' & Hk' & Hx).
  exists x'. split; [done |].
  split; [exact (f_equal dev Hx) | exact (f_equal blockno Hx)].
Qed.

Lemma claim_held_ident (bufs : list buf) (e : nat) (y : buf) :
  evictable bufs e ->
  forall k x, bufs !! k = Some x -> refcnt x <> 0 ->
    <[e := y]> bufs !! k = Some x.
Proof.
  intros (xe & He & Hr) k x Hk Hx.
  destruct (decide (e = k)) as [-> | Hne]; [congruence |].
  by rewrite list_lookup_insert_ne.
Qed.

Lemma bget_held_ident (me d bn : Z) : respects held_ident_kept (bget me d bn).
Proof.
  intros s. pose proof (bget_inv me d bn s) as Hinv.
  destruct (bget me d bn s) as [b s' | msg s' | |]; [| | done | done].
  - destruct Hinv as [hd x Hh Hf Hb -> | hd x Hh Hf Hl Hb -> |
                      hd hdj j ks sm x Hh Hf Hl Hj Hj13 Hhdj Hff Hst Hb ->].
    + apply ident_kept_held. unfold ident_kept, hit_state. norm.
      eapply same_ident_insert; [exact Hb | done | done].
    + intros k y Hk Hy. unfold local_state. norm.
      exists y. split; [| done].
      eapply claim_held_ident; [| exact Hk | exact Hy].
      eapply scan_lru_some; exact Hl.
    + intros k y Hk Hy. unfold stolen_state. norm.
      pose proof (steal_frame j (Z.to_nat (HASH bn)) b
                    (found_state (Z.to_nat (HASH bn)) j ks s)) as Hfr.
      rewrite Hst in Hfr. destruct Hfr as (_ & _ & Hsf).
      destruct (same_fields_lookup _ _ _ _ Hsf Hk) as (y' & Hk' & Hy').
      exists y'. split.
      * destruct (first_free_evictable _ _ _ _ Hff) as (xe & He & Hr).
        destruct (decide (b = k)) as [-> | Hne]; [congruence |].
        by rewrite list_lookup_insert_ne.
      * split; [exact (f_equal dev Hy') | exact (f_equal blockno Hy')].
  - destruct Hinv as (ks & -> & -> & _). unfold exhausted_state.
    intros k y Hk Hy. norm. eauto.
Qed.

Lemma ident_kept_bread_tail (b : nat) :
  respects ident_kept
    (x <- load b ;;
     if valid x =? 0 then
       virtio_disk_rw b false ;; store b (set_valid 1) ;; ret b
     else ret b).
Proof. unfold virtio_disk_rw. ident. Qed.

Lemma held_respects_bind {A B} (m : M A) (k : A -> M B) :
  respects held_ident_kept m -> (forall a, respects ident_kept (k a)) ->
  respects held_ident_kept (bind m k).
Proof.
  intros Hm Hk s. unfold bind. specialize (Hm s).
  destruct (m s) as [a s1 | msg s1 | |]; [| done | done | done].
  specialize (Hk a s1).
  destruct (k a s1) as [b s2 | msg s2 | |]; [| | done | done];
    by eapply held_then_kept.
Qed.

Lemma respects_held {A} (m : M A) :
  respects ident_kept m -> respects held_ident_kept m.
Proof.
  intros Hm s. specialize (Hm s).
  destruct (m s); try done; by apply ident_kept_held.
Qed.

Lemma run_held_ident (c : call) : respects held_ident_kept (run c).
Proof.
  destruct c as [me d bn | me d bn | me b | me b | b | b]; cbn [run].
  - apply held_respects_bind; [apply bget_held_ident |].
    intros _. apply respects_ret, ident_kept_refl.
  - apply held_respects_bind.
    + unfold bread. apply held_respects_bind; [apply bget_held_ident |].
      intros b. apply ident_kept_bread_tail.
    + intros _. apply respects_ret, ident_kept_refl.
  - apply respects_held, ident_kept_bwrite.
  - apply respects_held, ident_kept_brelse.
  - apply respects_held, ident_kept_bpin.
  - apply respects_held, ident_kept_bunpin.
Qed.

(** C7: a slot with [refcnt > 0] is not what the scan of the bucket
    returns, is not what the search of the other buckets returns, and
    after any call it still carries the same [dev] and [blockno]. *)
Theorem eviction_safety (c : call) (s s' : state) (k : nat) (x : buf) :
  bcache_buf s !! k = Some x ->
  0 < refcnt x ->
  (forall hd s1, scan_local hd s <> Ret (Some k) s1) /\
  (forall n h i j s1, steal_scan n h i s <> Ret (j, k) s1) /\
  (final (run c s) = Some s' ->
   exists x', bcache_buf s' !! k = Some x' /\
     dev x' = dev x /\ blockno x' = blockno x).
Proof.
  intros Hk Hx.
  assert (Hne : ~ evictable (bcache_buf s) k).
  { intros (y & Hy & Hy0). rewrite Hk in Hy. injection Hy as <-. lia. }
  split_and!.
  - intros hd s1 H. apply Hne. unfold scan_local, lift in H.
    destruct (scan_lru _ _ UINT_MAX None hd) as [r | |] eqn:Hl;
      [| discriminate | discriminate].
    injection H as -> _. by eapply scan_lru_some.
  - intros n h i j s1 H. apply Hne.
    pose proof (steal_scan_spec n h i s) as Hs. rewrite H in Hs.
    destruct Hs as (ks & hd & _ & _ & _ & _ & Hff).
    by eapply first_free_evictable.
  - intros Hfin. pose proof (run_held_ident c s) as Hr.
    destruct (run c s) as [a s2 | msg s2 | |]; cbn [final] in Hfin;
      try discriminate; injection Hfin as ->; apply (Hr k x Hk); lia.
Qed.

Lemma eviction_safety_witness :
  exists x',
    [Buf 1 1 0 (Sleeplock 0 0) 2 3 None] !! 0%nat = Some x' /\
    dev x' = 1 /\ blockno x' = 0.
Proof.
  assert (H : final (run (Bpin 0) pool_pinned) =
              Some (State [Buf 1 1 0 (Sleeplock 0 0) 2 3 None]
                      (map_head pool_pinned) 9
                      [EvAcquire (map_lock 0); EvRelease (map_lock 0)]))
    by (vm_compute; reflexivity).
  assert (Hk : bcache_buf pool_pinned !! 0%nat
               = Some (Buf 1 1 0 (Sleeplock 0 0) 1 3 None))
    by (vm_compute; reflexivity).
  assert (Hr : 0 < refcnt (Buf 1 1 0 (Sleeplock 0 0) 1 3 None))
    by (vm_compute; reflexivity).
  exact (proj2 (proj2 (eviction_safety (Bpin 0) pool_pinned _ 0%nat _ Hk Hr)) H).
Defined.

(** ** Sleeping and disk I/O happen outside the bucket locks *)

Lemma drop_lock_head (l : spinlock) (held : list spinlock) :
  drop_lock l (l :: held) = held.
Proof. cbn [drop_lock]. by rewrite decide_True. Qed.

Lemma calm_app (held : list spinlock) (e1 e2 : list event) :
  calm held (e1 ++ e2) = calm held e1 && calm (held_after held e1) e2.
Proof.
  revert held. induction e1 as [| e e1 IH]; intros held; [reflexivity |].
  destruct e; cbn [app calm held_after]; rewrite IH; try reflexivity;
    by rewrite andb_assoc.
Qed.

Lemma held_after_app (held : list spinlock) (e1 e2 : list event) :
  held_after held (e1 ++ e2) = held_after (held_after held e1) e2.
Proof.
  revert held. induction e1 as [| e e1 IH]; intros held; [reflexivity |].
  destruct e; cbn [app held_after]; by rewrite IH.
Qed.

Lemma calm_handoffs (held : list spinlock) (ks : list nat) :
  calm held (handoffs ks) = true /\ held_after held (handoffs ks) = held.
Proof.
  induction ks as [| k ks [IH1 IH2]]; [done |].
  cbn [handoffs flat_map app calm held_after].
  rewrite drop_lock_head. by split.
Qed.

Lemma calm_quiet (held : list spinlock) (evs : list event) :
  forallb quiet_event evs = true -> calm held evs = true.
Proof.
  revert held. induction evs as [| e evs IH]; intros held; [done |].
  cbn [forallb]. intros [He Hevs]%andb_true_iff.
  destruct e; cbn [calm]; try discriminate He; by apply IH.
Qed.

Lemma quiet_step_refl (s : state) : quiet_step s s.
Proof. exists []. by rewrite app_nil_r. Qed.

Lemma quiet_step_trans (s1 s2 s3 : state) :
  quiet_step s1 s2 -> quiet_step s2 s3 -> quiet_step s1 s3.
Proof.
  intros (e1 & H1 & Q1) (e2 & H2 & Q2). exists (e1 ++ e2). split.
  - by rewrite H2, H1, app_assoc.
  - rewrite forallb_app. by rewrite Q1, Q2.
Qed.

Lemma quiet_step_emit (e : event) :
  quiet_event e = true -> respects quiet_step (emit e).
Proof. intros He s. exists [e]. split; [done |]. cbn. by rewrite He. Qed.

Lemma quiet_step_store (b : nat) (f : buf -> buf) :
  respects quiet_step (store b f).
Proof.
  intros s. unfold store. destruct (bcache_buf s !! b); [| done].
  exists []. norm. by rewrite app_nil_r.
Qed.

Ltac quiet :=
  repeat first
    [ apply respects_bind; [exact quiet_step_trans | | intros ?]
    | apply quiet_step_store
    | apply quiet_step_emit; reflexivity
    | apply respects_ret; exact quiet_step_refl
    | apply respects_panic; exact quiet_step_refl
    | apply respects_load; exact quiet_step_refl
    | apply respects_load_head; exact quiet_step_refl
    | apply respects_read_ticks; exact quiet_step_refl
    | match goal with |- respects _ (if ?c then _ else _) => destruct c end
    | match goal with |- respects _ (let _ := _ in _) => cbv zeta end ].

Lemma quiet_brelse (me : Z) (b : nat) : respects quiet_step (brelse me b).
Proof. unfold brelse, holdingsleep, releasesleep, acquire, release. quiet. Qed.

Lemma quiet_calm_run {A} (m : M A) (s : state) :
  respects quiet_step m -> calm_run m s.
Proof.
  intros Hm. specialize (Hm s). unfold calm_run.
  destruct (m s) as [a s' | msg s' | |]; try done;
    destruct Hm as (evs & Ht & Hq); exists evs; split; try done;
    by apply calm_quiet.
Qed.

(** What [bget] adds to the trace, and that it ends with no lock held. *)
Lemma bget_trace (me d bn : Z) (s : state) :
  match bget me d bn s with
  | Ret _ s' =>
      exists evs, trace s' = trace s ++ evs /\ calm [] evs = true /\
        held_after [] evs = []
  | Panic _ s' => exists evs, trace s' = trace s ++ evs /\ calm [] evs = true
  | Fault | Spin => True
  end.
Proof.
  pose proof (bget_inv me d bn s) as Hinv.
  destruct (bget me d bn s) as [b s' | msg s' | |]; [| | done | done].
  - destruct Hinv as [hd x Hh Hf Hb -> | hd x Hh Hf Hl Hb -> |
                      hd hdj j ks sm x Hh Hf Hl Hj Hj13 Hhdj Hff Hst Hb ->].
    + eexists. split; [reflexivity |].
      cbn [calm held_after]. rewrite drop_lock_head. by split.
    + eexists. split; [reflexivity |].
      cbn [calm held_after]. rewrite drop_lock_head. by split.
    + pose proof (steal_frame j (Z.to_nat (HASH bn)) b
                    (found_state (Z.to_nat (HASH bn)) j ks s)) as Hfr.
      rewrite Hst in Hfr. destruct Hfr as (Htr & _ & _).
      unfold stolen_state. norm. rewrite Htr. unfold found_state. norm.
      rewrite <- !app_assoc. eexists. split; [reflexivity |].
      cbn [app calm held_after].
      destruct (calm_handoffs
                  [bcache_lock; map_lock (Z.to_nat (HASH bn))] ks) as [Hc Hh'].
      rewrite calm_app, held_after_app, Hc, Hh'.
      cbn [andb calm held_after]. rewrite !drop_lock_head.
      cbn [calm held_after existsb]. by split.
  - destruct Hinv as (ks & -> & -> & _). unfold exhausted_state. norm.
    eexists. split; [reflexivity |]. cbn [app calm].
    apply calm_handoffs.
Qed.

Lemma bread_tail_trace (b : nat) (s : state) :
  calm_run (x <- load b ;;
            if valid x =? 0 then
              virtio_disk_rw b false ;; store b (set_valid 1) ;; ret b
            else ret b) s.
Proof.
  unfold calm_run.
  destruct (bcache_buf s !! b) as [x |] eqn:Hb.
  2:{ unfold bind, load. by rewrite Hb. }
  mrun. destruct (valid x =? 0).
  - mrun. unfold ret. norm. by exists [EvDiskRW b false].
  - unfold ret. exists []. by rewrite app_nil_r.
Qed.

Lemma bwrite_trace (me : Z) (b : nat) (s : state) : calm_run (bwrite me b) s.
Proof.
  unfold calm_run, bwrite.
  destruct (bcache_buf s !! b) as [x |] eqn:Hb.
  2:{ unfold holdingsleep, bind, load. by rewrite Hb. }
  mrun. destruct (holding me x); cbn [negb].
  - mrun. unfold emit. norm. by exists [EvDiskRW b true].
  - unfold panic. exists []. by rewrite app_nil_r.
Qed.

Lemma bread_trace (me d bn : Z) (s : state) : calm_run (bread me d bn) s.
Proof.
  unfold calm_run, bread. unfold bind at 1.
  pose proof (bget_trace me d bn s) as Hg.
  destruct (bget me d bn s) as [b s1 | msg s1 | |]; [| done | done | done].
  destruct Hg as (e1 & Ht1 & Hc1 & Hh1).
  pose proof (bread_tail_trace b s1) as Ht. unfold calm_run in Ht.
  match goal with |- match ?o with _ => _ end =>
    destruct o as [a s2 | msg s2 | |] end; [| | done | done];
    destruct Ht as (e2 & Ht2 & Hc2); exists (e1 ++ e2);
    (split; [by rewrite Ht2, Ht1, app_assoc |]);
    by rewrite calm_app, Hc1, Hh1, Hc2.
Qed.

(** A bucket lock held across [acquiresleep] is what [calm] rejects. *)
Lemma calm_rejects_sleep_under_lock :
  calm [] [EvAcquire (map_lock 3); EvAcquireSleep 0; EvRelease (map_lock 3)]
    = false.
Proof. reflexivity. Qed.

(** C9: in whatever [bget], [brelse], [bread] and [bwrite] add to the
    trace, every [acquiresleep] and every disk transfer comes at a moment
    when no bucket lock is held. *)
Theorem sleep_outside_shard_locks (me d bn : Z) (b : nat) (s : state) :
  calm_run (bget me d bn) s /\
  calm_run (brelse me b) s /\
  calm_run (bread me d bn) s /\
  calm_run (bwrite me b) s.
Proof.
  split_and!.
  - pose proof (bget_trace me d bn s) as Hg. unfold calm_run.
    destruct (bget me d bn s) as [a s1 | msg s1 | |]; try done.
    destruct Hg as (evs & Ht & Hc & _). by exists evs.
  - apply quiet_calm_run, quiet_brelse.
  - apply bread_trace.
  - apply bwrite_trace.
Qed.

(** ** binit *)

Lemma linking_boot (n : nat) : linking 0 n = boot n.
Proof.
  unfold linking, linked, boot. cbn [seq map app prev]. by rewrite Nat.sub_0_r.
Qed.

Lemma linked_length (b n : nat) : (b <= n)%nat -> length (linked b n) = n.
Proof.
  intros Hb. unfold linked.
  rewrite length_app, length_map, length_seq, length_replicate. lia.
Qed.

Lemma linked_lookup_done (b n k : nat) :
  (k < b)%nat -> linked b n !! k = Some (set_next (prev k) zero_buf).
Proof.
  intros Hk. unfold linked. rewrite lookup_app_l by (rewrite length_map, length_seq; lia).
  rewrite list_lookup_fmap, lookup_seq_lt by lia. reflexivity.
Qed.

Lemma linked_lookup_todo (b n : nat) :
  (b < n)%nat -> linked b n !! b = Some zero_buf.
Proof.
  intros Hb. unfold linked.
  rewrite lookup_app_r by (rewrite length_map, length_seq; lia).
  rewrite length_map, length_seq, Nat.sub_diag.
  apply lookup_replicate_2. lia.
Qed.

Lemma linked_step (b n : nat) :
  (b < n)%nat ->
  <[b := set_next (prev b) zero_buf]> (linked b n) = linked (S b) n.
Proof.
  intros Hb. unfold linked.
  replace (n - b)%nat with (S (n - S b)) by lia. cbn [replicate].
  rewrite insert_app_r_alt by (rewrite length_map, length_seq; lia).
  rewrite length_map, length_seq, Nat.sub_diag. cbn [insert list_insert].
  rewrite seq_S, map_app, <- app_assoc. reflexivity.
Qed.

Lemma binit_inner_done (n : nat) (j : Z) (fuel : nat) :
  (13 <= n)%nat ->
  binit_inner (S fuel) 0 j n (linking n n) = Ret None (linking n n).
Proof.
  intros Hn. cbn [binit_inner].
  unfold NBUF, linking. norm. rewrite linked_length by lia.
  assert (H1 : (0 <? Z.of_nat n / NBUCKET) = true).
  { apply Z.ltb_lt. apply Z.div_str_pos. unfold NBUCKET. lia. }
  rewrite H1.
  assert (H2 : (Z.of_nat n >=? Z.of_nat n) = true).
  { rewrite Z.geb_leb. apply Z.leb_le. lia. }
  by rewrite H2.
Qed.

(** One turn of the inner loop links slot [b] into bucket 0. *)
Lemma binit_inner_step (n b : nat) (j : Z) (fuel : nat) :
  (13 <= n)%nat -> (b < n)%nat ->
  binit_inner (S fuel) 0 j b (linking b n) =
    binit_inner fuel 0 (j + 1) (S b) (linking (S b) n).
Proof.
  intros Hn Hb. cbn [binit_inner].
  unfold NBUF. unfold linking at 1 2. norm. rewrite linked_length by lia.
  assert (H1 : (0 <? Z.of_nat n / NBUCKET) = true).
  { apply Z.ltb_lt. apply Z.div_str_pos. unfold NBUCKET. lia. }
  rewrite H1.
  assert (H2 : (Z.of_nat b >=? Z.of_nat n) = false).
  { rewrite Z.geb_leb. apply Z.leb_gt. lia. }
  rewrite H2.
  assert (Hb0 : bcache_buf (linking b n) !! b = Some zero_buf)
    by (apply linked_lookup_todo; lia).
  unfold initsleeplock. rewrite (bind_store _ _ _ _ _ Hb0).
  change (set_lock (Sleeplock 0 0) zero_buf) with zero_buf.
  rewrite (list_insert_id _ _ _ Hb0).
  change (Z.to_nat 0) with 0%nat.
  assert (Hs : with_bufs (bcache_buf (linking b n)) (linking b n) = linking b n)
    by reflexivity.
  rewrite Hs.
  rewrite (bind_load_head _ _ _ (prev b)) by reflexivity.
  rewrite (bind_store _ _ _ _ _ Hb0).
  rewrite (bind_store_head _ _ _ _ (prev b)) by reflexivity.
  change (bcache_buf (linking b n)) with (linked b n).
  rewrite linked_step by lia.
  unfold with_heads, with_bufs. norm.
  assert (Hnext : State (linked (S b) n)
                    (<[0%nat := Some b]> (map_head (linking b n)))
                    (ticks (linking b n)) (trace (linking b n))
                  = linking (S b) n).
  { unfold linking. norm. by rewrite list_insert_insert_eq. }
  by rewrite Hnext.
Qed.

Lemma binit_inner_links (n m b : nat) (j : Z) (fuel : nat) :
  (13 <= n)%nat -> (b + m = n)%nat -> (m < fuel)%nat ->
  binit_inner fuel 0 j b (linking b n) = Ret None (linking n n).
Proof.
  intros Hn. revert b j fuel. induction m as [| m IH]; intros b j fuel Hb Hf;
    (destruct fuel as [| fuel]; [lia |]).
  - replace b with n by lia. by apply binit_inner_done.
  - rewrite binit_inner_step by lia. apply IH; lia.
Qed.

(** Whatever the fuel, the inner loop cannot end in another state. *)
Lemma binit_inner_only (n b : nat) (j : Z) (fuel : nat) (r : option nat)
    (s : state) :
  (13 <= n)%nat -> (b <= n)%nat ->
  binit_inner fuel 0 j b (linking b n) = Ret r s ->
  r = None /\ s = linking n n.
Proof.
  intros Hn. revert b j. induction fuel as [| fuel IH]; intros b j Hb;
    [discriminate |].
  destruct (decide (b = n)) as [-> | Hne].
  - rewrite binit_inner_done by done. by intros [= <- <-].
  - rewrite binit_inner_step by lia. apply IH. lia.
Qed.

Lemma binit_only (n fuel : nat) (s : state) :
  (13 <= n)%nat -> binit fuel (boot n) = Ret tt s -> s = linking n n.
Proof.
  intros Hn. destruct fuel as [| fuel]; [discriminate |].
  unfold binit. cbn [binit_outer]. unfold bind. rewrite <- linking_boot.
  destruct (binit_inner (S fuel) 0 0 0 (linking 0 n)) as [r s1 | | |] eqn:Hin;
    try discriminate.
  destruct (binit_inner_only n 0 0 (S fuel) r s1 Hn (Nat.le_0_l n) Hin)
    as [-> ->].
  by intros [= <-].
Qed.

Lemma linked_is_list (n m : nat) :
  (m <= n)%nat -> is_list (linked n n) (prev m) (rev (seq 0 m)).
Proof.
  induction m as [| m IH]; intros Hm; [reflexivity |].
  rewrite seq_S, rev_app_distr. cbn [rev app prev is_list Nat.add].
  split; [reflexivity |].
  exists (set_next (prev m) zero_buf). split.
  - apply linked_lookup_done. lia.
  - apply IH. lia.
Qed.

(** C1 fails on the code: the inner loop of [binit] tests [i] where it
    means [j], so with bucket 0 it runs until the pool is used up.  For
    every pool of at least [NBUCKET] slots, all slots end up in the list
    of bucket 0 and the other twelve lists stay empty. *)
Theorem binit_fills_bucket_zero_only (n fuel : nat) :
  (13 <= n)%nat -> (n < fuel)%nat ->
  exists s',
    binit fuel (boot n) = Ret tt s' /\
    bucket s' 0 (rev (seq 0 n)) /\
    forall i, (0 < i < 13)%nat -> bucket s' i [].
Proof.
  intros Hn Hf. exists (linking n n). split_and!.
  - destruct fuel as [| fuel]; [lia |].
    unfold binit. cbn [binit_outer]. unfold bind.
    rewrite <- linking_boot.
    rewrite (binit_inner_links n n 0 0 (S fuel)) by lia. reflexivity.
  - exists (prev n). split; [reflexivity |]. by apply linked_is_list.
  - intros i Hi. exists None. split; [| reflexivity].
    unfold linking. norm. rewrite list_lookup_insert_ne by lia.
    apply lookup_replicate_2. unfold NBUCKET. lia.
Qed.

Lemma binit_fills_bucket_zero_only_witness :
  exists s',
    binit 31 (boot 30) = Ret tt s' /\
    bucket s' 0 (rev (seq 0 30)) /\
    forall i, (0 < i < 13)%nat -> bucket s' i [].
Proof.
  apply (binit_fills_bucket_zero_only 30 31); lia.
Defined.

(** The thirty slots of the stock configuration, read back from memory. *)
Lemma binit_thirty_slots :
  exists s',
    binit 31 (boot 30) = Ret tt s' /\
    chains s' = Some (rev (seq 0 30)) :: replicate 12 (Some []).
Proof.
  exists (linking 30 30). split; vm_compute; reflexivity.
Qed.

(** With fewer slots than buckets [NBUF / NBUCKET] is 0: the inner loop is
    never entered, nothing is ever linked, and the outer loop has no
    exit. *)
Lemma binit_outer_small_pool (fuel : nat) (i : Z) (b : nat) (s : state) :
  0 <= i -> NBUF s / NBUCKET = 0 -> binit_outer fuel i b s = Spin.
Proof.
  revert i b. induction fuel as [| fuel IH]; intros i b Hi Hs; [reflexivity |].
  cbn [binit_outer binit_inner]. unfold bind. rewrite Hs.
  assert (H1 : (i <? 0) = false) by (apply Z.ltb_ge; lia).
  rewrite H1. apply IH; [| exact Hs].
  apply Z.mod_pos_bound. reflexivity.
Qed.

(** X11: with fewer slots than buckets [binit] never returns, whatever
    the number of steps it is given. *)
Lemma binit_small_pool_spins (n fuel : nat) :
  (n < 13)%nat -> binit fuel (boot n) = Spin.
Proof.
  intros Hn. apply binit_outer_small_pool; [lia |].
  unfold NBUF, boot. norm. rewrite length_replicate.
  apply Z.div_small. unfold NBUCKET. lia.
Qed.

Lemma binit_small_pool_spins_witness : binit 1000 (boot 12) = Spin.
Proof. apply binit_small_pool_spins. lia. Defined.

(** ** Null-terminated lists in the pool *)

Lemma is_list_lookup (bufs : list buf) (p : option nat) (l : list nat)
    (k : nat) :
  is_list bufs p l -> k ∈ l -> exists x, bufs !! k = Some x.
Proof.
  revert p. induction l as [| a l IH]; intros p Hl Hk.
  - by apply elem_of_nil in Hk.
  - destruct Hl as (-> & x & Hx & Hl).
    apply elem_of_cons in Hk as [-> | Hk]; [eauto |]. by eapply IH.
Qed.

(** Only the [next] fields of the slots on the list matter. *)
Lemma is_list_ext (bufs bufs' : list buf) (p : option nat) (l : list nat) :
  (forall k, k ∈ l -> next <$> bufs' !! k = next <$> bufs !! k) ->
  is_list bufs p l -> is_list bufs' p l.
Proof.
  revert p. induction l as [| a l IH]; intros p Hext Hl; [exact Hl |].
  destruct Hl as (-> & x & Hx & Hl). split; [reflexivity |].
  pose proof (Hext a (list_elem_of_here a l)) as Ha. rewrite Hx in Ha.
  destruct (bufs' !! a) as [x' |]; [| discriminate Ha].
  exists x'. split; [reflexivity |].
  cbn in Ha. injection Ha as ->. apply IH; [| exact Hl].
  intros k Hk. apply Hext. by apply list_elem_of_further.
Qed.

Lemma is_list_store_other (bufs : list buf) (p : option nat) (l : list nat)
    (k : nat) (y : buf) :
  k ∉ l -> is_list bufs p l -> is_list (<[k := y]> bufs) p l.
Proof.
  intros Hk. apply is_list_ext. intros j Hj.
  rewrite list_lookup_insert_ne; [reflexivity |]. intros ->. by apply Hk.
Qed.

Lemma is_list_in_pool (bufs : list buf) (p : option nat) (l : list nat) :
  is_list bufs p l -> NoDup l -> (length l <= length bufs)%nat.
Proof.
  intros Hl Hnd.
  assert (Hsub : l ⊆ seq 0 (length bufs)).
  { intros k Hk. destruct (is_list_lookup _ _ _ _ Hl Hk) as (x & Hx).
    apply elem_of_seq. apply lookup_lt_Some in Hx. lia. }
  pose proof (submseteq_length _ _ (NoDup_submseteq _ _ Hnd Hsub)) as Hlen.
  by rewrite length_seq in Hlen.
Qed.

(** *** The three scans on such a list *)

Lemma find_cached_miss (bufs : list buf) (d bn : Z) (l : list nat)
    (p : option nat) (fuel : nat) :
  is_list bufs p l -> (length l < fuel)%nat ->
  (forall k x, k ∈ l -> bufs !! k = Some x -> ~ (dev x = d /\ blockno x = bn)) ->
  find_cached fuel bufs d bn p = Exit None.
Proof.
  revert p fuel. induction l as [| a l IH]; intros p fuel Hl Hf Hmiss.
  - cbn in Hl. subst p. destruct fuel; [cbn in Hf; lia | reflexivity].
  - destruct Hl as (-> & x & Hx & Hl).
    destruct fuel as [| fuel]; [cbn in Hf; lia |].
    cbn [find_cached]. rewrite Hx.
    destruct ((dev x =? d) && (blockno x =? bn)) eqn:Hm.
    + exfalso. apply andb_true_iff in Hm as [H1%Z.eqb_eq H2%Z.eqb_eq].
      apply (Hmiss a x); [apply list_elem_of_here | done | done].
    + apply IH; [done | cbn in Hf; lia |].
      intros k y Hk. apply Hmiss. by apply list_elem_of_further.
Qed.

Lemma first_free_none (bufs : list buf) (l : list nat) (p : option nat)
    (fuel : nat) :
  is_list bufs p l -> (length l < fuel)%nat ->
  (forall k, k ∈ l -> ~ evictable bufs k) ->
  first_free fuel bufs p = Exit None.
Proof.
  revert p fuel. induction l as [| a l IH]; intros p fuel Hl Hf Hno.
  - cbn in Hl. subst p. destruct fuel; [cbn in Hf; lia | reflexivity].
  - destruct Hl as (-> & x & Hx & Hl).
    destruct fuel as [| fuel]; [cbn in Hf; lia |].
    cbn [first_free]. rewrite Hx.
    destruct (refcnt x =? 0) eqn:Hr.
    + exfalso. apply (Hno a); [apply list_elem_of_here |].
      exists x. split; [done | by apply Z.eqb_eq].
    + apply IH; [done | cbn in Hf; lia |].
      intros k Hk. apply Hno. by apply list_elem_of_further.
Qed.

Lemma first_free_found (bufs : list buf) (l1 l2 : list nat) (e : nat)
    (p : option nat) (fuel : nat) :
  is_list bufs p (l1 ++ e :: l2) -> (length l1 < fuel)%nat ->
  (forall k, k ∈ l1 -> ~ evictable bufs k) ->
  evictable bufs e ->
  first_free fuel bufs p = Exit (Some e).
Proof.
  revert p fuel. induction l1 as [| a l1 IH]; intros p fuel Hl Hf Hno He.
  - destruct Hl as (-> & x & Hx & Hl).
    destruct fuel as [| fuel]; [cbn in Hf; lia |].
    cbn [first_free]. rewrite Hx.
    destruct He as (y & Hy & Hy0). rewrite Hx in Hy. injection Hy as <-.
    by rewrite Hy0.
  - destruct Hl as (-> & x & Hx & Hl).
    destruct fuel as [| fuel]; [cbn in Hf; lia |].
    cbn [first_free]. rewrite Hx.
    destruct (refcnt x =? 0) eqn:Hr.
    + exfalso. apply (Hno a); [apply list_elem_of_here |].
      exists x. split; [done | by apply Z.eqb_eq].
    + apply IH; [done | cbn in Hf; lia | | done].
      intros k Hk. apply Hno. by apply list_elem_of_further.
Qed.

(** The scan of the bucket returns the unreferenced slot with the least
    stamp below [min], the first of them in list order, and [empty] when
    there is none. *)
Lemma scan_lru_spec (bufs : list buf) (l : list nat) (p : option nat)
    (fuel : nat) (min : Z) (empty : option nat) :
  is_list bufs p l -> (length l < fuel)%nat ->
  exists r,
    scan_lru fuel bufs min empty p = Exit r /\
    ((r = empty /\
      forall k x, k ∈ l -> bufs !! k = Some x -> refcnt x = 0 ->
        min <= timestamp x) \/
     (exists e xe,
        r = Some e /\ e ∈ l /\ bufs !! e = Some xe /\ refcnt xe = 0 /\
        timestamp xe < min /\
        forall k x, k ∈ l -> bufs !! k = Some x -> refcnt x = 0 ->
          timestamp xe <= timestamp x)).
Proof.
  revert p fuel min empty.
  induction l as [| a l IH]; intros p fuel min empty Hl Hf.
  - cbn in Hl. subst p. destruct fuel; [cbn in Hf; lia |].
    exists empty. split; [reflexivity |]. left. split; [done |].
    intros k x Hk. by apply elem_of_nil in Hk.
  - destruct Hl as (-> & x & Hx & Hl).
    destruct fuel as [| fuel]; [cbn in Hf; lia |].
    cbn [scan_lru]. rewrite Hx.
    assert (Hf' : (length l < fuel)%nat) by (cbn in Hf; lia).
    destruct ((refcnt x =? 0) && (timestamp x <? min)) eqn:Hc.
    + apply andb_true_iff in Hc as [Hr%Z.eqb_eq Ht%Z.ltb_lt].
      destruct (IH (next x) fuel (timestamp x) (Some a) Hl Hf')
        as (r & Hrun & [[-> Hall] | (e & xe & -> & He & Hxe & Hre & Hte & Hall)]).
      * exists (Some a). split; [exact Hrun |]. right.
        exists a, x. split_and!; try done; [apply list_elem_of_here |].
        intros k y [-> | Hk]%elem_of_cons Hy Hy0.
        -- rewrite Hx in Hy. injection Hy as <-. lia.
        -- by apply (Hall k y).
      * exists (Some e). split; [exact Hrun |]. right.
        exists e, xe. split_and!; try done;
          [by apply list_elem_of_further | lia |].
        intros k y [-> | Hk]%elem_of_cons Hy Hy0.
        -- rewrite Hx in Hy. injection Hy as <-. lia.
        -- by apply (Hall k y).
    + destruct (IH (next x) fuel min empty Hl Hf')
        as (r & Hrun & [[-> Hall] | (e & xe & -> & He & Hxe & Hre & Hte & Hall)]).
      * exists empty. split; [exact Hrun |]. left. split; [done |].
        intros k y [-> | Hk]%elem_of_cons Hy Hy0.
        -- rewrite Hx in Hy. injection Hy as <-.
           apply andb_false_iff in Hc as [Hc | Hc].
           ++ apply Z.eqb_neq in Hc. done.
           ++ apply Z.ltb_ge in Hc. exact Hc.
        -- by apply (Hall k y).
      * exists (Some e). split; [exact Hrun |]. right.
        exists e, xe. split_and!; try done; [by apply list_elem_of_further |].
        intros k y [-> | Hk]%elem_of_cons Hy Hy0.
        -- rewrite Hx in Hy. injection Hy as <-.
           apply andb_false_iff in Hc as [Hc | Hc].
           ++ apply Z.eqb_neq in Hc. done.
           ++ apply Z.ltb_ge in Hc. lia.
        -- by apply (Hall k y).
Qed.

(** ** Unlinking a slot *)

Lemma stop_at_cons (c : cursor) (a : nat) (l1 : list nat) :
  stop_at c (a :: l1) = stop_at (at_buf a) l1.
Proof.
  unfold stop_at. destruct l1 as [| b l1]; [reflexivity |].
  rewrite last_cons_cons.
  destruct (list.last (b :: l1)) eqn:E; [reflexivity |].
  by apply last_None in E.
Qed.

Lemma steal_prev_spec (bufs : list buf) (heads : list (option nat))
    (e : nat) (l1 l2 : list nat) (c : cursor) (p : option nat) (fuel : nat) :
  cursor_next bufs heads c = Some p ->
  is_list bufs p (l1 ++ e :: l2) -> e ∉ l1 -> (length l1 < fuel)%nat ->
  steal_prev fuel bufs heads e c = Exit (stop_at c l1).
Proof.
  revert c p fuel. induction l1 as [| a l1 IH]; intros c p fuel Hc Hl He Hf.
  - destruct Hl as (-> & _).
    destruct fuel as [| fuel]; [cbn in Hf; lia |].
    cbn [steal_prev]. rewrite Hc. by rewrite decide_True.
  - destruct Hl as (-> & x & Hx & Hl).
    destruct fuel as [| fuel]; [cbn in Hf; lia |].
    cbn [steal_prev]. rewrite Hc.
    rewrite decide_False.
    2:{ intros [= ->]. apply He, list_elem_of_here. }
    rewrite stop_at_cons. eapply IH.
    + cbn [cursor_next]. by rewrite Hx.
    + exact Hl.
    + intros H. apply He. by apply list_elem_of_further.
    + cbn in Hf. lia.
Qed.

(** The slot before [e] is made to point past it. *)
Lemma unlink_inner (bufs : list buf) (l1 l2 : list nat) (q e : nat)
    (xq xe : buf) (p : option nat) :
  is_list bufs p (l1 ++ q :: e :: l2) ->
  NoDup (l1 ++ q :: e :: l2) ->
  bufs !! q = Some xq -> bufs !! e = Some xe ->
  is_list (<[q := set_next (next xe) xq]> bufs) p (l1 ++ q :: l2).
Proof.
  revert p. induction l1 as [| a l1 IH]; intros p Hl Hnd Hq He.
  - cbn [app] in *. destruct Hl as (-> & x & Hx & Hn & y & Hy & Hl).
    rewrite Hq in Hx. injection Hx as <-.
    rewrite He in Hy. injection Hy as <-.
    split; [reflexivity |]. exists (set_next (next xe) xq).
    split; [by eapply lookup_store |]. cbn [next set_next].
    apply is_list_store_other; [| exact Hl].
    apply list.NoDup_cons in Hnd as [Hnd _]. intros H. apply Hnd.
    by apply list_elem_of_further.
  - cbn [app] in *. destruct Hl as (-> & x & Hx & Hl).
    apply list.NoDup_cons in Hnd as [Ha Hnd].
    split; [reflexivity |]. exists x. split.
    + rewrite list_lookup_insert_ne; [done |]. intros ->. apply Ha.
      apply elem_of_app. right. apply list_elem_of_here.
    + by apply IH.
Qed.

Lemma is_list_last_next (bufs : list buf) (l1 l2 : list nat) (q e : nat)
    (p : option nat) :
  is_list bufs p (l1 ++ q :: e :: l2) ->
  exists xq, bufs !! q = Some xq /\ next xq = Some e.
Proof.
  revert p. induction l1 as [| a l1 IH]; intros p Hl.
  - destruct Hl as (-> & x & Hx & Hn & _). eauto.
  - destruct Hl as (-> & x & Hx & Hl). by eapply IH.
Qed.

Lemma is_list_tail (bufs : list buf) (l1 l2 : list nat) (e : nat) (xe : buf)
    (p : option nat) :
  is_list bufs p (l1 ++ e :: l2) -> bufs !! e = Some xe ->
  is_list bufs (next xe) l2.
Proof.
  revert p. induction l1 as [| a l1 IH]; intros p Hl He.
  - destruct Hl as (-> & x & Hx & Hl). rewrite He in Hx. by injection Hx as <-.
  - destruct Hl as (-> & x & Hx & Hl). by eapply IH.
Qed.

Lemma stop_at_snoc (c : cursor) (l1 : list nat) (q : nat) :
  stop_at c (l1 ++ [q]) = at_buf q.
Proof. unfold stop_at. by rewrite last_snoc. Qed.

(** [STEAL] takes [e] out of the list of bucket [i] and puts it in front
    of the list of bucket [h]; the lists of the other buckets stay. *)
Lemma steal_moves (i h e : nat) (s : state) (pi ph : option nat)
    (l1 l2 lh : list nat) (xe : buf) :
  i <> h ->
  map_head s !! i = Some pi ->
  is_list (bcache_buf s) pi (l1 ++ e :: l2) ->
  NoDup (l1 ++ e :: l2) ->
  map_head s !! h = Some ph ->
  is_list (bcache_buf s) ph lh ->
  (forall k, k ∈ l1 ++ e :: l2 -> k ∉ lh) ->
  bcache_buf s !! e = Some xe ->
  exists s',
    steal i h e s = Ret tt s' /\
    trace s' = trace s /\ ticks s' = ticks s /\
    bucket s' i (l1 ++ l2) /\
    bucket s' h (e :: lh) /\
    (forall j l, j <> i -> j <> h -> bucket s j l ->
       (forall k, k ∈ l1 ++ e :: l2 -> k ∉ l) -> bucket s' j l) /\
    same_fields (bcache_buf s) (bcache_buf s').
Proof.
  intros Hih Hpi Hli Hnd Hph Hlh Hdis He.
  assert (Hlen : (length l1 < steps (bcache_buf s))%nat).
  { pose proof (is_list_in_pool _ _ _ Hli Hnd) as H.
    rewrite length_app in H. cbn in H. unfold steps. lia. }
  assert (He1 : e ∉ l1).
  { apply list.NoDup_app in Hnd as (_ & H & _). intros Hin.
    apply (H e Hin), list_elem_of_here. }
  assert (He2 : e ∉ l2).
  { apply list.NoDup_app in Hnd as (_ & _ & H).
    by apply list.NoDup_cons in H as [H _]. }
  assert (Heh : e ∉ lh).
  { apply Hdis. apply elem_of_app. right. apply list_elem_of_here. }
  assert (Hprev : steal_prev (steps (bcache_buf s)) (bcache_buf s) (map_head s)
                    e (at_head i) = Exit (stop_at (at_head i) l1)).
  { eapply steal_prev_spec; [| exact Hli | exact He1 | exact Hlen].
    cbn [cursor_next]. exact Hpi. }
  unfold steal, predecessor. rewrite bind_lift, Hprev.
  rewrite (bind_load _ _ _ _ He).
  destruct l1 as [| q l1 _] using rev_ind.
  - (* [empty] is the first slot of the list *)
    cbn [app] in *. change (stop_at (at_head i) []) with (at_head i).
    cbn [store_cursor_next]. mrun.
    rewrite (bind_load_head _ _ _ ph)
      by (norm; by rewrite list_lookup_insert_ne).
    mrun. unfold store_head. norm.
    rewrite list_lookup_insert_ne, Hph by done.
    eexists. split; [reflexivity |]. unfold bucket. norm.
    pose proof (is_list_tail _ [] _ _ _ _ Hli He) as Htl.
    split_and!; try done.
    + exists (next xe). split.
      * rewrite list_lookup_insert_ne by done.
        apply list_lookup_insert_eq. by eapply lookup_lt_Some.
      * by apply is_list_store_other.
    + exists (Some e). split.
      * apply list_lookup_insert_eq. rewrite length_insert.
        by eapply lookup_lt_Some.
      * split; [reflexivity |]. exists (set_next ph xe).
        split; [by eapply lookup_store |].
        by apply is_list_store_other.
    + intros j l Hji Hjh (pj & Hpj & Hlj) Hd.
      exists pj. split; [by rewrite !list_lookup_insert_ne |].
      apply is_list_store_other; [| exact Hlj].
      apply Hd, list_elem_of_here.
    + by apply same_fields_set_next.
  - (* [empty] comes after slot [q] *)
    rewrite stop_at_snoc. rewrite <- app_assoc in Hli, Hnd. cbn [app] in Hli, Hnd.
    destruct (is_list_last_next _ _ _ _ _ _ Hli) as (xq & Hq & Hqn).
    assert (Hqe : q <> e).
    { intros ->. apply He1. apply elem_of_app. right. apply list_elem_of_here. }
    assert (Hqh : q ∉ lh).
    { apply Hdis. rewrite <- app_assoc. apply elem_of_app. right.
      apply list_elem_of_here. }
    cbn [store_cursor_next]. mrun.
    rewrite (bind_store _ _ _ _ xe)
      by (norm; by rewrite list_lookup_insert_ne).
    unfold store_head. norm. rewrite Hph.
    eexists. split; [reflexivity |]. unfold bucket. norm.
    pose proof (unlink_inner _ _ _ _ _ _ _ _ Hli Hnd Hq He) as Hun.
    split_and!; try done.
    + exists pi. split; [by rewrite list_lookup_insert_ne |].
      rewrite <- app_assoc. cbn [app].
      apply is_list_store_other; [| exact Hun].
      intros [H | H]%elem_of_app; [| apply elem_of_cons in H as [H | H]].
      * apply He1. apply elem_of_app. by left.
      * by apply Hqe.
      * by apply He2.
    + exists (Some e). split.
      * apply list_lookup_insert_eq. by eapply lookup_lt_Some.
      * split; [reflexivity |]. exists (set_next ph xe). split.
        -- apply list_lookup_insert_eq. rewrite length_insert.
           by eapply lookup_lt_Some.
        -- cbn [next set_next].
           apply is_list_store_other; [exact Heh |].
           apply is_list_store_other; [exact Hqh | exact Hlh].
    + intros j l Hji Hjh (pj & Hpj & Hlj) Hd.
      exists pj. split; [by rewrite list_lookup_insert_ne |].
      apply is_list_store_other.
      { apply Hd. apply elem_of_app. right. apply list_elem_of_here. }
      apply is_list_store_other; [| exact Hlj].
      apply Hd. rewrite <- app_assoc. apply elem_of_app. right.
      apply list_elem_of_here.
    + eapply same_fields_trans; [by apply same_fields_set_next |].
      apply same_fields_set_next. by rewrite list_lookup_insert_ne.
Qed.

Lemma steal_scan_finds (n h i0 i e : nat) (s : state) (hd : option nat) :
  (i0 <= i < i0 + n)%nat -> i <> h ->
  (forall k, (i0 <= k < i)%nat -> k <> h ->
     exists hk, map_head s !! k = Some hk /\
       first_free (steps (bcache_buf s)) (bcache_buf s) hk = Exit None) ->
  map_head s !! i = Some hd ->
  first_free (steps (bcache_buf s)) (bcache_buf s) hd = Exit (Some e) ->
  exists ks,
    steal_scan n h i0 s =
      Ret (i, e) (State (bcache_buf s) (map_head s) (ticks s)
                    (trace s ++ handoffs ks ++ [EvAcquire (map_lock i)])).
Proof.
  revert i0 s. induction n as [| n IH]; intros i0 s Hi Hih Hbefore Hhd Hff;
    [lia |].
  cbn [steal_scan]. destruct (decide (i0 = h)) as [-> | Hne].
  - apply IH; try done; [lia |]. intros k Hk. apply Hbefore. lia.
  - destruct (decide (i0 = i)) as [-> | Hi0].
    + mrun. unfold scan_free. rewrite bind_lift. norm. rewrite Hff.
      by exists [].
    + destruct (Hbefore i0) as (hk & Hhk & Hnone); [lia | done |].
      mrun. unfold scan_free. rewrite bind_lift. norm. rewrite Hnone.
      mrun.
      match goal with |- context [steal_scan n h (S i0) ?s1] =>
        destruct (IH (S i0) s1) as (ks & Hrun) end; try done; [lia | |].
      * intros k Hk. apply Hbefore. lia.
      * exists (i0 :: ks). rewrite Hrun. norm.
        cbn [handoffs flat_map]. by rewrite <- !app_assoc.
Qed.

(** ** The invariant of the bucket lists *)

Lemma wf_ext (s s' : state) (ls : list (list nat)) :
  map_head s' = map_head s ->
  (forall k, next <$> bcache_buf s' !! k = next <$> bcache_buf s !! k) ->
  wf s ls -> wf s' ls.
Proof.
  intros Hh Hn (Hlen & Hb & Hdis). split_and!; [done | | done].
  intros i l Hl. destruct (Hb i l Hl) as [(p & Hp & Hpl) Hnd].
  split; [| done]. exists p. rewrite Hh. split; [done |].
  eapply is_list_ext; [| exact Hpl]. intros k _. apply Hn.
Qed.

Lemma wf_lengths (s : state) (ls : list (list nat)) (i : nat) (l : list nat) :
  wf s ls -> ls !! i = Some l -> (length l < steps (bcache_buf s))%nat.
Proof.
  intros (_ & Hb & _) Hl. destruct (Hb i l Hl) as [(p & _ & Hpl) Hnd].
  pose proof (is_list_in_pool _ _ _ Hpl Hnd). unfold steps. lia.
Qed.

(** Where the slots of the lists after a steal come from. *)
Lemma moved_origin (ls : list (list nat)) (i h e : nat)
    (l1 l2 lh : list nat) (a : nat) (l : list nat) (k : nat) :
  i <> h -> ls !! i = Some (l1 ++ e :: l2) -> ls !! h = Some lh ->
  NoDup (l1 ++ e :: l2) ->
  (forall b l0, b <> i -> ls !! b = Some l0 -> e ∉ l0) ->
  <[h := e :: lh]> (<[i := l1 ++ l2]> ls) !! a = Some l -> k ∈ l ->
  (k = e /\ a = h) \/ (k <> e /\ exists l0, ls !! a = Some l0 /\ k ∈ l0).
Proof.
  intros Hih Hi Hh Hnd Hfar Ha Hk.
  assert (He12 : e ∉ l1 ++ l2).
  { apply list.NoDup_app in Hnd as (_ & H1 & H2).
    apply list.NoDup_cons in H2 as [H2 _].
    intros [H | H]%elem_of_app; [| done].
    apply (H1 e H), list_elem_of_here. }
  destruct (decide (a = h)) as [-> | Hah].
  - rewrite list_lookup_insert_eq in Ha
      by (rewrite length_insert; by eapply lookup_lt_Some).
    injection Ha as <-.
    apply elem_of_cons in Hk as [-> | Hk]; [by left |].
    right. split; [| eauto]. intros ->. by apply (Hfar h lh).
  - rewrite list_lookup_insert_ne in Ha by done. right.
    destruct (decide (a = i)) as [-> | Hai].
    + rewrite list_lookup_insert_eq in Ha by (by eapply lookup_lt_Some).
      injection Ha as <-. split; [by intros -> |].
      exists (l1 ++ e :: l2). split; [done |].
      apply elem_of_app in Hk as [Hk | Hk]; apply elem_of_app;
        [by left | right; by apply list_elem_of_further].
    + rewrite list_lookup_insert_ne in Ha by done.
      split; [| eauto]. intros ->. by apply (Hfar a l).
Qed.

Lemma wf_moved (s sm : state) (ls : list (list nat)) (i h e : nat)
    (l1 l2 lh : list nat) :
  wf s ls -> i <> h ->
  ls !! i = Some (l1 ++ e :: l2) -> ls !! h = Some lh ->
  bucket sm i (l1 ++ l2) ->
  bucket sm h (e :: lh) ->
  (forall j l, j <> i -> j <> h -> bucket s j l ->
     (forall k, k ∈ l1 ++ e :: l2 -> k ∉ l) -> bucket sm j l) ->
  wf sm (<[h := e :: lh]> (<[i := l1 ++ l2]> ls)).
Proof.
  intros (Hlen & Hb & Hdis) Hih Hi Hh Hbi Hbh Hbo.
  destruct (Hb i _ Hi) as [_ Hndi]. destruct (Hb h _ Hh) as [_ Hndh].
  assert (Hei : e ∈ l1 ++ e :: l2).
  { apply elem_of_app. right. apply list_elem_of_here. }
  assert (Hfar : forall b l0, b <> i -> ls !! b = Some l0 -> e ∉ l0).
  { intros b l0 Hbi' Hl0. eapply (Hdis i b); eauto. }
  split_and!.
  - by rewrite !length_insert.
  - intros a l Ha. destruct (decide (a = h)) as [-> | Hah].
    + rewrite list_lookup_insert_eq in Ha
        by (rewrite length_insert; by eapply lookup_lt_Some).
      injection Ha as <-. split; [done |].
      apply list.NoDup_cons. split; [by apply (Hfar h) | done].
    + rewrite list_lookup_insert_ne in Ha by done.
      destruct (decide (a = i)) as [-> | Hai].
      * rewrite list_lookup_insert_eq in Ha by (by eapply lookup_lt_Some).
        injection Ha as <-. split; [done |].
        apply list.NoDup_app in Hndi as (H1 & H2 & H3).
        apply list.NoDup_cons in H3 as [_ H3].
        apply list.NoDup_app. split_and!; [done | | done].
        intros k Hk1 Hk2. apply (H2 k Hk1). by apply list_elem_of_further.
      * rewrite list_lookup_insert_ne in Ha by done.
        destruct (Hb a l Ha) as [Hba Hnda]. split; [| done].
        apply Hbo; try done. intros k Hk.
        apply (Hdis i a (l1 ++ e :: l2) l k); done || by apply not_eq_sym.
  - intros a b la lb k Hab Ha Hb' Hka Hkb.
    destruct (moved_origin _ _ _ _ _ _ _ _ _ _ Hih Hi Hh Hndi Hfar Ha Hka)
      as [[-> ->] | (Hke & la0 & Hla0 & Hka0)];
    destruct (moved_origin _ _ _ _ _ _ _ _ _ _ Hih Hi Hh Hndi Hfar Hb' Hkb)
      as [[? ->] | (Hke' & lb0 & Hlb0 & Hkb0)]; try done.
    by apply (Hdis a b la0 lb0 k).
Qed.

(** ** Stealing from another bucket *)

Lemma scan_lru_none (s : state) (ls : list (list nat)) (h : nat)
    (lh : list nat) (ph : option nat) :
  wf s ls -> ls !! h = Some lh -> map_head s !! h = Some ph ->
  (forall k, k ∈ lh -> ~ evictable (bcache_buf s) k) ->
  scan_lru (steps (bcache_buf s)) (bcache_buf s) UINT_MAX None ph = Exit None.
Proof.
  intros Hwf Hh Hph Hno.
  pose proof (wf_lengths _ _ _ _ Hwf Hh) as Hlen.
  destruct Hwf as (_ & Hb & _).
  destruct (Hb h lh Hh) as [(p & Hp & Hl) _].
  rewrite Hph in Hp. injection Hp as <-.
  destruct (scan_lru_spec _ _ _ _ UINT_MAX None Hl Hlen)
    as (r & Hrun & [[-> _] | (e & xe & -> & He & Hxe & Hre & _)]);
    [exact Hrun |].
  exfalso. apply (Hno e He). by exists xe.
Qed.

(** C4: on a miss in a bucket [h] without a free slot, [bget] takes the
    first free slot [e] of the first other bucket [i] (in index order)
    that has one, whatever the stamps are: [e] leaves the list of bucket
    [i] and becomes the head of the list of bucket [h] (state [sm], where
    it still carries its old block), and only then is given the new
    block, [valid = 0] and [refcnt = 1]. *)
Theorem bget_steals_first_free (me d bn : Z) (s : state)
    (ls : list (list nat)) (h i e : nat) (lh l1 l2 : list nat) :
  h = Z.to_nat (HASH bn) ->
  wf s ls ->
  ls !! h = Some lh ->
  (forall k x, k ∈ lh -> bcache_buf s !! k = Some x ->
     ~ (dev x = d /\ blockno x = bn)) ->
  (forall k, k ∈ lh -> ~ evictable (bcache_buf s) k) ->
  i <> h ->
  ls !! i = Some (l1 ++ e :: l2) ->
  (forall j l k, (j < i)%nat -> j <> h -> ls !! j = Some l -> k ∈ l ->
     ~ evictable (bcache_buf s) k) ->
  (forall k, k ∈ l1 -> ~ evictable (bcache_buf s) k) ->
  evictable (bcache_buf s) e ->
  exists ks sm x,
    steal i h e (found_state h i ks s) = Ret tt sm /\
    wf sm (<[h := e :: lh]> (<[i := l1 ++ l2]> ls)) /\
    bcache_buf sm !! e = Some x /\
    (exists x0, bcache_buf s !! e = Some x0 /\
       dev x = dev x0 /\ blockno x = blockno x0) /\
    bget me d bn s = Ret e (stolen_state me d bn h i e x sm) /\
    wf (stolen_state me d bn h i e x sm)
       (<[h := e :: lh]> (<[i := l1 ++ l2]> ls)) /\
    bcache_buf (stolen_state me d bn h i e x sm) !! e
      = Some (claimed me d bn x).
Proof.
  intros -> Hwf Hh Hmiss Hnoh Hih Hi Hbefore Hno1 He.
  set (h := Z.to_nat (HASH bn)) in *.
  pose proof Hwf as (Hlen & Hb & Hdis).
  destruct (Hb h lh Hh) as [(ph & Hph & Hlh) Hndh].
  destruct (Hb i _ Hi) as [(pi & Hpi & Hli) Hndi].
  assert (Hf : find_cached (steps (bcache_buf s)) (bcache_buf s) d bn ph
               = Exit None).
  { eapply find_cached_miss; [exact Hlh | by eapply wf_lengths | exact Hmiss]. }
  pose proof (scan_lru_none s ls h lh ph Hwf Hh Hph Hnoh) as Hl.
  assert (Hffi : first_free (steps (bcache_buf s)) (bcache_buf s) pi
                 = Exit (Some e)).
  { eapply first_free_found; [exact Hli | | exact Hno1 | exact He].
    pose proof (wf_lengths _ _ _ _ Hwf Hi) as H.
    rewrite length_app in H. lia. }
  assert (Hi13 : (i < Z.to_nat NBUCKET)%nat).
  { rewrite <- Hlen. by eapply lookup_lt_Some. }
  destruct (steal_scan_finds (Z.to_nat NBUCKET) h 0 i e (searching h s) pi)
    as (ks & Hscan); try done; [lia | |].
  { intros k Hk Hkh.
    destruct (lookup_lt_is_Some_2 ls k) as (lk & Hlk); [lia |].
    destruct (Hb k lk Hlk) as [(pk & Hpk & Hlk') _].
    exists pk. split; [exact Hpk |].
    eapply first_free_none; [exact Hlk' | by eapply wf_lengths |].
    intros a Ha. eapply Hbefore; [| exact Hkh | exact Hlk | exact Ha]. lia. }
  assert (Hscan' : steal_scan (Z.to_nat NBUCKET) h 0 (searching h s)
                   = Ret (i, e) (found_state h i ks s)).
  { rewrite Hscan. unfold found_state. norm. by rewrite <- !app_assoc. }
  clear Hscan.
  destruct He as (x0 & He0 & Hr0).
  destruct (steal_moves i h e (found_state h i ks s) pi ph l1 l2 lh x0)
    as (sm & Hsteal & Htr & Htk & Hbi & Hbh & Hbo & Hsf); try done.
  { intros k Hk. by apply (Hdis i h (l1 ++ e :: l2) lh k). }
  destruct (same_fields_lookup _ _ _ _ Hsf He0) as (x & Hx & Hxx).
  assert (Hwfm : wf sm (<[h := e :: lh]> (<[i := l1 ++ l2]> ls))).
  { by eapply (wf_moved s sm). }
  exists ks, sm, x. split_and!; try done.
  - exists x0. split; [done |].
    split; [exact (f_equal dev Hxx) | exact (f_equal blockno Hxx)].
  - rewrite (bget_miss me d bn s ph Hph Hf Hl). fold h.
    unfold bind at 1. rewrite Hscan'.
    unfold bind at 1. rewrite Hsteal.
    mrun. rewrite (evict_ret _ _ _ _ _ _ x) by (norm; exact Hx).
    norm. rewrite <- !app_assoc. reflexivity.
  - eapply wf_ext; [| | exact Hwfm]; unfold stolen_state; norm; [done |].
    intros k. destruct (decide (e = k)) as [<- | Hne].
    + rewrite (lookup_store _ _ _ _ Hx), Hx. reflexivity.
    + by rewrite list_lookup_insert_ne.
  - unfold stolen_state. norm. by eapply lookup_store.
Qed.

(** ** Checking the invariant by computation *)

Lemma chain_is_list (fuel : nat) (bufs : list buf) (p : option nat)
    (l : list nat) :
  chain fuel bufs p = Some l -> is_list bufs p l.
Proof.
  revert p l. induction fuel as [| fuel IH]; intros p l; cbn [chain];
    [discriminate |].
  destruct p as [k |]; [| by intros [= <-]].
  destruct (bufs !! k) as [x |] eqn:Hk; [| discriminate].
  destruct (chain fuel bufs (next x)) as [l' |] eqn:Hc; [| discriminate].
  intros [= <-]. split; [reflexivity |]. exists x. split; [done |]. by apply IH.
Qed.

Lemma concat_lookup_subset (ls : list (list nat)) (i : nat) (l : list nat)
    (k : nat) :
  ls !! i = Some l -> k ∈ l -> k ∈ concat ls.
Proof.
  revert i. induction ls as [| l0 ls IH]; intros i Hl Hk; [done |].
  cbn [concat]. apply elem_of_app.
  destruct i as [| i]; [injection Hl as ->; by left | right; by eapply IH].
Qed.

Lemma NoDup_concat_each (ls : list (list nat)) (i : nat) (l : list nat) :
  NoDup (concat ls) -> ls !! i = Some l -> NoDup l.
Proof.
  revert i. induction ls as [| l0 ls IH]; intros i Hnd Hl; [done |].
  cbn [concat] in Hnd. apply list.NoDup_app in Hnd as (H0 & _ & Hrest).
  destruct i as [| i]; [by injection Hl as <- | by eapply IH].
Qed.

Lemma NoDup_concat_apart (ls : list (list nat)) (i j : nat)
    (li lj : list nat) (k : nat) :
  NoDup (concat ls) -> i <> j -> ls !! i = Some li -> ls !! j = Some lj ->
  k ∈ li -> k ∉ lj.
Proof.
  revert i j. induction ls as [| l0 ls IH]; intros i j Hnd Hij Hi Hj Hki Hkj;
    [done |].
  cbn [concat] in Hnd. apply list.NoDup_app in Hnd as (H0 & Hcross & Hrest).
  destruct i as [| i], j as [| j]; [done | | |].
  - injection Hi as <-. apply (Hcross k Hki). by eapply concat_lookup_subset.
  - injection Hj as <-. apply (Hcross k Hkj). by eapply concat_lookup_subset.
  - apply (IH i j Hrest); try done. by intros ->.
Qed.

Lemma wf_check_sound (s : state) (ls : list (list nat)) :
  wf_check s ls = true -> wf s ls.
Proof.
  unfold wf_check.
  intros [[Hlen%bool_decide_eq_true Hch%bool_decide_eq_true]%andb_true_iff
            Hnd%bool_decide_eq_true]%andb_true_iff.
  split_and!; [done | |].
  - intros i l Hl. split; [| by eapply NoDup_concat_each].
    assert (Hc : chains s !! i = Some (Some l)).
    { rewrite Hch, list_lookup_fmap, Hl. reflexivity. }
    unfold chains in Hc. rewrite list_lookup_fmap in Hc.
    destruct (map_head s !! i) as [p |] eqn:Hp; [| discriminate].
    change (Some (chain (steps (bcache_buf s)) (bcache_buf s) p)
            = Some (Some l)) in Hc.
    injection Hc as Hc.
    exists p. split; [done |].
    apply (chain_is_list (steps (bcache_buf s))). exact Hc.
  - intros i j li lj k. by apply NoDup_concat_apart.
Qed.

Ltac in_list H :=
  repeat (apply elem_of_cons in H as [-> | H]); [.. | by apply elem_of_nil in H].

Ltac not_free :=
  let y := fresh "y" in let Hy := fresh "Hy" in let H0 := fresh "H0" in
  intros (y & Hy & H0); vm_compute in Hy; injection Hy as <-; discriminate H0.

Lemma bget_steals_first_free_witness :
  exists ks sm x,
    steal 6 5 2 (found_state 5 6 ks pool_steal) = Ret tt sm /\
    wf sm (<[5%nat := [2%nat; 0%nat]]> (<[6%nat := [1%nat]]> lists_steal)) /\
    bcache_buf sm !! 2%nat = Some x /\
    bget 9 1 5 pool_steal = Ret 2%nat (stolen_state 9 1 5 5 6 2 x sm) /\
    bcache_buf (stolen_state 9 1 5 5 6 2 x sm) !! 2%nat
      = Some (claimed 9 1 5 x).
Proof.
  destruct (bget_steals_first_free 9 1 5 pool_steal lists_steal 5 6 2
              [0%nat] [1%nat] []) as (ks & sm & x & H1 & H2 & H3 & _ & H5 & _ & H7).
  - reflexivity.
  - apply wf_check_sound. vm_compute. reflexivity.
  - reflexivity.
  - intros k x Hk Hx [Hd Hb]. in_list Hk.
    vm_compute in Hx. injection Hx as <-. discriminate Hb.
  - intros k Hk. in_list Hk. not_free.
  - discriminate.
  - reflexivity.
  - intros j l k Hj Hj5 Hl Hk.
    do 5 (destruct j as [| j]; [injection Hl as <-; by apply elem_of_nil in Hk |]).
    destruct j as [| j]; [done | lia].
  - intros k Hk. in_list Hk. not_free.
  - eexists. split; reflexivity.
  - exists ks, sm, x. split_and!; assumption.
Defined.

(** The slot taken is the first free one met, not the one released
    longest ago: slot 3 of bucket 7 carries stamp 1, slot 2 of bucket 6
    stamp 50. *)
Lemma bget_steal_ignores_stamps :
  exists s',
    bget 9 1 5 pool_steal = Ret 2%nat s' /\
    chains s' =
      map Some [[]; []; []; []; []; [2%nat; 0%nat]; [1%nat]; [3%nat];
                []; []; []; []; []].
Proof. eexists. split; vm_compute; reflexivity. Qed.

(** ** Recycling inside the bucket *)

(** On a miss, when bucket [h] has a free slot stamped below 2^32 - 1,
    [bget] recycles a free slot of the bucket with the least stamp. *)
Lemma bget_recycles_lru (me d bn : Z) (s : state) (ls : list (list nat))
    (h : nat) (lh : list nat) (k0 : nat) (x0 : buf) :
  h = Z.to_nat (HASH bn) ->
  wf s ls ->
  ls !! h = Some lh ->
  (forall k x, k ∈ lh -> bcache_buf s !! k = Some x ->
     ~ (dev x = d /\ blockno x = bn)) ->
  k0 ∈ lh -> bcache_buf s !! k0 = Some x0 -> refcnt x0 = 0 ->
  timestamp x0 < UINT_MAX ->
  exists e xe,
    e ∈ lh /\ bcache_buf s !! e = Some xe /\ refcnt xe = 0 /\
    (forall k x, k ∈ lh -> bcache_buf s !! k = Some x -> refcnt x = 0 ->
       timestamp xe <= timestamp x) /\
    bget me d bn s = Ret e (local_state me d bn h e xe s).
Proof.
  intros -> Hwf Hh Hmiss Hk0 Hx0 Hr0 Ht0.
  pose proof (wf_lengths _ _ _ _ Hwf Hh) as Hlen.
  destruct Hwf as (_ & Hb & _).
  destruct (Hb _ lh Hh) as [(ph & Hph & Hlh) _].
  assert (Hf : find_cached (steps (bcache_buf s)) (bcache_buf s) d bn ph
               = Exit None)
    by (eapply find_cached_miss; eauto).
  destruct (scan_lru_spec _ _ _ _ UINT_MAX None Hlh Hlen)
    as (r & Hrun & [[-> Hall] | (e & xe & -> & He & Hxe & Hre & Hte & Hall)]).
  - specialize (Hall k0 x0 Hk0 Hx0 Hr0). lia.
  - exists e, xe. split_and!; try done.
    by apply (bget_local me d bn s ph e xe).
Qed.

(** Two free slots with different stamps in an otherwise busy bucket: the
    one with the smaller stamp is recycled. *)
Lemma bget_recycles_older_of_two (me d bn : Z) (s : state)
    (ls : list (list nat)) (h : nat) (lh : list nat) (e1 e2 : nat)
    (x1 x2 : buf) :
  h = Z.to_nat (HASH bn) ->
  wf s ls ->
  ls !! h = Some lh ->
  (forall k x, k ∈ lh -> bcache_buf s !! k = Some x ->
     ~ (dev x = d /\ blockno x = bn)) ->
  e1 ∈ lh -> bcache_buf s !! e1 = Some x1 -> refcnt x1 = 0 ->
  e2 ∈ lh -> bcache_buf s !! e2 = Some x2 -> refcnt x2 = 0 ->
  (forall k, k ∈ lh -> evictable (bcache_buf s) k -> k = e1 \/ k = e2) ->
  timestamp x1 < timestamp x2 <= UINT_MAX ->
  bget me d bn s = Ret e1 (local_state me d bn h e1 x1 s).
Proof.
  intros Hhash Hwf Hh Hmiss He1 Hx1 Hr1 He2 Hx2 Hr2 Honly Hts.
  destruct (bget_recycles_lru me d bn s ls h lh e1 x1)
    as (e & xe & He & Hxe & Hre & Hmin & Hrun); try done; [lia |].
  destruct (Honly e He) as [-> | ->]; [by exists xe | |].
  - rewrite Hx1 in Hxe. by injection Hxe as <-.
  - rewrite Hx2 in Hxe. injection Hxe as <-.
    specialize (Hmin e1 x1 He1 Hx1 Hr1). lia.
Qed.

Lemma bget_recycles_older_of_two_example :
  bget 1 1 5 pool_two =
    Ret 1%nat (local_state 1 1 5 5 1 (Buf 1 1 31 (Sleeplock 0 0) 0 7 None)
                 pool_two).
Proof.
  apply (bget_recycles_older_of_two 1 1 5 pool_two lists_two 5 [0%nat; 1%nat]
           1 0 _ (Buf 1 1 18 (Sleeplock 0 0) 0 8 (Some 1%nat))); try reflexivity.
  - apply wf_check_sound. vm_compute. reflexivity.
  - intros k x Hk Hx [Hd Hb]. in_list Hk;
      vm_compute in Hx; injection Hx as <-; discriminate Hb.
  - apply list_elem_of_further, list_elem_of_here.
  - apply list_elem_of_here.
  - intros k Hk _. in_list Hk; auto.
  - vm_compute. split; [reflexivity | discriminate].
Qed.

(** C3 fails on the code at the largest stamp: the scan starts from
    [min = 0xffffffff] and compares with [<], so a free slot stamped
    2^32 - 1 is never a candidate.  In [pool_sentinel] bucket 5 holds the
    free slot 0, yet a miss in bucket 5 steals slot 1 from bucket 6. *)
Theorem bget_passes_over_stamp_uint_max :
  bucket pool_sentinel 5 [0%nat] /\
  evictable (bcache_buf pool_sentinel) 0 /\
  exists s',
    bget 1 1 5 pool_sentinel = Ret 1%nat s' /\
    bcache_buf s' !! 0%nat = bcache_buf pool_sentinel !! 0%nat /\
    chains s' =
      map Some [[]; []; []; []; []; [1%nat; 0%nat]; []; []; []; []; []; [];
                []].
Proof.
  split_and!.
  - eexists. split; [reflexivity |]. cbn. eauto.
  - eexists. split; reflexivity.
  - eexists. split_and!; vm_compute; reflexivity.
Qed.

(** ** Running out of slots *)

Lemma steal_scan_exhausts (n h i0 : nat) (s : state) :
  (forall k, (i0 <= k < i0 + n)%nat -> k <> h ->
     exists hk, map_head s !! k = Some hk /\
       first_free (steps (bcache_buf s)) (bcache_buf s) hk = Exit None) ->
  exists ks,
    steal_scan n h i0 s =
      Panic "bget: no buffers"
        (State (bcache_buf s) (map_head s) (ticks s) (trace s ++ handoffs ks)).
Proof.
  revert i0 s. induction n as [| n IH]; intros i0 s Hall.
  - exists []. cbn [steal_scan handoffs flat_map]. rewrite app_nil_r.
    by destruct s.
  - cbn [steal_scan]. destruct (decide (i0 = h)) as [-> | Hne].
    + apply IH. intros k Hk. apply Hall. lia.
    + destruct (Hall i0) as (hk & Hhk & Hnone); [lia | done |].
      mrun. unfold scan_free. rewrite bind_lift. norm. rewrite Hnone. mrun.
      match goal with |- context [steal_scan n h (S i0) ?s1] =>
        destruct (IH (S i0) s1) as (ks & Hrun) end.
      * intros k Hk. apply Hall. lia.
      * exists (i0 :: ks). rewrite Hrun. norm.
        cbn [handoffs flat_map]. by rewrite <- !app_assoc.
Qed.

(** On a miss with no free slot in any bucket [bget] panics. *)
Lemma bget_exhausted (me d bn : Z) (s : state) (ls : list (list nat))
    (h : nat) (lh : list nat) :
  h = Z.to_nat (HASH bn) ->
  wf s ls ->
  ls !! h = Some lh ->
  (forall k x, k ∈ lh -> bcache_buf s !! k = Some x ->
     ~ (dev x = d /\ blockno x = bn)) ->
  (forall j l k, ls !! j = Some l -> k ∈ l -> ~ evictable (bcache_buf s) k) ->
  exists ks,
    bget me d bn s = Panic "bget: no buffers" (exhausted_state h ks s).
Proof.
  intros -> Hwf Hh Hmiss Hnone.
  set (h := Z.to_nat (HASH bn)) in *.
  pose proof Hwf as (Hlen & Hb & _).
  destruct (Hb h lh Hh) as [(ph & Hph & Hlh) _].
  assert (Hf : find_cached (steps (bcache_buf s)) (bcache_buf s) d bn ph
               = Exit None).
  { eapply find_cached_miss; [exact Hlh | by eapply wf_lengths | exact Hmiss]. }
  assert (Hl : scan_lru (steps (bcache_buf s)) (bcache_buf s) UINT_MAX None ph
               = Exit None).
  { eapply scan_lru_none; eauto. }
  destruct (steal_scan_exhausts (Z.to_nat NBUCKET) h 0 (searching h s))
    as (ks & Hscan).
  { intros k Hk Hkh.
    destruct (lookup_lt_is_Some_2 ls k) as (lk & Hlk); [lia |].
    destruct (Hb k lk Hlk) as [(pk & Hpk & Hlk') _].
    exists pk. split; [exact Hpk |].
    eapply first_free_none; [exact Hlk' | by eapply wf_lengths | eauto]. }
  exists ks. rewrite (bget_miss me d bn s ph Hph Hf Hl). fold h.
  unfold bind at 1. rewrite Hscan. unfold exhausted_state. norm.
  by rewrite <- !app_assoc.
Qed.

(** C5 fails on the code for the same reason as C3: the free slot 0 of
    [pool_last_free] is stamped 2^32 - 1, the scan of its own bucket
    passes over it, the search of the other buckets does not look into
    bucket 5, and [bget] panics although a free slot exists. *)
Theorem bget_panics_beside_free_slot :
  bucket pool_last_free 5 [0%nat] /\
  evictable (bcache_buf pool_last_free) 0 /\
  bget 1 1 5 pool_last_free =
    Panic "bget: no buffers"
      (exhausted_state 5 [0; 1; 2; 3; 4; 6; 7; 8; 9; 10; 11; 12]%nat
         pool_last_free).
Proof.
  split_and!.
  - eexists. split; [reflexivity |]. cbn. eauto.
  - eexists. split; reflexivity.
  - vm_compute. reflexivity.
Qed.

(** ** The invariant holds in every reachable state *)

Lemma links_kept_refl (s : state) : links_kept s s.
Proof. by split. Qed.

Lemma links_kept_trans (s1 s2 s3 : state) :
  links_kept s1 s2 -> links_kept s2 s3 -> links_kept s1 s3.
Proof.
  intros [H1 N1] [H2 N2]. split; [congruence |].
  intros k. rewrite N2. apply N1.
Qed.

Lemma links_kept_wf (s s' : state) (ls : list (list nat)) :
  links_kept s s' -> wf s ls -> wf s' ls.
Proof. intros [Hh Hn]. by apply wf_ext. Qed.

Lemma links_kept_emit (e : event) : respects links_kept (emit e).
Proof. intros s. by split. Qed.

Lemma links_kept_insert (bufs : list buf) (b : nat) (x y : buf) (k : nat) :
  bufs !! b = Some x -> next y = next x ->
  next <$> <[b := y]> bufs !! k = next <$> bufs !! k.
Proof.
  intros Hb Hn. destruct (decide (b = k)) as [<- | Hne].
  - rewrite (lookup_store _ _ _ _ Hb), Hb. cbn. by rewrite Hn.
  - by rewrite list_lookup_insert_ne.
Qed.

Lemma links_kept_store (b : nat) (f : buf -> buf) :
  (forall x, next (f x) = next x) -> respects links_kept (store b f).
Proof.
  intros Hf s. unfold store.
  destruct (bcache_buf s !! b) as [x |] eqn:Hb; [| done].
  split; [done |]. intros k. norm. by apply (links_kept_insert _ _ x).
Qed.

Ltac links :=
  repeat first
    [ apply respects_bind; [exact links_kept_trans | | intros ?]
    | apply links_kept_store; intros []; reflexivity
    | apply links_kept_emit
    | apply respects_ret; exact links_kept_refl
    | apply respects_panic; exact links_kept_refl
    | apply respects_load; exact links_kept_refl
    | apply respects_load_head; exact links_kept_refl
    | apply respects_read_ticks; exact links_kept_refl
    | match goal with |- respects _ (if ?c then _ else _) => destruct c end
    | match goal with |- respects _ (let _ := _ in _) => cbv zeta end ].

Lemma links_kept_brelse (me : Z) (b : nat) : respects links_kept (brelse me b).
Proof. unfold brelse, holdingsleep, releasesleep, acquire, release. links. Qed.

Lemma links_kept_bwrite (me : Z) (b : nat) : respects links_kept (bwrite me b).
Proof. unfold bwrite, holdingsleep, virtio_disk_rw. links. Qed.

Lemma links_kept_bpin (b : nat) : respects links_kept (bpin b).
Proof. unfold bpin, acquire, release. links. Qed.

Lemma links_kept_bunpin (b : nat) : respects links_kept (bunpin b).
Proof. unfold bunpin, acquire, release. links. Qed.

Lemma links_kept_bread_tail (b : nat) :
  respects links_kept
    (x <- load b ;;
     if valid x =? 0 then
       virtio_disk_rw b false ;; store b (set_valid 1) ;; ret b
     else ret b).
Proof. unfold virtio_disk_rw. links. Qed.

Lemma first_free_in (bufs : list buf) (l : list nat) (p : option nat)
    (fuel : nat) (e : nat) :
  is_list bufs p l -> first_free fuel bufs p = Exit (Some e) ->
  exists l1 l2, l = l1 ++ e :: l2.
Proof.
  revert p fuel. induction l as [| a l IH]; intros p fuel Hl Hff.
  - cbn in Hl. subst p. by destruct fuel.
  - destruct Hl as (-> & x & Hx & Hl). destruct fuel as [| fuel]; [done |].
    cbn [first_free] in Hff. rewrite Hx in Hff.
    destruct (refcnt x =? 0).
    + injection Hff as <-. by exists [], l.
    + destruct (IH _ _ Hl Hff) as (l1 & l2 & ->). by exists (a :: l1), l2.
Qed.

Lemma hash_bound (bn : Z) : (Z.to_nat (HASH bn) < Z.to_nat NBUCKET)%nat.
Proof.
  unfold HASH. pose proof (Z.mod_pos_bound bn NBUCKET eq_refl). lia.
Qed.

Lemma bget_wf (me d bn : Z) (s s' : state) (b : nat) (ls : list (list nat)) :
  wf s ls -> bget me d bn s = Ret b s' -> exists ls', wf s' ls'.
Proof.
  intros Hwf Hrun. pose proof (bget_inv me d bn s) as Hinv.
  rewrite Hrun in Hinv.
  destruct Hinv as [hd x Hh Hf Hb -> | hd x Hh Hf Hl Hb -> |
                    hd hdj j ks sm x Hh Hf Hl Hj Hj13 Hhdj Hff Hst Hb ->].
  - exists ls. eapply wf_ext; [| | exact Hwf]; unfold hit_state; norm; [done |].
    intros k. by apply (links_kept_insert _ _ x).
  - exists ls. eapply wf_ext; [| | exact Hwf]; unfold local_state; norm; [done |].
    intros k. by apply (links_kept_insert _ _ x).
  - set (h := Z.to_nat (HASH bn)) in *.
    pose proof Hwf as (Hlen & Hbk & Hdis).
    destruct (lookup_lt_is_Some_2 ls j) as (lj & Hlj); [lia |].
    destruct (lookup_lt_is_Some_2 ls h) as (lh & Hlh);
      [pose proof (hash_bound bn); lia |].
    destruct (Hbk j lj Hlj) as [(pj & Hpj & Hlistj) Hndj].
    destruct (Hbk h lh Hlh) as [(ph & Hph & Hlisth) Hndh].
    rewrite Hhdj in Hpj. injection Hpj as <-.
    destruct (first_free_in _ _ _ _ _ Hlistj Hff) as (l1 & l2 & ->).
    destruct (first_free_evictable _ _ _ _ Hff) as (x0 & Hx0 & _).
    destruct (steal_moves j h b (found_state h j ks s) hdj ph l1 l2 lh x0)
      as (sm' & Hsteal & _ & _ & Hbi & Hbh & Hbo & _); try done.
    { intros k Hk. by apply (Hdis j h (l1 ++ b :: l2) lh k). }
    rewrite Hst in Hsteal. injection Hsteal as <-.
    exists (<[h := b :: lh]> (<[j := l1 ++ l2]> ls)).
    eapply wf_ext; [| | by eapply (wf_moved s sm)];
      unfold stolen_state; norm; [done |].
    intros k. by apply (links_kept_insert _ _ x).
Qed.

Lemma respects_links_wf {A} (m : M A) (s s' : state) (a : A)
    (ls : list (list nat)) :
  respects links_kept m -> wf s ls -> m s = Ret a s' -> wf s' ls.
Proof.
  intros Hm Hwf Hrun. specialize (Hm s). rewrite Hrun in Hm.
  by eapply links_kept_wf.
Qed.

Lemma run_wf (c : call) (s s' : state) (ls : list (list nat)) :
  wf s ls -> run c s = Ret tt s' -> exists ls', wf s' ls'.
Proof.
  intros Hwf. destruct c as [me d bn | me d bn | me b | me b | b | b];
    cbn [run]; intros Hrun.
  - unfold bind in Hrun.
    destruct (bget me d bn s) as [b s1 | | |] eqn:Hg; try discriminate.
    injection Hrun as <-. by eapply bget_wf.
  - unfold bread in Hrun. rewrite bind_bind in Hrun. unfold bind at 1 in Hrun.
    destruct (bget me d bn s) as [b s1 | | |] eqn:Hg; try discriminate.
    destruct (bget_wf _ _ _ _ _ _ _ Hwf Hg) as (ls1 & Hwf1).
    exists ls1. revert Hrun. apply respects_links_wf; [| exact Hwf1].
    apply respects_bind; [exact links_kept_trans | apply links_kept_bread_tail |].
    intros _. apply respects_ret, links_kept_refl.
  - exists ls. revert Hrun. apply respects_links_wf; [| exact Hwf].
    apply links_kept_bwrite.
  - exists ls. revert Hrun. apply respects_links_wf; [| exact Hwf].
    apply links_kept_brelse.
  - exists ls. revert Hrun. apply respects_links_wf; [| exact Hwf].
    apply links_kept_bpin.
  - exists ls. revert Hrun. apply respects_links_wf; [| exact Hwf].
    apply links_kept_bunpin.
Qed.

Lemma wf_linking (n : nat) :
  wf (linking n n) (rev (seq 0 n) :: replicate 12 []).
Proof.
  split_and!.
  - reflexivity.
  - intros i l Hl. destruct i as [| i].
    + injection Hl as <-. split.
      * exists (prev n). split; [reflexivity |]. by apply linked_is_list.
      * rewrite <- (Permutation_rev (seq 0 n)). apply NoDup_seq.
    + change (replicate 12 [] !! i = Some l) in Hl.
      apply lookup_replicate in Hl as [-> Hi]. split.
      * exists None. split; [| reflexivity].
        unfold linking. norm. rewrite list_lookup_insert_ne by lia.
        apply lookup_replicate_2. unfold NBUCKET. lia.
      * constructor.
  - intros i j li lj k Hij Hi Hj Hki Hkj.
    destruct i as [| i], j as [| j]; [done | | |].
    + change (replicate 12 [] !! j = Some lj) in Hj.
      apply lookup_replicate in Hj as [-> _]. by apply elem_of_nil in Hkj.
    + change (replicate 12 [] !! i = Some li) in Hi.
      apply lookup_replicate in Hi as [-> _]. by apply elem_of_nil in Hki.
    + change (replicate 12 [] !! i = Some li) in Hi.
      apply lookup_replicate in Hi as [-> _]. by apply elem_of_nil in Hki.
Qed.

(** Every reachable pool is partitioned into [NBUCKET] null-terminated,
    pairwise disjoint lists. *)
Lemma reachable_wf (s : state) : reachable s -> exists ls, wf s ls.
Proof.
  induction 1 as [n fuel s Hn Hrun | c s s' _ [ls Hwf] Hrun | t s _ [ls Hwf] Ht].
  - rewrite (binit_only n fuel s) by (done || (unfold NBUCKET in Hn; lia)).
    eexists. apply wf_linking.
  - by eapply run_wf.
  - exists ls. by eapply wf_ext; [| | exact Hwf].
Qed.

Lemma play_reachable (acts : list action) (s s' : state) :
  reachable s -> play acts s = Some s' -> reachable s'.
Proof.
  revert s. induction acts as [| [c | t] acts IH]; intros s Hs; cbn [play].
  - by intros [= <-].
  - destruct (run c s) as [[] s1 | | |] eqn:Hrun; try discriminate.
    apply IH. by eapply reach_call.
  - destruct ((ticks s <=? t) && (t <=? UINT_MAX)) eqn:Ht; [| discriminate].
    apply andb_true_iff in Ht as [H1%Z.leb_le H2%Z.leb_le].
    apply IH. by apply reach_tick.
Qed.

(** ** The largest stamp in a reachable pool *)

Lemma binit_thirteen : binit 14 (boot 13) = Ret tt (linking 13 13).
Proof.
  unfold binit. cbn [binit_outer]. unfold bind. rewrite <- linking_boot.
  rewrite (binit_inner_links 13 13 0 0 14) by lia. reflexivity.
Qed.

Lemma after_reachable (acts : list action) (s : state) :
  after acts = Some s -> reachable s.
Proof.
  apply play_reachable. apply (reach_binit 13 14); [| apply binit_thirteen].
  vm_compute. lia.
Qed.

(** A pool as in [pool_sentinel] arises from [binit] by calls and ticks:
    after [history_stamp] bucket 5 consists of the free slot 12, stamped
    2^32 - 1; a miss in bucket 5 then leaves slot 12 alone and steals
    slot 11 from bucket 0. *)
Lemma bget_passes_over_last_tick :
  reachable pool_stamped /\
  chains pool_stamped =
    map Some [[11; 10; 9; 8; 7; 6; 5; 4; 3; 2; 1; 0]%nat; []; []; []; [];
              [12%nat]; []; []; []; []; []; []; []] /\
  bcache_buf pool_stamped !! 12%nat
    = Some (Buf 0 1 5 (Sleeplock 0 0) 0 UINT_MAX None) /\
  exists s',
    bget 1 1 18 pool_stamped = Ret 11%nat s' /\
    bcache_buf s' !! 12%nat = bcache_buf pool_stamped !! 12%nat /\
    chains s' =
      map Some [[10; 9; 8; 7; 6; 5; 4; 3; 2; 1; 0]%nat; []; []; []; [];
                [11; 12]%nat; []; []; []; []; []; []; []].
Proof.
  split; [apply (after_reachable history_stamp); vm_compute; reflexivity |].
  split; [vm_compute; reflexivity |].
  split; [vm_compute; reflexivity |].
  eexists. split; [vm_compute; reflexivity |].
  split; vm_compute; reflexivity.
Qed.

(** A pool as in [pool_last_free] arises in the same way: after
    [history_busy] every slot of bucket 0 is held and bucket 5 consists
    of the free slot 12, stamped 2^32 - 1; [bget] then panics although a
    free slot exists. *)
Lemma bget_panics_with_free_slot :
  reachable pool_busy /\
  chains pool_busy =
    map Some [[11; 10; 9; 8; 7; 6; 5; 4; 3; 2; 1; 0]%nat; []; []; []; [];
              [12%nat]; []; []; []; []; []; []; []] /\
  map refcnt (bcache_buf pool_busy) = [1; 1; 1; 1; 1; 1; 1; 1; 1; 1; 1; 1; 0] /\
  bget 1 1 18 pool_busy =
    Panic "bget: no buffers"
      (exhausted_state 5 [0; 1; 2; 3; 4; 6; 7; 8; 9; 10; 11; 12]%nat
         pool_busy).
Proof.
  split; [apply (after_reachable history_busy); vm_compute; reflexivity |].
  split; [vm_compute; reflexivity |].
  split; vm_compute; reflexivity.
Qed.

(** ** Looking up a cached block *)


(** What the three scans found tells what is on the list. *)
Lemma find_cached_none_inv (bufs : list buf) (d bn : Z) (l : list nat)
    (p : option nat) (fuel : nat) :
  is_list bufs p l -> find_cached fuel bufs d bn p = Exit None ->
  forall k y, k ∈ l -> bufs !! k = Some y -> ~ (dev y = d /\ blockno y = bn).
Proof.
  revert p fuel. induction l as [| a l IH]; intros p fuel Hl Hrun k y Hk Hy.
  - by apply elem_of_nil in Hk.
  - destruct Hl as (-> & x & Hx & Hl). destruct fuel as [| fuel]; [done |].
    cbn [find_cached] in Hrun. rewrite Hx in Hrun.
    destruct ((dev x =? d) && (blockno x =? bn)) eqn:Hm; [done |].
    apply elem_of_cons in Hk as [-> | Hk].
    + rewrite Hx in Hy. injection Hy as <-. intros [H1 H2].
      apply andb_false_iff in Hm as [Hm%Z.eqb_neq | Hm%Z.eqb_neq]; done.
    + by eapply IH.
Qed.

Lemma find_cached_some_inv (bufs : list buf) (d bn : Z) (l : list nat)
    (p : option nat) (fuel : nat) (b : nat) :
  is_list bufs p l -> find_cached fuel bufs d bn p = Exit (Some b) ->
  exists l1 l2,
    l = l1 ++ b :: l2 /\
    forall k y, k ∈ l1 -> bufs !! k = Some y -> ~ (dev y = d /\ blockno y = bn).
Proof.
  revert p fuel. induction l as [| a l IH]; intros p fuel Hl Hrun.
  - cbn in Hl. subst p. by destruct fuel.
  - destruct Hl as (-> & x & Hx & Hl). destruct fuel as [| fuel]; [done |].
    cbn [find_cached] in Hrun. rewrite Hx in Hrun.
    destruct ((dev x =? d) && (blockno x =? bn)) eqn:Hm.
    + injection Hrun as <-. exists [], l. split; [done |].
      intros k y Hk. by apply elem_of_nil in Hk.
    + destruct (IH _ _ Hl Hrun) as (l1 & l2 & -> & Hmiss).
      exists (a :: l1), l2. split; [done |].
      intros k y [-> | Hk]%elem_of_cons Hy; [| by eapply Hmiss].
      rewrite Hx in Hy. injection Hy as <-. intros [H1 H2].
      apply andb_false_iff in Hm as [Hm%Z.eqb_neq | Hm%Z.eqb_neq]; done.
Qed.

(** On a null-terminated list each scan comes to an end. *)
Lemma find_cached_total (bufs : list buf) (d bn : Z) (l : list nat)
    (p : option nat) (fuel : nat) :
  is_list bufs p l -> (length l < fuel)%nat ->
  exists r, find_cached fuel bufs d bn p = Exit r.
Proof.
  revert p fuel. induction l as [| a l IH]; intros p fuel Hl Hf.
  - cbn in Hl. subst p. destruct fuel; [cbn in Hf; lia |]. by exists None.
  - destruct Hl as (-> & x & Hx & Hl).
    destruct fuel as [| fuel]; [cbn in Hf; lia |].
    cbn [find_cached]. rewrite Hx.
    destruct ((dev x =? d) && (blockno x =? bn)); [by eexists |].
    apply (IH _ _ Hl). cbn in Hf. lia.
Qed.

Lemma first_free_total (bufs : list buf) (l : list nat) (p : option nat)
    (fuel : nat) :
  is_list bufs p l -> (length l < fuel)%nat ->
  exists r, first_free fuel bufs p = Exit r.
Proof.
  revert p fuel. induction l as [| a l IH]; intros p fuel Hl Hf.
  - cbn in Hl. subst p. destruct fuel; [cbn in Hf; lia |]. by exists None.
  - destruct Hl as (-> & x & Hx & Hl).
    destruct fuel as [| fuel]; [cbn in Hf; lia |].
    cbn [first_free]. rewrite Hx.
    destruct (refcnt x =? 0); [by eexists |].
    apply (IH _ _ Hl). cbn in Hf. lia.
Qed.

Lemma first_free_none_inv (bufs : list buf) (l : list nat) (p : option nat)
    (fuel : nat) :
  is_list bufs p l -> first_free fuel bufs p = Exit None ->
  forall k, k ∈ l -> ~ evictable bufs k.
Proof.
  revert p fuel. induction l as [| a l IH]; intros p fuel Hl Hrun k Hk.
  - by apply elem_of_nil in Hk.
  - destruct Hl as (-> & x & Hx & Hl). destruct fuel as [| fuel]; [done |].
    cbn [first_free] in Hrun. rewrite Hx in Hrun.
    destruct (refcnt x =? 0) eqn:Hr; [done |].
    apply elem_of_cons in Hk as [-> | Hk]; [| by eapply IH].
    intros (y & Hy & Hy0). rewrite Hx in Hy. injection Hy as <-.
    apply Z.eqb_neq in Hr. done.
Qed.



Lemma first_free_some_inv (bufs : list buf) (l : list nat) (p : option nat)
    (fuel : nat) (e : nat) :
  is_list bufs p l -> first_free fuel bufs p = Exit (Some e) ->
  exists l1 l2,
    l = l1 ++ e :: l2 /\ forall k, k ∈ l1 -> ~ evictable bufs k.
Proof.
  revert p fuel. induction l as [| a l IH]; intros p fuel Hl Hff.
  - cbn in Hl. subst p. by destruct fuel.
  - destruct Hl as (-> & x & Hx & Hl). destruct fuel as [| fuel]; [done |].
    cbn [first_free] in Hff. rewrite Hx in Hff.
    destruct (refcnt x =? 0) eqn:Hr.
    + injection Hff as <-. exists [], l. split; [done |].
      intros k Hk. by apply elem_of_nil in Hk.
    + destruct (IH _ _ Hl Hff) as (l1 & l2 & -> & Hno).
      exists (a :: l1), l2. split; [done |].
      intros k [-> | Hk]%elem_of_cons; [| by apply Hno].
      intros (y & Hy & Hy0). rewrite Hx in Hy. injection Hy as <-.
      apply Z.eqb_neq in Hr. done.
Qed.

(** The steal path on a pool that satisfies the invariant. *)
Lemma stolen_shape (s sm : state) (ls : list (list nat)) (h j b : nat)
    (ks : list nat) (hdj : option nat) :
  wf s ls -> j <> h ->
  (j < Z.to_nat NBUCKET)%nat -> (h < Z.to_nat NBUCKET)%nat ->
  map_head s !! j = Some hdj ->
  first_free (steps (bcache_buf s)) (bcache_buf s) hdj = Exit (Some b) ->
  steal j h b (found_state h j ks s) = Ret tt sm ->
  exists l1 l2 lh,
    ls !! j = Some (l1 ++ b :: l2) /\ ls !! h = Some lh /\
    (forall k, k ∈ l1 -> ~ evictable (bcache_buf s) k) /\
    bucket sm h (b :: lh) /\
    wf sm (<[h := b :: lh]> (<[j := l1 ++ l2]> ls)) /\
    same_fields (bcache_buf s) (bcache_buf sm) /\
    trace sm = trace (found_state h j ks s) /\ ticks sm = ticks s.
Proof.
  intros Hwf Hjh Hj13 Hh13 Hhdj Hff Hst.
  pose proof Hwf as (Hlen & Hbk & Hdis).
  destruct (lookup_lt_is_Some_2 ls j) as (lj & Hlj); [lia |].
  destruct (lookup_lt_is_Some_2 ls h) as (lh & Hlh); [lia |].
  destruct (Hbk j lj Hlj) as [(pj & Hpj & Hlistj) Hndj].
  destruct (Hbk h lh Hlh) as [(ph & Hph & Hlisth) Hndh].
  rewrite Hhdj in Hpj. injection Hpj as <-.
  destruct (first_free_some_inv _ _ _ _ _ Hlistj Hff) as (l1 & l2 & -> & Hno).
  destruct (first_free_evictable _ _ _ _ Hff) as (x0 & Hx0 & _).
  destruct (steal_moves j h b (found_state h j ks s) hdj ph l1 l2 lh x0)
    as (sm' & Hsteal & Htr & Htk & Hbi & Hbh & Hbo & Hsf); try done.
  { intros k Hk. by apply (Hdis j h (l1 ++ b :: l2) lh k). }
  rewrite Hst in Hsteal. injection Hsteal as <-.
  exists l1, l2, lh. split_and!; try done.
  by eapply (wf_moved s sm).
Qed.





(** ** Reading through the cache *)


Lemma bread_inv (me d bn : Z) (s s2 : state) (b : nat) :
  bread me d bn s = Ret b s2 ->
  exists s1 x,
    bget me d bn s = Ret b s1 /\ bcache_buf s1 !! b = Some x /\
    s2 = (if valid x =? 0 then loaded b x s1 else s1).
Proof.
  intros Hrun. unfold bread in Hrun. unfold bind at 1 in Hrun.
  destruct (bget me d bn s) as [b1 s1 | | |] eqn:Hg; try discriminate.
  destruct (bcache_buf s1 !! b1) as [x |] eqn:Hb.
  2:{ unfold bind, load in Hrun. by rewrite Hb in Hrun. }
  rewrite (bind_load _ _ _ _ Hb) in Hrun. exists s1, x.
  destruct (valid x =? 0).
  - revert Hrun. mrun. unfold ret. by intros [= <- <-].
  - revert Hrun. unfold ret. by intros [= <- <-].
Qed.

(** X3: [bread] of a block that is not on the list of its bucket ends
    with the caller's [acquiresleep] on the slot followed by one disk
    read of that slot; the slot then carries the block with [valid = 1]
    and [refcnt = 1], locked by the caller. *)
Theorem bread_miss_reads_disk (me d bn : Z) (s s2 : state) (b : nat)
    (hd : option nat) :
  map_head s !! Z.to_nat (HASH bn) = Some hd ->
  find_cached (steps (bcache_buf s)) (bcache_buf s) d bn hd = Exit None ->
  bread me d bn s = Ret b s2 ->
  exists x tr,
    bcache_buf s2 !! b = Some x /\
    valid x = 1 /\ dev x = d /\ blockno x = bn /\ refcnt x = 1 /\
    holding me x = true /\
    trace s2 = tr ++ [EvAcquireSleep b; EvDiskRW b false].
Proof.
  intros Hh Hmiss Hrun.
  destruct (bread_inv _ _ _ _ _ _ Hrun) as (s1 & x & Hg & Hb & ->).
  pose proof (bget_inv me d bn s) as Hinv. rewrite Hg in Hinv.
  destruct Hinv as [hd' x' Hh' Hf Hb' -> | hd' x' Hh' Hf Hl Hb' -> |
                    hd' hdj j ks sm x' Hh' Hf Hl Hj Hj13 Hhdj Hff Hst Hb' ->].
  - rewrite Hh in Hh'. injection Hh' as <-. rewrite Hmiss in Hf. discriminate.
  - revert Hb. unfold local_state. norm.
    rewrite (lookup_store _ _ _ _ Hb'). intros [= <-].
    cbn [valid claimed Z.eqb]. unfold loaded. norm.
    exists (set_valid 1 (claimed me d bn x')). eexists.
    split_and!; [mem | done | done | done | done | |].
    + unfold holding. cbn. by rewrite Z.eqb_refl.
    + rewrite <- app_assoc. cbn [app].
      by instantiate (1 := trace s ++ [_; _]); rewrite <- app_assoc.
  - revert Hb. unfold stolen_state. norm.
    rewrite (lookup_store _ _ _ _ Hb'). intros [= <-].
    cbn [valid claimed Z.eqb]. unfold loaded. norm.
    exists (set_valid 1 (claimed me d bn x')). eexists.
    split_and!; [mem | done | done | done | done | |].
    + unfold holding. cbn. by rewrite Z.eqb_refl.
    + rewrite <- app_assoc. cbn [app].
      by instantiate (1 := trace sm ++ [_; _; _]); rewrite <- app_assoc.
Qed.

Lemma bread_miss_reads_disk_witness :
  exists s2 x tr,
    bread 3 1 5 pool_two = Ret 1%nat s2 /\
    bcache_buf s2 !! 1%nat = Some x /\ valid x = 1 /\ blockno x = 5 /\
    trace s2 = tr ++ [EvAcquireSleep 1; EvDiskRW 1 false].
Proof.
  assert (Hh : map_head pool_two !! Z.to_nat (HASH 5) = Some (Some 0%nat))
    by (vm_compute; reflexivity).
  assert (Hf : find_cached (steps (bcache_buf pool_two)) (bcache_buf pool_two)
                 1 5 (Some 0%nat) = Exit None)
    by (vm_compute; reflexivity).
  assert (H : exists s2, bread 3 1 5 pool_two = Ret 1%nat s2)
    by (eexists; vm_compute; reflexivity).
  destruct H as (s2 & Hrun).
  destruct (bread_miss_reads_disk 3 1 5 pool_two s2 1 _ Hh Hf Hrun)
    as (x & tr & Hx & Hv & _ & Hb & _ & _ & Htr).
  by exists s2, x, tr.
Defined.



(** ** Pinning and releasing *)

Lemma uint_succ_pred (r : Z) : 0 <= r < 2 ^ 32 -> uint (uint (r + 1) - 1) = r.
Proof.
  intros Hr. unfold uint.
  destruct (decide (r = 2 ^ 32 - 1)) as [-> | Hne]; [reflexivity |].
  rewrite (Z.mod_small (r + 1)) by lia.
  replace (r + 1 - 1) with r by lia. apply Z.mod_small. lia.
Qed.

(** X5: [bpin] followed by [bunpin] on the same slot puts the pool back
    as it was, for every count a [uint] can hold (also 2^32 - 1, where
    the increment wraps to 0 and the decrement wraps back); only the
    two lock/unlock pairs are added to the trace. *)
Theorem bpin_bunpin (b : nat) (s : state) (x : buf) :
  bcache_buf s !! b = Some x ->
  0 <= refcnt x < 2 ^ 32 ->
  (bpin b ;; bunpin b) s =
    Ret tt (State (bcache_buf s) (map_head s) (ticks s)
              (trace s ++ [EvAcquire (map_lock (Z.to_nat (HASH (blockno x))));
                           EvRelease (map_lock (Z.to_nat (HASH (blockno x))));
                           EvAcquire (map_lock (Z.to_nat (HASH (blockno x))));
                           EvRelease (map_lock (Z.to_nat (HASH (blockno x))))])).
Proof.
  intros Hb Hr. unfold bpin, bunpin. cbv zeta. mrun. unfold emit. norm.
  cbn [blockno refcnt set_refcnt]. rewrite uint_succ_pred by exact Hr.
  rewrite list_insert_insert_eq.
  replace (set_refcnt (refcnt x) (set_refcnt (uint (refcnt x + 1)) x))
    with x by (by destruct x).
  rewrite (list_insert_id _ _ _ Hb). by rewrite <- !app_assoc.
Qed.

Lemma bpin_bunpin_witness :
  (bpin 0 ;; bunpin 0) pool_pinned =
    Ret tt (State (bcache_buf pool_pinned) (map_head pool_pinned) 9
              [EvAcquire (map_lock 0); EvRelease (map_lock 0);
               EvAcquire (map_lock 0); EvRelease (map_lock 0)]).
Proof.
  apply (bpin_bunpin 0 pool_pinned (Buf 1 1 0 (Sleeplock 0 0) 1 3 None)).
  - reflexivity.
  - vm_compute. split; [discriminate | reflexivity].
Defined.

Lemma bget_gives_lock (me d bn : Z) (s s1 : state) (b : nat) :
  bget me d bn s = Ret b s1 ->
  exists x1, bcache_buf s1 !! b = Some x1 /\ lock x1 = Sleeplock 1 me.
Proof.
  intros Hrun. pose proof (bget_inv me d bn s) as Hinv. rewrite Hrun in Hinv.
  destruct Hinv as [hd x Hh Hf Hb -> | hd x Hh Hf Hl Hb -> |
                    hd hdj j ks sm x Hh Hf Hl Hj Hj13 Hhdj Hff Hst Hb ->];
    eexists; (split; [unfold hit_state, local_state, stolen_state; norm;
                      by eapply lookup_store | reflexivity]).
Qed.

Lemma holding_own (me : Z) (x : buf) :
  lock x = Sleeplock 1 me -> holding me x = true.
Proof. intros H. unfold holding. rewrite H. cbn. by rewrite Z.eqb_refl. Qed.

Lemma brelse_run (me : Z) (b : nat) (s : state) (x : buf) :
  bcache_buf s !! b = Some x -> holding me x = true ->
  brelse me b s =
    Ret tt
      (State
         (<[b := (if uint (refcnt x - 1) =? 0
                  then set_timestamp (ticks s) else id)
                   (set_refcnt (uint (refcnt x - 1))
                      (set_lock (Sleeplock 0 0) x))]> (bcache_buf s))
         (map_head s) (ticks s)
         (trace s ++
            [EvReleaseSleep b;
             EvAcquire (map_lock (Z.to_nat (HASH (blockno x))))] ++
            (if uint (refcnt x - 1) =? 0
             then [EvAcquire tickslock; EvRelease tickslock] else []) ++
            [EvRelease (map_lock (Z.to_nat (HASH (blockno x))))])).
Proof.
  intros Hb Hh. unfold brelse. mrun. rewrite Hh. cbn [negb]. mrun.
  cbn [refcnt set_refcnt set_lock].
  destruct (uint (refcnt x - 1) =? 0); mrun; unfold emit; norm;
    rewrite ?list_insert_insert_eq, <- ?app_assoc; reflexivity.
Qed.

(** X6: the process to which [bget] returned a slot can release it:
    [brelse] returns, takes one off the count (modulo 2^32) and frees the
    content lock.  After that the slot is no longer the caller's: a
    second [brelse] and a [bwrite] both panic. *)
Theorem brelse_once (me d bn : Z) (s s1 : state) (b : nat) :
  bget me d bn s = Ret b s1 ->
  exists x1 s2 x2,
    bcache_buf s1 !! b = Some x1 /\
    brelse me b s1 = Ret tt s2 /\
    bcache_buf s2 !! b = Some x2 /\
    refcnt x2 = uint (refcnt x1 - 1) /\
    lock x2 = Sleeplock 0 0 /\
    brelse me b s2 = Panic "brelse" s2 /\
    bwrite me b s2 = Panic "bwrite" s2.
Proof.
  intros Hrun.
  destruct (bget_gives_lock _ _ _ _ _ _ Hrun) as (x1 & Hb1 & Hlock).
  pose proof (brelse_run me b s1 x1 Hb1 (holding_own _ _ Hlock)) as Hrel.
  exists x1. eexists. eexists. split; [exact Hb1 |].
  split; [exact Hrel |]. norm.
  split; [by eapply lookup_store |].
  split; [by destruct (uint (refcnt x1 - 1) =? 0) |].
  split; [by destruct (uint (refcnt x1 - 1) =? 0) |].
  split.
  - unfold brelse, holdingsleep. rewrite bind_bind.
    erewrite bind_load by (norm; by eapply lookup_store).
    rewrite bind_ret. unfold holding.
    by destruct (uint (refcnt x1 - 1) =? 0).
  - unfold bwrite, holdingsleep. rewrite bind_bind.
    erewrite bind_load by (norm; by eapply lookup_store).
    rewrite bind_ret. unfold holding.
    by destruct (uint (refcnt x1 - 1) =? 0).
Qed.

Lemma brelse_once_witness :
  exists s1 s2,
    bget 3 1 31 pool_two = Ret 1%nat s1 /\
    brelse 3 1 s1 = Ret tt s2 /\
    brelse 3 1 s2 = Panic "brelse" s2.
Proof.
  assert (H : exists s1, bget 3 1 31 pool_two = Ret 1%nat s1)
    by (eexists; vm_compute; reflexivity).
  destruct H as (s1 & Hrun).
  destruct (brelse_once 3 1 31 pool_two s1 1 Hrun)
    as (x1 & s2 & x2 & _ & H1 & _ & _ & _ & H2 & _).
  by exists s1, s2.
Defined.

(** ** No slot is lost *)

Lemma lookup_shape_length {A B} (f : A -> B) (l l' : list A) :
  (forall k, f <$> l' !! k = f <$> l !! k) -> length l' = length l.
Proof.
  intros H.
  destruct (Nat.lt_trichotomy (length l') (length l)) as [Hlt | [Heq | Hgt]];
    [| done |].
  - specialize (H (length l')).
    rewrite (lookup_ge_None_2 l' (length l')) in H by lia.
    destruct (lookup_lt_is_Some_2 l (length l') Hlt) as (y & Hy).
    by rewrite Hy in H.
  - specialize (H (length l)).
    rewrite (lookup_ge_None_2 l (length l)) in H by lia.
    destruct (lookup_lt_is_Some_2 l' (length l) Hgt) as (y & Hy).
    by rewrite Hy in H.
Qed.

Lemma links_kept_covers (s s' : state) (ls : list (list nat)) :
  links_kept s s' -> covers s ls -> covers s' ls.
Proof.
  intros [_ Hn] Hc k Hk. apply Hc.
  by rewrite <- (lookup_shape_length next _ _ Hn).
Qed.

Lemma covers_moved (s sm : state) (ls : list (list nat)) (i h e : nat)
    (l1 l2 lh : list nat) :
  covers s ls -> i <> h ->
  ls !! i = Some (l1 ++ e :: l2) -> ls !! h = Some lh ->
  length (bcache_buf sm) = length (bcache_buf s) ->
  covers sm (<[h := e :: lh]> (<[i := l1 ++ l2]> ls)).
Proof.
  intros Hc Hih Hi Hh Hlen k Hk. rewrite Hlen in Hk.
  destruct (Hc k Hk) as (a & l & Ha & Hka).
  assert (Hhlt : (h < length (<[i := l1 ++ l2]> ls))%nat)
    by (rewrite length_insert; by eapply lookup_lt_Some).
  destruct (decide (k = e)) as [-> | Hke].
  - exists h, (e :: lh). split; [by apply list_lookup_insert_eq |].
    apply list_elem_of_here.
  - destruct (decide (a = h)) as [-> | Hah].
    + exists h, (e :: lh). split; [by apply list_lookup_insert_eq |].
      rewrite Hh in Ha. injection Ha as <-. by apply list_elem_of_further.
    + destruct (decide (a = i)) as [-> | Hai].
      * exists i, (l1 ++ l2). split.
        -- rewrite list_lookup_insert_ne by done.
           apply list_lookup_insert_eq. by eapply lookup_lt_Some.
        -- rewrite Hi in Ha. injection Ha as <-.
           apply elem_of_app in Hka as [Hka | Hka]; apply elem_of_app;
             [by left | right].
           by apply elem_of_cons in Hka as [-> | Hka].
      * exists a, l. split; [| done]. by rewrite !list_lookup_insert_ne.
Qed.

Lemma bget_partition (me d bn : Z) (s s' : state) (b : nat)
    (ls : list (list nat)) :
  wf s ls -> covers s ls -> bget me d bn s = Ret b s' ->
  exists ls', wf s' ls' /\ covers s' ls'.
Proof.
  intros Hwf Hc Hrun. pose proof (bget_inv me d bn s) as Hinv.
  rewrite Hrun in Hinv.
  destruct Hinv as [hd x Hh Hf Hb -> | hd x Hh Hf Hl Hb -> |
                    hd hdj j ks sm x Hh Hf Hl Hj Hj13 Hhdj Hff Hst Hb ->].
  - assert (Hk : links_kept s (hit_state me (Z.to_nat (HASH bn)) b x s)).
    { split; [done |]. intros k. unfold hit_state. norm.
      by apply (links_kept_insert _ _ x). }
    exists ls. split; [by eapply links_kept_wf | by eapply links_kept_covers].
  - assert (Hk : links_kept s (local_state me d bn (Z.to_nat (HASH bn)) b x s)).
    { split; [done |]. intros k. unfold local_state. norm.
      by apply (links_kept_insert _ _ x). }
    exists ls. split; [by eapply links_kept_wf | by eapply links_kept_covers].
  - destruct (stolen_shape s sm ls (Z.to_nat (HASH bn)) j b ks hdj)
      as (l1 & l2 & lh & Hlj & Hlh & _ & _ & Hwfm & Hsf & _); try done.
    { apply hash_bound. }
    assert (Hk : links_kept sm
                   (stolen_state me d bn (Z.to_nat (HASH bn)) j b x sm)).
    { split; [done |]. intros k. unfold stolen_state. norm.
      by apply (links_kept_insert _ _ x). }
    eexists. split; [by eapply links_kept_wf |].
    eapply links_kept_covers; [exact Hk |].
    eapply covers_moved; try done.
    symmetry. by apply (lookup_shape_length (set_next None)).
Qed.

Lemma respects_links_covers {A} (m : M A) (s s' : state) (a : A)
    (ls : list (list nat)) :
  respects links_kept m -> covers s ls -> m s = Ret a s' -> covers s' ls.
Proof.
  intros Hm Hc Hrun. specialize (Hm s). rewrite Hrun in Hm.
  by eapply links_kept_covers.
Qed.

Lemma run_partition (c : call) (s s' : state) (ls : list (list nat)) :
  wf s ls -> covers s ls -> run c s = Ret tt s' ->
  exists ls', wf s' ls' /\ covers s' ls'.
Proof.
  intros Hwf Hc.
  assert (Hsimple : forall m : M unit,
            respects links_kept m -> m s = Ret tt s' ->
            exists ls', wf s' ls' /\ covers s' ls').
  { intros m Hm Hrun. exists ls.
    split; [by eapply respects_links_wf | by eapply respects_links_covers]. }
  destruct c as [me d bn | me d bn | me b | me b | b | b]; cbn [run].
  - intros Hrun. unfold bind in Hrun.
    destruct (bget me d bn s) as [b s1 | | |] eqn:Hg; try discriminate.
    injection Hrun as <-. by eapply bget_partition.
  - intros Hrun. unfold bread in Hrun. rewrite bind_bind in Hrun.
    unfold bind at 1 in Hrun.
    destruct (bget me d bn s) as [b s1 | | |] eqn:Hg; try discriminate.
    destruct (bget_partition _ _ _ _ _ _ _ Hwf Hc Hg) as (ls1 & Hwf1 & Hc1).
    assert (Htail : respects links_kept
              (bind (x <- load b ;;
                     if valid x =? 0 then
                       virtio_disk_rw b false ;; store b (set_valid 1) ;; ret b
                     else ret b) (fun _ : nat => ret tt))).
    { apply respects_bind;
        [exact links_kept_trans | apply links_kept_bread_tail |].
      intros _. apply respects_ret, links_kept_refl. }
    exists ls1.
    split; [by eapply respects_links_wf | by eapply respects_links_covers].
  - apply Hsimple, links_kept_bwrite.
  - apply Hsimple, links_kept_brelse.
  - apply Hsimple, links_kept_bpin.
  - apply Hsimple, links_kept_bunpin.
Qed.

(** X7: in every state reachable from [binit] (on a pool of at least 13
    slots) by calls that return and by ticks, the thirteen bucket lists
    are null-terminated, free of repetitions and pairwise disjoint, and
    every slot of the pool is on one of them: slots are neither lost nor
    shared, whatever is stolen. *)
Theorem reachable_partition (s : state) :
  reachable s -> exists ls, wf s ls /\ covers s ls.
Proof.
  induction 1 as [n fuel s Hn Hrun | c s s' _ (ls & Hwf & Hc) Hrun |
                  t s _ (ls & Hwf & Hc) Ht].
  - rewrite (binit_only n fuel s) by (done || (unfold NBUCKET in Hn; lia)).
    eexists. split; [apply wf_linking |].
    intros k Hk. exists 0%nat, (rev (seq 0 n)). split; [done |].
    unfold linking in Hk. cbn [bcache_buf] in Hk.
    rewrite linked_length in Hk by done.
    rewrite <- (Permutation_rev (seq 0 n)). apply elem_of_seq. lia.
  - by eapply run_partition.
  - exists ls. split; [by eapply wf_ext; [| | exact Hwf] | exact Hc].
Qed.

Lemma reachable_partition_witness :
  exists ls, wf pool_busy ls /\ covers pool_busy ls.
Proof.
  apply reachable_partition. apply (after_reachable history_busy).
  vm_compute. reflexivity.
Defined.

(** ** bget comes to an end *)

Lemma steal_scan_total (n h i0 : nat) (s : state) :
  (forall k, (i0 <= k < i0 + n)%nat -> k <> h ->
     exists hk r, map_head s !! k = Some hk /\
       first_free (steps (bcache_buf s)) (bcache_buf s) hk = Exit r) ->
  (exists j e s', steal_scan n h i0 s = Ret (j, e) s') \/
  (exists s', steal_scan n h i0 s = Panic "bget: no buffers" s').
Proof.
  revert i0 s. induction n as [| n IH]; intros i0 s Hall.
  - right. by eexists.
  - cbn [steal_scan]. destruct (decide (i0 = h)) as [-> | Hne].
    + apply IH. intros k Hk. apply Hall. lia.
    + destruct (Hall i0) as (hk & r & Hhk & Hr); [lia | done |].
      mrun. unfold scan_free. rewrite bind_lift. norm. rewrite Hr.
      destruct r as [e |]; [left; by do 3 eexists |].
      mrun. apply IH. intros k Hk Hkh. norm. apply Hall; [lia | done].
Qed.

Lemma bget_total (me d bn : Z) (s : state) (ls : list (list nat)) :
  wf s ls ->
  (exists b s', bget me d bn s = Ret b s') \/
  (exists s', bget me d bn s = Panic "bget: no buffers" s').
Proof.
  intros Hwf. pose proof Hwf as (Hlen & Hbk & Hdis).
  pose proof (hash_bound bn) as Hh13.
  destruct (lookup_lt_is_Some_2 ls (Z.to_nat (HASH bn))) as (lh & Hlh); [lia |].
  pose proof (wf_lengths _ _ _ _ Hwf Hlh) as Hlenh.
  destruct (Hbk _ lh Hlh) as [(ph & Hph & Hlisth) Hndh].
  destruct (find_cached_total (bcache_buf s) d bn lh ph _ Hlisth Hlenh)
    as ([b |] & Hf).
  { destruct (find_cached_some _ _ _ _ _ _ Hf) as (x & Hb & _).
    left. do 2 eexists. by apply (bget_hit me d bn s ph b x). }
  destruct (scan_lru_spec _ _ _ _ UINT_MAX None Hlisth Hlenh)
    as (r & Hl & [[-> _] | (e & xe & -> & _ & Hxe & _)]).
  2:{ left. do 2 eexists. by apply (bget_local me d bn s ph e xe). }
  rewrite (bget_miss me d bn s ph Hph Hf Hl).
  set (h := Z.to_nat (HASH bn)) in *.
  destruct (steal_scan_total (Z.to_nat NBUCKET) h 0 (searching h s))
    as [(j & e & sf & Hscan) | (sf & Hscan)].
  { intros k Hk Hkh.
    destruct (lookup_lt_is_Some_2 ls k) as (lk & Hlk); [lia |].
    destruct (Hbk k lk Hlk) as [(pk & Hpk & Hlk') _].
    destruct (first_free_total (bcache_buf s) lk pk
                (steps (bcache_buf s)) Hlk') as (r & Hr);
      [by eapply wf_lengths |].
    by exists pk, r. }
  - left. unfold bind at 1. rewrite Hscan.
    pose proof (steal_scan_spec (Z.to_nat NBUCKET) h 0 (searching h s)) as Hs.
    rewrite Hscan in Hs.
    destruct Hs as (ks & hdj & Hsf_eq & Hjh & Hj & Hhdj & Hff).
    revert Hhdj Hff. norm. intros Hhdj Hff.
    assert (Hbufs : bcache_buf sf = bcache_buf s) by (by rewrite Hsf_eq).
    assert (Hheads : map_head sf = map_head s) by (by rewrite Hsf_eq).
    destruct (lookup_lt_is_Some_2 ls j) as (lj & Hlj); [lia |].
    destruct (Hbk j lj Hlj) as [(pj & Hpj & Hlistj) Hndj].
    rewrite Hhdj in Hpj. injection Hpj as <-.
    destruct (first_free_some_inv _ _ _ _ _ Hlistj Hff) as (l1 & l2 & -> & _).
    destruct (first_free_evictable _ _ _ _ Hff) as (x0 & Hx0 & _).
    destruct (steal_moves j h e sf hdj ph l1 l2 lh x0)
      as (sm & Hsteal & _ & _ & _ & _ & _ & Hsf);
      rewrite ?Hbufs, ?Hheads; try done.
    { intros k Hk. by apply (Hdis j h (l1 ++ e :: l2) lh k). }
    rewrite Hbufs in Hsf.
    unfold bind at 1. rewrite Hsteal.
    destruct (same_fields_lookup _ _ _ _ Hsf Hx0) as (x & Hx & _).
    mrun. rewrite (evict_ret _ _ _ _ _ _ x) by (norm; exact Hx).
    by do 2 eexists.
  - right. unfold bind at 1. rewrite Hscan. by eexists.
Qed.

(** X8: in every reachable state [bget] comes to an end without leaving
    the pool: its loops stop and every pointer it follows is null or a
    slot, so it either returns a slot or panics with "bget: no
    buffers". *)
Theorem bget_terminates (me d bn : Z) (s : state) :
  reachable s ->
  (exists b s', bget me d bn s = Ret b s') \/
  (exists s', bget me d bn s = Panic "bget: no buffers" s').
Proof.
  intros Hr. destruct (reachable_wf s Hr) as (ls & Hwf).
  by eapply bget_total.
Qed.

Lemma bget_terminates_witness :
  (exists b s', bget 1 1 18 pool_stamped = Ret b s') \/
  (exists s', bget 1 1 18 pool_stamped = Panic "bget: no buffers" s').
Proof.
  apply bget_terminates. apply (after_reachable history_stamp).
  vm_compute. reflexivity.
Defined.

(** ** When bget gives up *)

(** X9: on a pool that satisfies the invariant, [bget] panics exactly
    when the block is not on the list of its bucket [h], every free slot
    of bucket [h] is stamped 2^32 - 1 or more, and no other bucket has a
    free slot. *)
Theorem bget_panics_iff (me d bn : Z) (s : state) (ls : list (list nat))
    (h : nat) (lh : list nat) :
  h = Z.to_nat (HASH bn) ->
  wf s ls ->
  ls !! h = Some lh ->
  (exists s', bget me d bn s = Panic "bget: no buffers" s') <->
  (forall k x, k ∈ lh -> bcache_buf s !! k = Some x ->
     ~ (dev x = d /\ blockno x = bn)) /\
  (forall k x, k ∈ lh -> bcache_buf s !! k = Some x -> refcnt x = 0 ->
     UINT_MAX <= timestamp x) /\
  (forall j l k, j <> h -> ls !! j = Some l -> k ∈ l ->
     ~ evictable (bcache_buf s) k).
Proof.
  intros -> Hwf Hlh. pose proof Hwf as (Hlen & Hbk & Hdis).
  pose proof (wf_lengths _ _ _ _ Hwf Hlh) as Hlenh.
  destruct (Hbk _ lh Hlh) as [(ph & Hph & Hlisth) Hndh].
  split.
  - intros (s' & Hrun).
    destruct (find_cached_total (bcache_buf s) d bn lh ph _ Hlisth Hlenh)
      as ([b |] & Hf).
    { destruct (find_cached_some _ _ _ _ _ _ Hf) as (x & Hb & _).
      by rewrite (bget_hit me d bn s ph b x Hph Hf Hb) in Hrun. }
    destruct (scan_lru_spec _ _ _ _ UINT_MAX None Hlisth Hlenh)
      as (r & Hl & [[-> Hall] | (e & xe & -> & _ & Hxe & _)]).
    2:{ by rewrite (bget_local me d bn s ph e xe Hph Hf Hl Hxe) in Hrun. }
    split_and!.
    + by eapply find_cached_none_inv.
    + exact Hall.
    + intros j l k Hjh Hl' Hk.
      pose proof (bget_inv me d bn s) as Hinv. rewrite Hrun in Hinv.
      destruct Hinv as (ks & _ & _ & Hnone).
      destruct (Hnone j) as (hdj & Hhdj & Hff);
        [rewrite <- Hlen; by eapply lookup_lt_Some | done |].
      destruct (Hbk j l Hl') as [(pj & Hpj & Hlistj) _].
      rewrite Hhdj in Hpj. injection Hpj as <-.
      by eapply first_free_none_inv.
  - intros (Hmiss & Hstamps & Hothers).
    assert (Hf : find_cached (steps (bcache_buf s)) (bcache_buf s) d bn ph
                 = Exit None)
      by (by eapply find_cached_miss).
    assert (Hl : scan_lru (steps (bcache_buf s)) (bcache_buf s) UINT_MAX None ph
                 = Exit None).
    { destruct (scan_lru_spec _ _ _ _ UINT_MAX None Hlisth Hlenh)
        as (r & Hl & [[-> _] | (e & xe & -> & He & Hxe & Hre & Hte & _)]);
        [done |].
      specialize (Hstamps e xe He Hxe Hre). lia. }
    destruct (steal_scan_exhausts (Z.to_nat NBUCKET) (Z.to_nat (HASH bn)) 0
                (searching (Z.to_nat (HASH bn)) s)) as (ks & Hscan).
    { intros k Hk Hkh.
      destruct (lookup_lt_is_Some_2 ls k) as (lk & Hlk); [lia |].
      destruct (Hbk k lk Hlk) as [(pk & Hpk & Hlk') _].
      exists pk. split; [exact Hpk |].
      eapply first_free_none; [exact Hlk' | by eapply wf_lengths | eauto]. }
    eexists. rewrite (bget_miss me d bn s ph Hph Hf Hl).
    unfold bind at 1. by rewrite Hscan.
Qed.

Lemma bget_panics_iff_witness :
  (exists s', bget 1 1 5 pool_last_free = Panic "bget: no buffers" s') /\
  ((exists s', bget 1 1 5 pool_last_free = Panic "bget: no buffers" s') <->
   (forall k x, k ∈ [0%nat] -> bcache_buf pool_last_free !! k = Some x ->
      ~ (dev x = 1 /\ blockno x = 5)) /\
   (forall k x, k ∈ [0%nat] -> bcache_buf pool_last_free !! k = Some x ->
      refcnt x = 0 -> UINT_MAX <= timestamp x) /\
   (forall j l k, j <> 5%nat -> lists_sentinel !! j = Some l -> k ∈ l ->
      ~ evictable (bcache_buf pool_last_free) k)).
Proof.
  assert (Hwf : wf pool_last_free lists_sentinel)
    by (apply wf_check_sound; vm_compute; reflexivity).
  assert (Hh : 5%nat = Z.to_nat (HASH 5)) by (vm_compute; reflexivity).
  assert (Hl : lists_sentinel !! 5%nat = Some [0%nat])
    by (vm_compute; reflexivity).
  split; [eexists; vm_compute; reflexivity |].
  exact (bget_panics_iff 1 1 5 pool_last_free lists_sentinel 5
           [0%nat] Hh Hwf Hl).
Defined.

(** ** The slot that is recycled *)

Lemma scan_lru_keeps (bufs : list buf) (l : list nat) (p : option nat)
    (fuel : nat) (min : Z) (empty : option nat) :
  is_list bufs p l -> (length l < fuel)%nat ->
  (forall k x, k ∈ l -> bufs !! k = Some x -> refcnt x = 0 ->
     min <= timestamp x) ->
  scan_lru fuel bufs min empty p = Exit empty.
Proof.
  intros Hl Hf Hall.
  destruct (scan_lru_spec _ _ _ _ min empty Hl Hf)
    as (r & Hrun & [[-> _] | (e & xe & -> & He & Hxe & Hre & Hte & _)]);
    [done |].
  specialize (Hall e xe He Hxe Hre). lia.
Qed.

Lemma scan_lru_picks (bufs : list buf) (l1 l2 : list nat) (e : nat)
    (xe : buf) (p : option nat) (fuel : nat) (min : Z) (empty : option nat) :
  is_list bufs p (l1 ++ e :: l2) -> (length (l1 ++ e :: l2) < fuel)%nat ->
  bufs !! e = Some xe -> refcnt xe = 0 -> timestamp xe < min ->
  (forall k x, k ∈ l1 -> bufs !! k = Some x -> refcnt x = 0 ->
     timestamp xe < timestamp x) ->
  (forall k x, k ∈ l2 -> bufs !! k = Some x -> refcnt x = 0 ->
     timestamp xe <= timestamp x) ->
  scan_lru fuel bufs min empty p = Exit (Some e).
Proof.
  revert p fuel min empty.
  induction l1 as [| a l1 IH]; intros p fuel min empty Hl Hf He Hr Ht H1 H2.
  - destruct Hl as (-> & x & Hx & Hl).
    destruct fuel as [| fuel]; [cbn in Hf; lia |].
    cbn [scan_lru]. rewrite Hx. rewrite He in Hx. injection Hx as <-.
    rewrite Hr. cbn [Z.eqb andb].
    assert (Hlt : (timestamp xe <? min) = true) by (by apply Z.ltb_lt).
    rewrite Hlt. apply (scan_lru_keeps _ l2); [done | cbn in Hf; lia | done].
  - destruct Hl as (-> & x & Hx & Hl).
    destruct fuel as [| fuel]; [cbn in Hf; lia |].
    cbn [scan_lru]. rewrite Hx.
    assert (Hf' : (length (l1 ++ e :: l2) < fuel)%nat) by (cbn in Hf; lia).
    assert (H1' : forall k y, k ∈ l1 -> bufs !! k = Some y -> refcnt y = 0 ->
                    timestamp xe < timestamp y).
    { intros k y Hk. apply H1. by apply list_elem_of_further. }
    destruct ((refcnt x =? 0) && (timestamp x <? min)) eqn:Hc.
    + apply andb_true_iff in Hc as [Hrx%Z.eqb_eq _].
      apply IH; try done.
      by apply (H1 a x (list_elem_of_here a l1) Hx).
    + by apply IH.
Qed.

(** X10: on a miss [bget] recycles, among the free slots of the bucket,
    the one with the least stamp, and of several with that stamp the one
    nearest the head of the list, provided the stamp is below 2^32 - 1.
    The slot gets the new block, [valid = 0] and [refcnt = 1]; its stamp
    and every list stay as they are. *)
Theorem bget_recycles_first_oldest (me d bn : Z) (s : state)
    (ls : list (list nat)) (h e : nat) (l1 l2 : list nat) (xe : buf) :
  h = Z.to_nat (HASH bn) ->
  wf s ls ->
  ls !! h = Some (l1 ++ e :: l2) ->
  (forall k x, k ∈ l1 ++ e :: l2 -> bcache_buf s !! k = Some x ->
     ~ (dev x = d /\ blockno x = bn)) ->
  bcache_buf s !! e = Some xe -> refcnt xe = 0 -> timestamp xe < UINT_MAX ->
  (forall k x, k ∈ l1 -> bcache_buf s !! k = Some x -> refcnt x = 0 ->
     timestamp xe < timestamp x) ->
  (forall k x, k ∈ l2 -> bcache_buf s !! k = Some x -> refcnt x = 0 ->
     timestamp xe <= timestamp x) ->
  bget me d bn s =
    Ret e (State
             (<[e := Buf 0 d bn (Sleeplock 1 me) 1 (timestamp xe) (next xe)]>
                (bcache_buf s))
             (map_head s) (ticks s)
             (trace s ++ [EvAcquire (map_lock h); EvRelease (map_lock h);
                          EvAcquireSleep e])).
Proof.
  intros -> Hwf Hlh Hmiss He Hr Ht H1 H2.
  pose proof (wf_lengths _ _ _ _ Hwf Hlh) as Hlen.
  destruct Hwf as (_ & Hbk & _).
  destruct (Hbk _ _ Hlh) as [(ph & Hph & Hlist) _].
  apply (bget_local me d bn s ph e xe Hph); [| | exact He].
  - by eapply find_cached_miss.
  - by eapply scan_lru_picks.
Qed.

Lemma bget_recycles_first_oldest_witness :
  bget 1 1 5 pool_two =
    Ret 1%nat
      (State [Buf 1 1 18 (Sleeplock 0 0) 0 8 (Some 1%nat);
              Buf 0 1 5 (Sleeplock 1 1) 1 7 None]
             (map_head pool_two) 9
             [EvAcquire (map_lock 5); EvRelease (map_lock 5);
              EvAcquireSleep 1]).
Proof.
  apply (bget_recycles_first_oldest 1 1 5 pool_two lists_two 5 1 [0%nat] []
           (Buf 1 1 31 (Sleeplock 0 0) 0 7 None)); try reflexivity.
  - apply wf_check_sound. vm_compute. reflexivity.
  - intros k x Hk Hx [Hd Hb]. in_list Hk;
      vm_compute in Hx; injection Hx as <-; discriminate Hb.
  - intros k x Hk Hx _. in_list Hk.
    vm_compute in Hx. injection Hx as <-. reflexivity.
  - intros k x Hk. by apply elem_of_nil in Hk.
Defined.

(** ** What a lookup leaves alone *)

(** X13: besides the slot it returns, [bget] changes nothing in the pool
    but list links: every other slot keeps its block, flag, count, stamp
    and content lock, and the clock is not touched. *)
Theorem bget_frame (me d bn : Z) (s s' : state) (b k : nat) :
  bget me d bn s = Ret b s' ->
  k <> b ->
  set_next None <$> bcache_buf s' !! k = set_next None <$> bcache_buf s !! k /\
  ticks s' = ticks s.
Proof.
  intros Hrun Hkb. pose proof (bget_inv me d bn s) as Hinv.
  rewrite Hrun in Hinv.
  destruct Hinv as [hd x Hh Hf Hb -> | hd x Hh Hf Hl Hb -> |
                    hd hdj j ks sm x Hh Hf Hl Hj Hj13 Hhdj Hff Hst Hb ->].
  - unfold hit_state. norm. by rewrite list_lookup_insert_ne.
  - unfold local_state. norm. by rewrite list_lookup_insert_ne.
  - pose proof (steal_frame j (Z.to_nat (HASH bn)) b
                  (found_state (Z.to_nat (HASH bn)) j ks s)) as Hfr.
    rewrite Hst in Hfr. destruct Hfr as (_ & Htk & Hsf).
    unfold stolen_state. norm. rewrite list_lookup_insert_ne by done.
    split; [apply Hsf | exact Htk].
Qed.

Lemma bget_frame_witness :
  exists s',
    bget 9 1 5 pool_steal = Ret 2%nat s' /\
    set_next None <$> bcache_buf s' !! 1%nat
      = set_next None <$> bcache_buf pool_steal !! 1%nat.
Proof.
  assert (H : exists s', bget 9 1 5 pool_steal = Ret 2%nat s')
    by (eexists; vm_compute; reflexivity).
  destruct H as (s' & Hrun). exists s'. split; [exact Hrun |].
  apply (bget_frame 9 1 5 pool_steal s' 2 1 Hrun). discriminate.
Defined.

(** ** Spin locks are given back *)

Lemma bpin_run (b : nat) (s : state) (x : buf) :
  bcache_buf s !! b = Some x ->
  bpin b s =
    Ret tt (State (<[b := set_refcnt (uint (refcnt x + 1)) x]> (bcache_buf s))
              (map_head s) (ticks s)
              (trace s ++ [EvAcquire (map_lock (Z.to_nat (HASH (blockno x))));
                           EvRelease (map_lock (Z.to_nat (HASH (blockno x))))])).
Proof.
  intros Hb. unfold bpin. cbv zeta. mrun. unfold emit. norm.
  by rewrite <- app_assoc.
Qed.

Lemma bunpin_run (b : nat) (s : state) (x : buf) :
  bcache_buf s !! b = Some x ->
  bunpin b s =
    Ret tt (State (<[b := set_refcnt (uint (refcnt x - 1)) x]> (bcache_buf s))
              (map_head s) (ticks s)
              (trace s ++ [EvAcquire (map_lock (Z.to_nat (HASH (blockno x))));
                           EvRelease (map_lock (Z.to_nat (HASH (blockno x))))])).
Proof.
  intros Hb. unfold bunpin. cbv zeta. mrun. unfold emit. norm.
  by rewrite <- app_assoc.
Qed.

(** X12: a call that returns has given back every spin lock it took;
    when [bget] panics it still holds [bcache.lock] and the lock of the
    bucket it searched for. *)
Theorem spin_locks_balanced (c : call) (me d bn : Z) (s s' : state)
    (msg : string) :
  (run c s = Ret tt s' ->
   exists evs, trace s' = trace s ++ evs /\ held_after [] evs = []) /\
  (bget me d bn s = Panic msg s' ->
   exists evs, trace s' = trace s ++ evs /\
     held_after [] evs = [bcache_lock; map_lock (Z.to_nat (HASH bn))]).
Proof.
  split.
  - destruct c as [me0 d0 bn0 | me0 d0 bn0 | me0 b | me0 b | b | b]; cbn [run].
    + intros Hrun. unfold bind in Hrun.
      pose proof (bget_trace me0 d0 bn0 s) as Hg.
      destruct (bget me0 d0 bn0 s) as [b s1 | | |]; try discriminate.
      injection Hrun as <-. destruct Hg as (evs & Ht & _ & Hh). by exists evs.
    + intros Hrun. unfold bind in Hrun.
      destruct (bread me0 d0 bn0 s) as [b s2 | | |] eqn:Hb; try discriminate.
      injection Hrun as <-.
      destruct (bread_inv _ _ _ _ _ _ Hb) as (s1 & x & Hg & Hx & ->).
      pose proof (bget_trace me0 d0 bn0 s) as Ht. rewrite Hg in Ht.
      destruct Ht as (evs & Ht & _ & Hh).
      destruct (valid x =? 0).
      * exists (evs ++ [EvDiskRW b false]). unfold loaded. norm.
        split; [by rewrite Ht, app_assoc |].
        by rewrite held_after_app, Hh.
      * by exists evs.
    + intros Hrun. unfold bwrite, holdingsleep in Hrun.
      destruct (bcache_buf s !! b) as [x |] eqn:Hb.
      2:{ unfold bind, load in Hrun. by rewrite Hb in Hrun. }
      revert Hrun. mrun. destruct (holding me0 x); cbn [negb]; [| done].
      mrun. unfold emit. norm. intros [= <-]. by exists [EvDiskRW b true].
    + intros Hrun.
      destruct (bcache_buf s !! b) as [x |] eqn:Hb.
      2:{ unfold brelse, holdingsleep, bind, load in Hrun. by rewrite Hb in Hrun. }
      destruct (holding me0 x) eqn:Hh.
      2:{ unfold brelse, holdingsleep in Hrun. revert Hrun. mrun.
          by rewrite Hh. }
      rewrite (brelse_run me0 b s x Hb Hh) in Hrun. injection Hrun as <-.
      eexists. split; [reflexivity |].
      cbn [app held_after]. destruct (uint (refcnt x - 1) =? 0);
        cbn [app held_after]; by rewrite !drop_lock_head.
    + intros Hrun.
      destruct (bcache_buf s !! b) as [x |] eqn:Hb.
      2:{ unfold bpin, bind, load in Hrun. by rewrite Hb in Hrun. }
      rewrite (bpin_run b s x Hb) in Hrun. injection Hrun as <-.
      eexists. split; [reflexivity |].
      cbn [held_after]. by rewrite drop_lock_head.
    + intros Hrun.
      destruct (bcache_buf s !! b) as [x |] eqn:Hb.
      2:{ unfold bunpin, bind, load in Hrun. by rewrite Hb in Hrun. }
      rewrite (bunpin_run b s x Hb) in Hrun. injection Hrun as <-.
      eexists. split; [reflexivity |].
      cbn [held_after]. by rewrite drop_lock_head.
  - intros Hrun. pose proof (bget_inv me d bn s) as Hinv.
    rewrite Hrun in Hinv. destruct Hinv as (ks & _ & -> & _).
    unfold exhausted_state. norm. eexists. split; [reflexivity |].
    cbn [app held_after].
    by destruct (calm_handoffs
                   [bcache_lock; map_lock (Z.to_nat (HASH bn))] ks) as [_ ->].
Qed.

Lemma spin_locks_balanced_witness :
  exists evs,
    trace (exhausted_state 0 (seq 1 12) pool_pinned)
      = trace pool_pinned ++ evs /\
    held_after [] evs = [bcache_lock; map_lock 0].
Proof.
  assert (H : bget 1 1 13 pool_pinned =
              Panic "bget: no buffers"
                (exhausted_state 0 (seq 1 12) pool_pinned))
    by (vm_compute; reflexivity).
  exact (proj2 (spin_locks_balanced (Bpin 0) 1 1 13 pool_pinned _ _) H).
Defined.

End Bio.

(** * Facts about the page allocator *)

Module KallocFacts.
Import Kalloc.
Local Open Scope Z_scope.
Local Open Scope kalloc_scope.

(** ** Lists of lists *)

Lemma concat_split {A} (ls : list (list A)) (i : nat) (l : list A) :
  ls !! i = Some l ->
  concat ls = concat (take i ls) ++ l ++ concat (drop (S i) ls).
Proof.
  intros Hi. rewrite <- (take_drop_middle ls i l Hi) at 1.
  by rewrite concat_app.
Qed.

Lemma concat_insert_split {A} (ls : list (list A)) (i : nat) (l l' : list A) :
  ls !! i = Some l ->
  concat (<[i := l']> ls) = concat (take i ls) ++ l' ++ concat (drop (S i) ls).
Proof.
  intros Hi. rewrite insert_take_drop by (by eapply lookup_lt_Some).
  by rewrite concat_app.
Qed.

Lemma concat_insert_perm {A} (ls : list (list A)) (i : nat) (l l' : list A) :
  ls !! i = Some l ->
  l' ++ concat ls ≡ₚ l ++ concat (<[i := l']> ls).
Proof.
  intros Hi. rewrite (concat_split ls i l Hi), (concat_insert_split ls i l l' Hi).
  rewrite !app_assoc.
  rewrite (Permutation_app_comm l' (concat (take i ls))).
  rewrite (Permutation_app_comm l (concat (take i ls))).
  rewrite <- !app_assoc. apply Permutation_app_head.
  rewrite !app_assoc. apply Permutation_app_tail, Permutation_app_comm.
Qed.

Lemma concat_lookup_elem {A} (ls : list (list A)) (i : nat) (l : list A) (x : A) :
  ls !! i = Some l -> x ∈ l -> x ∈ concat ls.
Proof.
  intros Hi Hx. rewrite (concat_split ls i l Hi).
  apply elem_of_app; right. apply elem_of_app; by left.
Qed.

Lemma concat_lookup_NoDup {A} (ls : list (list A)) (i : nat) (l : list A) :
  ls !! i = Some l -> NoDup (concat ls) -> NoDup l.
Proof.
  intros Hi. rewrite (concat_split ls i l Hi).
  intros H%list.NoDup_app. destruct H as (_ & _ & H).
  apply list.NoDup_app in H. tauto.
Qed.

Lemma concat_lookup_apart {A} (ls : list (list A)) (i j : nat) (l l' : list A)
    (x : A) :
  i <> j -> ls !! i = Some l -> ls !! j = Some l' -> NoDup (concat ls) ->
  x ∈ l -> x ∉ l'.
Proof.
  intros Hij Hi Hj Hnd Hx Hx'.
  assert (Hp := concat_insert_perm ls i l [] Hi). cbn [app] in Hp.
  rewrite Hp in Hnd. apply list.NoDup_app in Hnd as (_ & Hcross & _).
  apply (Hcross x Hx).
  apply (concat_lookup_elem _ j l'); [|done].
  by rewrite list_lookup_insert_ne.
Qed.

Lemma first_nonempty {A} (ls : list (list A)) :
  concat ls = [] \/
  exists i a l, ls !! i = Some (a :: l) /\
    forall k, (k < i)%nat -> ls !! k = Some [].
Proof.
  induction ls as [|l ls IH]; [by left|].
  destruct l as [|a l].
  - destruct IH as [IH | (i & a & l & Hi & Hk)]; [by left|].
    right. exists (S i), a, l. split; [done|].
    intros [|k] Hlt; [done|]. apply Hk. lia.
  - right. exists 0%nat, a, l. split; [done|]. intros k Hlt. lia.
Qed.

(** ** Stepping *)

Ltac kunf :=
  repeat progress
    (unfold my_hart, kbind, kret, kpanic, kemit, get_next, set_word, get_head,
       set_head; cbn [mem freelist ktrace]).

Lemma kfree_checks (L : layout) (pa : Z) :
  pa mod PGSIZE L = 0 -> kernel_end L <= pa < PHYSTOP L ->
  negb (pa mod PGSIZE L =? 0) || (pa <? kernel_end L) || (pa >=? PHYSTOP L)
  = false.
Proof.
  intros Hal [Hlo Hhi]. rewrite Hal. cbn.
  destruct (Z.ltb_spec pa (kernel_end L)); [lia|].
  destruct (Z.geb_spec pa (PHYSTOP L)); [lia|]. done.
Qed.

Ltac krun :=
  repeat (kunf;
          match goal with
          | H : _ !! _ = Some _ |- _ => rewrite H
          | H : (_ =? _) = _ |- _ => rewrite H
          | |- context [<[?k := _]> _ !! ?k] => rewrite lookup_insert_eq
          end);
  kunf.

(** What [kfree] does to a page of RAM on a CPU that exists. *)
Lemma kfree_ret (L : layout) (hart : nat) (pa hd w : Z) (s : kstate) :
  pa mod PGSIZE L = 0 -> kernel_end L <= pa < PHYSTOP L ->
  freelist s !! hart = Some hd -> mem s !! pa = Some w ->
  kfree L hart pa s
  = KRet tt (KState (<[pa := hd]> (mem s)) (<[hart := pa]> (freelist s))
       (ktrace s ++ [KPushOff; KPopOff; KAcquire hart; KRelease hart])).
Proof.
  intros Hal Hrg Hh Hpa. unfold kfree. rewrite kfree_checks by done.
  krun. rewrite insert_insert_eq. by rewrite <- !app_assoc.
Qed.

(** What [kalloc] does when the CPU's own list has a page. *)
Lemma kalloc_own_ret (L : layout) (hart : nat) (r nx : Z) (s : kstate) :
  freelist s !! hart = Some r -> r <> 0 -> mem s !! r = Some nx ->
  kalloc L hart s
  = KRet r (KState (<[r := JUNK5]> (mem s)) (<[hart := nx]> (freelist s))
       (ktrace s ++ [KPushOff; KPopOff; KAcquire hart; KRelease hart])).
Proof.
  intros Hh Hr Hnx. unfold kalloc. apply Z.eqb_neq in Hr.
  krun. by rewrite <- !app_assoc.
Qed.

(** ** Free lists in memory *)

Lemma is_run_insert_other (m : gmap Z Z) (p a w : Z) (l : list Z) :
  a ∉ l -> is_run m p l -> is_run (<[a := w]> m) p l.
Proof.
  revert p. induction l as [|b l IH]; intros p Ha Hr; [done|].
  destruct Hr as (-> & Hnz & w' & Hw & Hr).
  apply not_elem_of_cons in Ha as [Hne Ha].
  split; [done|]. split; [done|]. exists w'. split.
  - by rewrite lookup_insert_ne.
  - by apply IH.
Qed.

Lemma is_run_nonzero (m : gmap Z Z) (p : Z) (l : list Z) :
  is_run m p l -> 0 ∉ l.
Proof.
  revert p. induction l as [|b l IH]; intros p Hr; [by intros H%elem_of_nil|].
  destruct Hr as (-> & Hnz & w' & Hw & Hr).
  apply not_elem_of_cons. split; [done|]. by eapply IH.
Qed.

Lemma is_run_in_mem (m : gmap Z Z) (p a : Z) (l : list Z) :
  is_run m p l -> a ∈ l -> is_Some (m !! a).
Proof.
  revert p. induction l as [|b l IH]; intros p Hr Ha; [by apply elem_of_nil in Ha|].
  destruct Hr as (-> & Hnz & w' & Hw & Hr).
  apply elem_of_cons in Ha as [-> | Ha]; [by eexists|]. by eapply IH.
Qed.

Lemma is_run_head (m : gmap Z Z) (p : Z) (l : list Z) :
  is_run m p l -> p = default 0 (head l).
Proof. destruct l; cbn; tauto. Qed.

Lemma is_run_fun (m : gmap Z Z) (p : Z) (l l' : list Z) :
  is_run m p l -> is_run m p l' -> l = l'.
Proof.
  revert p l'. induction l as [|a l IH]; intros p [|a' l'] H H'; cbn in *.
  - done.
  - destruct H' as (-> & Hnz & _). done.
  - destruct H as (-> & Hnz & _). done.
  - destruct H as (-> & _ & w & Hw & H), H' as (<- & _ & w' & Hw' & H').
    rewrite Hw in Hw'. injection Hw' as <-. f_equal. by eapply IH.
Qed.

Lemma run_of_sound (fuel : nat) (m : gmap Z Z) (p : Z) (l : list Z) :
  run_of fuel m p = Some l -> is_run m p l.
Proof.
  revert p l. induction fuel as [|fuel IH]; intros p l H; [done|].
  cbn in H. destruct (Z.eqb_spec p 0) as [-> | Hp].
  - by injection H as <-.
  - destruct (m !! p) as [w|] eqn:Hw; [|done].
    destruct (run_of fuel m w) as [l'|] eqn:Hl; [|done].
    injection H as <-. split; [done|]. split; [done|]. exists w.
    split; [done|]. by apply IH.
Qed.

Lemma kwf_check_sound (L : layout) (s : kstate) (ls : list (list Z)) :
  kwf_check L s ls = true -> kwf L s ls.
Proof.
  unfold kwf_check. intros H.
  apply andb_prop in H as [H Hnd]. apply andb_prop in H as [Hlen Hruns].
  apply bool_decide_eq_true in Hnd, Hlen, Hruns.
  assert (Hlen' : length (freelist s) = length ls).
  { apply (f_equal length) in Hruns. by rewrite !length_map in Hruns. }
  split; [done|]. split; [congruence|]. split; [|done].
  intros i l Hi.
  assert (Hf : is_Some (freelist s !! i)).
  { apply lookup_lt_is_Some. rewrite Hlen'. by eapply lookup_lt_Some. }
  destruct Hf as [p Hp]. exists p. split; [done|].
  apply (run_of_sound (S (length (concat ls)))).
  apply (f_equal (fun x => x !! i)) in Hruns.
  rewrite !list_lookup_fmap, Hp, Hi in Hruns. cbn [fmap option_fmap option_map] in Hruns.
  by injection Hruns.
Qed.

Lemma concat_insert_cons {A} (ls : list (list A)) (i : nat) (l : list A) (a : A) :
  ls !! i = Some l -> concat (<[i := a :: l]> ls) ≡ₚ a :: concat ls.
Proof.
  intros Hi. rewrite (concat_split ls i l Hi), (concat_insert_split ls i l _ Hi).
  cbn [app]. by rewrite <- Permutation_middle.
Qed.

Lemma concat_insert_tail {A} (ls : list (list A)) (i : nat) (l : list A) (a : A) :
  ls !! i = Some (a :: l) -> concat ls ≡ₚ a :: concat (<[i := l]> ls).
Proof.
  intros Hi. rewrite <- (concat_insert_cons (<[i := l]> ls) i l a).
  - by rewrite list_insert_insert_eq, list_insert_id.
  - apply list_lookup_insert_eq. by eapply lookup_lt_Some.
Qed.

Lemma concat_move {A} (ls : list (list A)) (i j : nat) (l1 l2 : list A) :
  i <> j -> ls !! i = Some (l1 ++ l2) -> ls !! j = Some [] ->
  concat (<[j := l1]> (<[i := l2]> ls)) ≡ₚ concat ls.
Proof.
  intros Hij Hi Hj.
  assert (H1 := concat_insert_perm ls i (l1 ++ l2) l2 Hi).
  assert (Hj' : <[i := l2]> ls !! j = Some []) by by rewrite list_lookup_insert_ne.
  assert (H2 := concat_insert_perm _ j [] l1 Hj'). cbn [app] in H2.
  rewrite <- H2. apply (Permutation_app_inv_l l2).
  rewrite H1. rewrite !app_assoc.
  apply Permutation_app_tail, Permutation_app_comm.
Qed.

(** The lists of a well-formed state. *)
Lemma kwf_lookup (L : layout) (s : kstate) (ls : list (list Z)) (i : nat)
    (l : list Z) :
  kwf L s ls -> ls !! i = Some l ->
  exists p, freelist s !! i = Some p /\ is_run (mem s) p l.
Proof. intros (_ & _ & H & _). apply H. Qed.

Lemma kwf_hart (L : layout) (s : kstate) (ls : list (list Z)) (i : nat) :
  kwf L s ls -> (i < NCPU L)%nat -> is_Some (ls !! i).
Proof. intros (H & _) Hi. apply lookup_lt_is_Some. by rewrite H. Qed.

Lemma kfree_kwf (L : layout) (s : kstate) (ls : list (list Z))
    (hart : nat) (l : list Z) (pa : Z) :
  kwf L s ls -> ls !! hart = Some l ->
  0 < kernel_end L ->
  pa mod PGSIZE L = 0 -> kernel_end L <= pa < PHYSTOP L ->
  is_Some (mem s !! pa) -> pa ∉ concat ls ->
  exists s', kfree L hart pa s = KRet tt s' /\
             kwf L s' (<[hart := pa :: l]> ls) /\
             forall q, is_Some (mem s !! q) -> is_Some (mem s' !! q).
Proof.
  intros Hwf Hl Hend Hal Hrg [w Hw] Hfresh.
  destruct (kwf_lookup L s ls hart l Hwf Hl) as (hd & Hhd & Hrun).
  eexists. split; [by eapply kfree_ret|].
  destruct Hwf as (Hlen & Hlen' & Hruns & Hnd).
  split.
  2: { intros q Hq. cbn [mem]. destruct (decide (pa = q)) as [-> | Hne].
       - rewrite lookup_insert_eq. by eexists.
       - by rewrite lookup_insert_ne. }
  split; [by rewrite length_insert|].
  split; [cbn [freelist]; by rewrite length_insert|].
  split.
  - intros i l0 Hi. cbn [freelist mem].
    destruct (decide (i = hart)) as [-> | Hne].
    + rewrite list_lookup_insert_eq in Hi by (by eapply lookup_lt_Some).
      injection Hi as <-. exists pa. split.
      * apply list_lookup_insert_eq. by eapply lookup_lt_Some.
      * split; [done|]. split; [lia|]. exists hd.
        split; [apply lookup_insert_eq|].
        apply is_run_insert_other; [|done].
        intros Hin. apply Hfresh. by eapply concat_lookup_elem.
    + rewrite list_lookup_insert_ne in Hi by done.
      destruct (Hruns i l0 Hi) as (p & Hp & Hr). exists p. split.
      * by rewrite list_lookup_insert_ne.
      * apply is_run_insert_other; [|done].
        intros Hin. apply Hfresh. by eapply concat_lookup_elem.
  - rewrite (concat_insert_cons ls hart l pa Hl). by apply list.NoDup_cons.
Qed.

(** X14: freeing a page of RAM that is on no list puts it at the front
    of the list of the CPU that frees it, and leaves every list as it
    was otherwise. *)
Theorem kfree_pushes (L : layout) (s : kstate) (ls : list (list Z))
    (hart : nat) (l : list Z) (pa : Z) :
  kwf L s ls -> ls !! hart = Some l ->
  0 < kernel_end L ->
  pa mod PGSIZE L = 0 -> kernel_end L <= pa < PHYSTOP L ->
  is_Some (mem s !! pa) -> pa ∉ concat ls ->
  exists s', kfree L hart pa s = KRet tt s' /\
             kwf L s' (<[hart := pa :: l]> ls).
Proof.
  intros Hwf Hl Hend Hal Hrg Hpa Hfresh.
  destruct (kfree_kwf L s ls hart l pa) as (s' & Hs' & Hwf' & _); try done.
  by exists s'.
Qed.

Lemma kfree_pushes_witness :
  exists s', kfree small 1 (page 5) (lay [[page 0; page 1]; [page 2]])
             = KRet tt s' /\
             kwf small s' (<[1%nat := page 5 :: [page 2]]>
                             [[page 0; page 1]; [page 2]]).
Proof.
  apply (kfree_pushes small (lay [[page 0; page 1]; [page 2]])).
  - apply kwf_check_sound. vm_compute. reflexivity.
  - reflexivity.
  - reflexivity.
  - vm_compute. reflexivity.
  - unfold page; cbn; lia.
  - eexists. vm_compute. reflexivity.
  - apply (bool_decide_unpack _). vm_compute. exact I.
Defined.

(** X15: a page freed and allocated again on the same CPU comes back:
    [kalloc] returns the page just freed, the list heads are as before,
    and memory differs only in the junk written to that page. *)
Theorem kfree_kalloc (L : layout) (s : kstate) (hart : nat) (pa : Z) :
  0 < kernel_end L ->
  pa mod PGSIZE L = 0 -> kernel_end L <= pa < PHYSTOP L ->
  is_Some (freelist s !! hart) -> is_Some (mem s !! pa) ->
  exists s', (kfree L hart pa ;; kalloc L hart) s = KRet pa s' /\
             freelist s' = freelist s /\
             mem s' = <[pa := JUNK5]> (mem s).
Proof.
  intros Hend Hal Hrg [hd Hhd] [w Hw].
  unfold kbind at 1. rewrite (kfree_ret L hart pa hd w s) by done.
  erewrite kalloc_own_ret; cbn [mem freelist ktrace].
  - eexists. split; [reflexivity|]. cbn [mem freelist]. split.
    + by rewrite list_insert_insert_eq, list_insert_id.
    + by rewrite insert_insert_eq.
  - apply list_lookup_insert_eq. by eapply lookup_lt_Some.
  - lia.
  - apply lookup_insert_eq.
Qed.

Lemma kfree_kalloc_witness :
  exists s', (kfree small 0 (page 3) ;; kalloc small 0)
               (lay [[page 0; page 1]; [page 2]]) = KRet (page 3) s' /\
             freelist s' = freelist (lay [[page 0; page 1]; [page 2]]) /\
             mem s' = <[page 3 := JUNK5]> (mem (lay [[page 0; page 1]; [page 2]])).
Proof.
  apply (kfree_kalloc small (lay [[page 0; page 1]; [page 2]]) 0 (page 3)).
  - reflexivity.
  - vm_compute. reflexivity.
  - unfold page; cbn; lia.
  - eexists. vm_compute. reflexivity.
  - eexists. vm_compute. reflexivity.
Defined.

(** X16: [kfree] does not notice a page that is freed twice: the page
    becomes its own successor, the next two calls of [kalloc] on that CPU
    both return it, and the list head is then the junk that the first of
    them wrote into the page. *)
Theorem kfree_twice (L : layout) (s : kstate) (hart : nat) (pa : Z) :
  0 < kernel_end L ->
  pa mod PGSIZE L = 0 -> kernel_end L <= pa < PHYSTOP L ->
  is_Some (freelist s !! hart) -> is_Some (mem s !! pa) ->
  exists s1 s2,
    (kfree L hart pa ;; kfree L hart pa ;; kalloc L hart) s = KRet pa s1 /\
    kalloc L hart s1 = KRet pa s2 /\
    freelist s2 !! hart = Some JUNK5.
Proof.
  intros Hend Hal Hrg [hd Hhd] [w Hw].
  assert (Hlt : (hart < length (freelist s))%nat) by by eapply lookup_lt_Some.
  unfold kbind at 1. rewrite (kfree_ret L hart pa hd w s) by done.
  unfold kbind at 1.
  erewrite (kfree_ret L hart pa pa hd); [|done|done|..]; cbn [mem freelist ktrace].
  2: by apply list_lookup_insert_eq.
  2: apply lookup_insert_eq.
  erewrite (kalloc_own_ret L hart pa pa); cbn [mem freelist ktrace].
  2: { apply list_lookup_insert_eq. by rewrite length_insert. }
  2: lia.
  2: apply lookup_insert_eq.
  eexists _, _. split; [reflexivity|].
  erewrite (kalloc_own_ret L hart pa JUNK5); cbn [mem freelist ktrace].
  - split; [reflexivity|]. cbn [freelist].
    apply list_lookup_insert_eq. by rewrite !length_insert.
  - apply list_lookup_insert_eq. by rewrite !length_insert.
  - lia.
  - apply lookup_insert_eq.
Qed.

Lemma kfree_twice_witness :
  exists s1 s2,
    (kfree small 0 (page 3) ;; kfree small 0 (page 3) ;; kalloc small 0)
      (lay [[page 0; page 1]; [page 2]]) = KRet (page 3) s1 /\
    kalloc small 0 s1 = KRet (page 3) s2 /\
    freelist s2 !! 0%nat = Some JUNK5.
Proof.
  apply (kfree_twice small (lay [[page 0; page 1]; [page 2]]) 0 (page 3)).
  - reflexivity.
  - vm_compute. reflexivity.
  - unfold page; cbn; lia.
  - eexists. vm_compute. reflexivity.
  - eexists. vm_compute. reflexivity.
Defined.

Lemma kalloc_own_kwf (L : layout) (s : kstate) (ls : list (list Z))
    (hart : nat) (a : Z) (l : list Z) :
  kwf L s ls -> ls !! hart = Some (a :: l) ->
  exists s', kalloc L hart s = KRet a s' /\
             kwf L s' (<[hart := l]> ls) /\
             mem s' = <[a := JUNK5]> (mem s).
Proof.
  intros Hwf Hl.
  destruct (kwf_lookup L s ls hart _ Hwf Hl) as (p & Hp & Hrun).
  destruct Hrun as (-> & Hnz & nx & Hnx & Hrun).
  eexists. split; [by eapply kalloc_own_ret|]. split; [|done].
  destruct Hwf as (Hlen & Hlen' & Hruns & Hnd).
  assert (Hnd' : NoDup (a :: concat (<[hart := l]> ls))).
  { by rewrite <- (concat_insert_tail ls hart l a Hl). }
  apply list.NoDup_cons in Hnd' as [Hfresh Hnd'].
  split; [by rewrite length_insert|].
  split; [cbn [freelist]; by rewrite length_insert|].
  split; [|done].
  intros i l0 Hi. cbn [freelist mem].
  assert (Ha : a ∉ l0).
  { intros Hin. apply Hfresh. by eapply concat_lookup_elem. }
  destruct (decide (i = hart)) as [-> | Hne].
  - rewrite list_lookup_insert_eq in Hi by (by eapply lookup_lt_Some).
    injection Hi as <-. exists nx. split.
    + apply list_lookup_insert_eq. by eapply lookup_lt_Some.
    + by apply is_run_insert_other.
  - rewrite list_lookup_insert_ne in Hi by done.
    destruct (Hruns i l0 Hi) as (p & Hp' & Hr). exists p. split.
    + by rewrite list_lookup_insert_ne.
    + by apply is_run_insert_other.
Qed.

(** X17: when the CPU's own list is not empty, [kalloc] returns its
    first page, fills it with junk and leaves every other page and every
    other list as they were. *)
Theorem kalloc_pops (L : layout) (s : kstate) (ls : list (list Z))
    (hart : nat) (a : Z) (l : list Z) :
  kwf L s ls -> ls !! hart = Some (a :: l) ->
  exists s', kalloc L hart s = KRet a s' /\
             kwf L s' (<[hart := l]> ls) /\
             mem s' = <[a := JUNK5]> (mem s).
Proof. apply kalloc_own_kwf. Qed.

Lemma kalloc_pops_witness :
  exists s', kalloc small 0 (lay [[page 0; page 1]; [page 2]])
             = KRet (page 0) s' /\
             kwf small s' (<[0%nat := [page 1]]> [[page 0; page 1]; [page 2]]) /\
             mem s' = <[page 0 := JUNK5]> (mem (lay [[page 0; page 1]; [page 2]])).
Proof.
  apply (kalloc_pops small (lay [[page 0; page 1]; [page 2]])).
  - apply kwf_check_sound. vm_compute. reflexivity.
  - reflexivity.
Defined.

(** ** The walk along another CPU's list *)

Lemma last_take_cons (a b : Z) (t : list Z) :
  default a (list.last (b :: t)) = default b (list.last t).
Proof.
  revert a b. induction t as [|c t IH]; intros a b; [done|].
  rewrite last_cons_cons. by rewrite (IH a c), (IH b c).
Qed.

Lemma elem_take_in (n : nat) (x : Z) (l : list Z) : x ∈ take n l -> x ∈ l.
Proof.
  intros H. rewrite <- (take_drop n l). apply elem_of_app. by left.
Qed.

Lemma last_default_elem (a : Z) (t : list Z) :
  default a (list.last t) ∈ a :: t.
Proof.
  revert a. induction t as [|b t IH]; intros a.
  - cbn. apply list_elem_of_here.
  - rewrite last_take_cons. apply list_elem_of_further, IH.
Qed.

(** The walk stops on the page [n] steps down the list, or on the last
    page when the list is shorter. *)
Lemma walk_run (n : nat) (m : gmap Z Z) (a : Z) (l : list Z) :
  is_run m a (a :: l) ->
  walk n m a = Some (default a (list.last (take n l))).
Proof.
  revert a l. induction n as [|n IH]; intros a l Hr; [done|].
  destruct Hr as (_ & _ & w & Hw & Hr). cbn [walk]. rewrite Hw.
  destruct l as [|b l].
  - cbn in Hr. subst w. done.
  - destruct Hr as (-> & Hnz & Hr).
    apply Z.eqb_neq in Hnz as Hb. rewrite Hb.
    cbn [take]. rewrite last_take_cons. apply IH. by split.
Qed.

(** What hangs below the page where the walk stops. *)
Lemma walk_rest (n : nat) (m : gmap Z Z) (a : Z) (l : list Z) :
  is_run m a (a :: l) ->
  exists rest, m !! default a (list.last (take n l)) = Some rest /\
               is_run m rest (drop n l).
Proof.
  revert a l. induction n as [|n IH]; intros a l Hr.
  - destruct Hr as (_ & _ & w & Hw & Hr). by exists w.
  - destruct l as [|b l].
    + destruct Hr as (_ & _ & w & Hw & Hr). by exists w.
    + destruct Hr as (_ & _ & w & Hw & -> & Hnz & Hr).
      cbn [take drop]. rewrite last_take_cons. apply IH. by split.
Qed.

(** Cutting the list below that page leaves the pages above it. *)
Lemma walk_cut (n : nat) (m : gmap Z Z) (a : Z) (l : list Z) :
  is_run m a (a :: l) -> NoDup (a :: l) ->
  exists nx, <[default a (list.last (take n l)) := 0]> m !! a = Some nx /\
             is_run (<[default a (list.last (take n l)) := 0]> m) nx (take n l).
Proof.
  revert a l. induction n as [|n IH]; intros a l Hr Hnd.
  - exists 0. split; [apply lookup_insert_eq|done].
  - destruct l as [|b l].
    + exists 0. split; [apply lookup_insert_eq|done].
    + destruct Hr as (_ & Ha & w & Hw & -> & Hnz & Hr).
      cbn [take]. rewrite last_take_cons.
      apply list.NoDup_cons in Hnd as [Hab Hnd].
      assert (Hc : default b (list.last (take n l)) ∈ b :: l).
      { pose proof (last_default_elem b (take n l)) as H.
        apply elem_of_cons in H as [-> | H]; [apply list_elem_of_here|].
        apply list_elem_of_further. by eapply elem_take_in. }
      exists b. split.
      * rewrite lookup_insert_ne; [done|]. intros Heq. apply Hab. by rewrite <- Heq.
      * split; [done|]. split; [done|]. apply IH; [by split|done].
Qed.

Lemma walk_stop_above (n : nat) (a : Z) (l : list Z) :
  NoDup (a :: l) -> default a (list.last (take n l)) ∉ drop n l.
Proof.
  intros Hnd Hin.
  rewrite <- (take_drop n l) in Hnd.
  change (NoDup ((a :: take n l) ++ drop n l)) in Hnd.
  apply list.NoDup_app in Hnd as (_ & Hcross & _).
  apply (Hcross _ (last_default_elem a (take n l)) Hin).
Qed.

(** ** The loop over the other CPUs *)

Lemma probes_S (hart i n : nat) :
  probes hart i (S n)
  = (if decide (i = hart) then [] else [KAcquire i; KRelease i])
    ++ probes hart (S i) n.
Proof. done. Qed.

Lemma steal_none (n hart i : nat) (m : gmap Z Z) (fl : list Z)
    (t : list kevent) :
  (forall k, (i <= k < i + n)%nat -> k <> hart -> fl !! k = Some 0) ->
  steal n hart i (KState m fl t) = KRet 0 (KState m fl (t ++ probes hart i n)).
Proof.
  revert i t. induction n as [|n IH]; intros i t Hk.
  { cbn. unfold kret. by rewrite app_nil_r. }
  cbn [steal]. rewrite probes_S. destruct (decide (i = hart)) as [-> | Hne].
  - rewrite IH; [done|]. intros k Hr. apply Hk. lia.
  - assert (Hi : fl !! i = Some 0) by (apply Hk; [lia|done]).
    kunf. rewrite Hi. kunf. cbn [Z.eqb]. kunf.
    rewrite IH; [by rewrite <- !app_assoc|]. intros k Hr. apply Hk. lia.
Qed.

Lemma steal_found (n hart i0 i : nat) (m : gmap Z Z) (fl : list Z)
    (t : list kevent) (a c rest nx : Z) :
  (i0 <= i < i0 + n)%nat -> i <> hart ->
  (forall k, (i0 <= k < i)%nat -> k <> hart -> fl !! k = Some 0) ->
  fl !! i = Some a -> a <> 0 ->
  walk CHUNK m a = Some c -> m !! c = Some rest ->
  <[c := 0]> m !! a = Some nx -> is_Some (fl !! hart) ->
  steal n hart i0 (KState m fl t)
  = KRet a (KState (<[c := 0]> m) (<[hart := nx]> (<[i := rest]> fl))
                   (t ++ probes hart i0 (S i - i0))).
Proof.
  intros Hr Hne Hk Hi Ha Hwalk Hrest Hnx [h Hh]. apply Z.eqb_neq in Ha.
  revert i0 t Hr Hk. induction n as [|n IH]; intros i0 t Hr Hk; [lia|].
  cbn [steal].
  replace (S i - i0)%nat with (S (i - i0)) by lia. rewrite probes_S.
  destruct (decide (i0 = hart)) as [-> | Hne0].
  - rewrite IH; [|lia|].
    + by replace (S i - S hart)%nat with (i - hart)%nat by lia.
    + intros k Hr'. apply Hk. lia.
  - destruct (decide (i0 = i)) as [-> | Hlt].
    + kunf. rewrite Hi. kunf. rewrite Ha.
      unfold walk_chunk. kunf. rewrite Hwalk. kunf. rewrite Hi. kunf.
      rewrite Hrest. kunf. rewrite Hi. kunf. rewrite Hrest. kunf.
      rewrite Ha. kunf. rewrite Hnx. kunf.
      rewrite list_lookup_insert_ne, Hh by done. kunf.
      rewrite Nat.sub_diag. cbn [probes seq map concat].
      by rewrite app_nil_r, <- !app_assoc.
    + assert (Hz : fl !! i0 = Some 0) by (apply Hk; [lia|done]).
      kunf. rewrite Hz. kunf. cbn [Z.eqb]. kunf.
      rewrite IH; [|lia|].
      * replace (S i - S i0)%nat with (i - i0)%nat by lia.
        by rewrite <- !app_assoc.
      * intros k Hr'. apply Hk. lia.
Qed.

Lemma kalloc_empty_ret (L : layout) (hart : nat) (s : kstate) :
  (hart < NCPU L)%nat ->
  (forall k, (k < NCPU L)%nat -> freelist s !! k = Some 0) ->
  kalloc L hart s
  = KRet 0 (KState (mem s) (freelist s)
              (ktrace s ++ [KPushOff; KPopOff; KAcquire hart]
               ++ probes hart 0 (NCPU L) ++ [KRelease hart])).
Proof.
  intros Hh Hk. unfold kalloc. kunf. rewrite (Hk hart Hh). kunf.
  cbn [Z.eqb]. rewrite steal_none.
  - kunf. cbn [Z.eqb]. by rewrite <- !app_assoc.
  - intros k Hr _. apply Hk. lia.
Qed.

Lemma kalloc_steal_ret (L : layout) (hart i : nat) (s : kstate)
    (a c rest nx : Z) :
  (i < NCPU L)%nat -> i <> hart ->
  (forall k, (k < i)%nat -> freelist s !! k = Some 0) ->
  freelist s !! hart = Some 0 ->
  freelist s !! i = Some a -> a <> 0 ->
  walk CHUNK (mem s) a = Some c -> mem s !! c = Some rest ->
  <[c := 0]> (mem s) !! a = Some nx ->
  kalloc L hart s
  = KRet a (KState (<[a := JUNK5]> (<[c := 0]> (mem s)))
                   (<[hart := nx]> (<[i := rest]> (freelist s)))
                   (ktrace s ++ [KPushOff; KPopOff; KAcquire hart]
                    ++ probes hart 0 (S i) ++ [KRelease hart])).
Proof.
  intros Hi Hne Hk Hh Ha Hnz Hwalk Hrest Hnx.
  unfold kalloc. kunf. rewrite Hh. kunf. cbn [Z.eqb].
  rewrite (steal_found (NCPU L) hart 0 i (mem s) (freelist s) _ a c rest nx);
    try done.
  - kunf. apply Z.eqb_neq in Hnz. rewrite Hnz. kunf.
    rewrite Hnx. kunf. rewrite Nat.sub_0_r. by rewrite <- !app_assoc.
  - lia.
  - intros k Hr _. apply Hk. lia.
Qed.

Lemma concat_steal_perm {A} (ls : list (list A)) (hart i n : nat) (a : A)
    (l : list A) :
  ls !! hart = Some [] -> ls !! i = Some (a :: l) ->
  concat ls ≡ₚ a :: concat (<[hart := take n l]> (<[i := drop n l]> ls)).
Proof.
  intros Hh Hi.
  assert (Hne : i <> hart) by (intros ->; congruence).
  rewrite (concat_insert_tail ls i l a Hi). apply Permutation_skip.
  symmetry. rewrite <- (list_insert_insert_eq ls i (drop n l) l).
  apply concat_move; [done| |].
  - rewrite take_drop. apply list_lookup_insert_eq. by eapply lookup_lt_Some.
  - by rewrite list_lookup_insert_ne.
Qed.

(** The same on the lists. *)
Lemma kalloc_steal_kwf (L : layout) (s : kstate) (ls : list (list Z))
    (hart i : nat) (a : Z) (l : list Z) :
  kwf L s ls -> ls !! hart = Some [] -> ls !! i = Some (a :: l) ->
  (forall k, (k < i)%nat -> ls !! k = Some []) ->
  exists s', kalloc L hart s = KRet a s' /\
             kwf L s' (<[hart := take CHUNK l]> (<[i := drop CHUNK l]> ls)) /\
             mem s' !! a = Some JUNK5 /\
             ktrace s' = ktrace s ++ [KPushOff; KPopOff; KAcquire hart]
                         ++ probes hart 0 (S i) ++ [KRelease hart].
Proof.
  intros Hwf Hh Hi Hk.
  assert (Hne : i <> hart) by (intros ->; congruence).
  destruct (kwf_lookup L s ls hart _ Hwf Hh) as (p0 & Hp0 & Hrun0).
  cbn in Hrun0. subst p0.
  destruct (kwf_lookup L s ls i _ Hwf Hi) as (p & Hp & Hrun).
  assert (p = a) as -> by (by destruct Hrun).
  assert (Hnz : a <> 0) by (by destruct Hrun as (_ & ? & _)).
  assert (Hfl : forall k, (k < i)%nat -> freelist s !! k = Some 0).
  { intros k Hlt. destruct (kwf_lookup L s ls k _ Hwf (Hk k Hlt)) as (q & Hq & Hr).
    cbn in Hr. by subst q. }
  destruct Hwf as (Hlen & Hlen' & Hruns & Hnd).
  assert (Hndl : NoDup (a :: l)) by (by eapply concat_lookup_NoDup).
  pose proof (walk_run CHUNK (mem s) a l Hrun) as Hwalk.
  destruct (walk_rest CHUNK (mem s) a l Hrun) as (rest & Hrest & Hrunr).
  destruct (walk_cut CHUNK (mem s) a l Hrun Hndl) as (nx & Hnx & Hrunt).
  set (c := default a (list.last (take CHUNK l))) in *.
  assert (Hilt : (i < NCPU L)%nat).
  { rewrite <- Hlen. by eapply lookup_lt_Some. }
  eexists. split; [by apply (kalloc_steal_ret L hart i s a c rest nx)|].
  split; [|split; [apply lookup_insert_eq|done]].
  set (ls' := <[hart := take CHUNK l]> (<[i := drop CHUNK l]> ls)).
  pose proof (concat_steal_perm ls hart i CHUNK a l Hh Hi) as Hperm.
  fold ls' in Hperm.
  assert (Hnd0 := Hnd).
  rewrite Hperm in Hnd. apply list.NoDup_cons in Hnd as [Hfresh Hnd'].
  assert (Hc : c ∈ a :: l).
  { pose proof (last_default_elem a (take CHUNK l)) as H. fold c in H.
    apply elem_of_cons in H as [-> | H]; [apply list_elem_of_here|].
    apply list_elem_of_further. by eapply elem_take_in. }
  split; [unfold ls'; by rewrite !length_insert|].
  split; [cbn [freelist]; by rewrite !length_insert|].
  split; [|done].
  intros k l0 Hl0. cbn [freelist mem].
  assert (Ha0 : a ∉ l0).
  { intros Hin. apply Hfresh. by eapply concat_lookup_elem. }
  unfold ls' in Hl0.
  destruct (decide (k = hart)) as [-> | Hkh].
  - rewrite list_lookup_insert_eq in Hl0
      by (rewrite length_insert; by eapply lookup_lt_Some).
    injection Hl0 as <-. exists nx. split.
    + apply list_lookup_insert_eq. rewrite length_insert. by eapply lookup_lt_Some.
    + by apply is_run_insert_other.
  - rewrite list_lookup_insert_ne in Hl0 by done.
    rewrite (list_lookup_insert_ne _ hart k) by done.
    destruct (decide (k = i)) as [-> | Hki].
    + rewrite list_lookup_insert_eq in Hl0 by (by eapply lookup_lt_Some).
      injection Hl0 as <-. exists rest. split.
      * apply list_lookup_insert_eq. by eapply lookup_lt_Some.
      * apply is_run_insert_other; [done|].
        apply is_run_insert_other; [|done]. by apply walk_stop_above.
    + rewrite list_lookup_insert_ne in Hl0 by done.
      rewrite list_lookup_insert_ne by done.
      destruct (Hruns k l0 Hl0) as (q & Hq & Hr). exists q. split; [done|].
      apply is_run_insert_other; [done|].
      apply is_run_insert_other; [|done].
      intros Hin.
      by apply (concat_lookup_apart ls i k (a :: l) l0 c).
Qed.

(** X18: when its own list is empty, [kalloc] takes from the first CPU
    with a free page: it returns that CPU's first page, moves the next
    [16 * 1024] pages of that list (or all of them, when there are
    fewer) to its own list, and leaves the rest where it was. *)
Theorem kalloc_steals (L : layout) (s : kstate) (ls : list (list Z))
    (hart i : nat) (a : Z) (l : list Z) :
  kwf L s ls -> ls !! hart = Some [] -> ls !! i = Some (a :: l) ->
  (forall k, (k < i)%nat -> ls !! k = Some []) ->
  exists s', kalloc L hart s = KRet a s' /\
             kwf L s' (<[hart := take CHUNK l]> (<[i := drop CHUNK l]> ls)) /\
             mem s' !! a = Some JUNK5.
Proof.
  intros Hwf Hh Hi Hk.
  destruct (kalloc_steal_kwf L s ls hart i a l Hwf Hh Hi Hk)
    as (s' & H1 & H2 & H3 & _).
  by exists s'.
Qed.

Lemma kalloc_steals_witness :
  exists s', kalloc small 0 (lay [[]; [page 2; page 3; page 4]])
             = KRet (page 2) s' /\
             kwf small s' (<[0%nat := take CHUNK [page 3; page 4]]>
                             (<[1%nat := drop CHUNK [page 3; page 4]]>
                                [[]; [page 2; page 3; page 4]])) /\
             mem s' !! page 2 = Some JUNK5.
Proof.
  apply (kalloc_steals small (lay [[]; [page 2; page 3; page 4]])).
  - apply kwf_check_sound. vm_compute. reflexivity.
  - reflexivity.
  - reflexivity.
  - intros [|k] Hk; [reflexivity|lia].
Defined.

Lemma concat_nil_lookup {A} (ls : list (list A)) (i : nat) (l : list A) :
  concat ls = [] -> ls !! i = Some l -> l = [].
Proof.
  intros Hc Hi. destruct l as [|x l]; [done|].
  assert (H : x ∈ concat ls).
  { eapply concat_lookup_elem; [done|]. apply list_elem_of_here. }
  rewrite Hc in H. by apply elem_of_nil in H.
Qed.

Lemma kwf_heads_zero (L : layout) (s : kstate) (ls : list (list Z)) :
  kwf L s ls -> concat ls = [] ->
  forall k, (k < NCPU L)%nat -> freelist s !! k = Some 0.
Proof.
  intros Hwf Hc k Hk.
  destruct (kwf_hart L s ls k Hwf Hk) as [l Hl].
  destruct (kwf_lookup L s ls k l Hwf Hl) as (p & Hp & Hr).
  rewrite (concat_nil_lookup ls k l Hc Hl) in Hr. cbn in Hr. by subst p.
Qed.

(** X19: [kalloc] neither loses nor duplicates a free page.  On
    well-formed lists it always returns; it returns 0 exactly when no CPU
    has a free page, and then changes nothing; otherwise the page it
    returns was free, is free no longer, and every other free page is
    still on exactly one list. *)
Theorem kalloc_conserves (L : layout) (s : kstate) (ls : list (list Z))
    (hart : nat) :
  kwf L s ls -> (hart < NCPU L)%nat ->
  exists r s' ls',
    kalloc L hart s = KRet r s' /\ kwf L s' ls' /\
    ((r = 0 /\ concat ls = [] /\ ls' = ls /\
      mem s' = mem s /\ freelist s' = freelist s) \/
     (r <> 0 /\ concat ls ≡ₚ r :: concat ls' /\ mem s' !! r = Some JUNK5)).
Proof.
  intros Hwf Hh.
  destruct (kwf_hart L s ls hart Hwf Hh) as [[|a l] Hl].
  - destruct (first_nonempty ls) as [Hc | (i & a & l & Hi & Hk)].
    + exists 0, (KState (mem s) (freelist s)
                   (ktrace s ++ [KPushOff; KPopOff; KAcquire hart]
                    ++ probes hart 0 (NCPU L) ++ [KRelease hart])), ls.
      split; [apply kalloc_empty_ret; [done|by eapply kwf_heads_zero]|].
      split; [exact Hwf|]. left. done.
    + destruct (kalloc_steal_kwf L s ls hart i a l Hwf Hl Hi Hk)
        as (s' & H1 & H2 & H3 & _).
      exists a, s', (<[hart := take CHUNK l]> (<[i := drop CHUNK l]> ls)).
      split; [done|]. split; [done|]. right.
      split; [|split; [by apply concat_steal_perm|done]].
      destruct (kwf_lookup L s ls i _ Hwf Hi) as (p & _ & Hr).
      by destruct Hr as (_ & ? & _).
  - destruct (kalloc_own_kwf L s ls hart a l Hwf Hl) as (s' & H1 & H2 & H3).
    exists a, s', (<[hart := l]> ls).
    split; [done|]. split; [done|]. right.
    split; [|split; [by apply concat_insert_tail|]].
    + destruct (kwf_lookup L s ls hart _ Hwf Hl) as (p & _ & Hr).
      by destruct Hr as (_ & ? & _).
    + rewrite H3. apply lookup_insert_eq.
Qed.

Lemma kalloc_conserves_witness :
  exists r s' ls',
    kalloc small 0 (lay [[]; [page 2; page 3; page 4]]) = KRet r s' /\
    kwf small s' ls' /\
    ((r = 0 /\ concat [[]; [page 2; page 3; page 4]] = [] /\
      ls' = [[]; [page 2; page 3; page 4]] /\
      mem s' = mem (lay [[]; [page 2; page 3; page 4]]) /\
      freelist s' = freelist (lay [[]; [page 2; page 3; page 4]])) \/
     (r <> 0 /\ concat [[]; [page 2; page 3; page 4]] ≡ₚ r :: concat ls' /\
      mem s' !! r = Some JUNK5)).
Proof.
  apply (kalloc_conserves small (lay [[]; [page 2; page 3; page 4]])).
  - apply kwf_check_sound. vm_compute. reflexivity.
  - cbn. lia.
Defined.

(** X20: the locks of [kalloc] when its own list is empty.  It keeps its
    own lock from the start to the end of the search and, holding it,
    takes and releases the lock of every other CPU in the order of their
    numbers, up to the first CPU with a free page, or of all of them
    when there is none. *)
Theorem kalloc_probes_in_order (L : layout) (s : kstate)
    (ls : list (list Z)) (hart : nat) :
  kwf L s ls -> ls !! hart = Some [] ->
  exists r s' n,
    kalloc L hart s = KRet r s' /\
    ktrace s' = ktrace s ++ [KPushOff; KPopOff; KAcquire hart]
                ++ probes hart 0 n ++ [KRelease hart] /\
    ((concat ls = [] /\ n = NCPU L) \/
     (exists i a l, ls !! i = Some (a :: l) /\
                    (forall k, (k < i)%nat -> ls !! k = Some []) /\
                    n = S i)).
Proof.
  intros Hwf Hl.
  assert (Hh : (hart < NCPU L)%nat).
  { destruct Hwf as (<- & _). by eapply lookup_lt_Some. }
  destruct (first_nonempty ls) as [Hc | (i & a & l & Hi & Hk)].
  - eexists 0, _, (NCPU L).
    split; [apply kalloc_empty_ret; [done|by eapply kwf_heads_zero]|].
    split; [done|]. by left.
  - destruct (kalloc_steal_kwf L s ls hart i a l Hwf Hl Hi Hk)
      as (s' & H1 & _ & _ & H4).
    exists a, s', (S i). split; [done|]. split; [done|].
    right. by exists i, a, l.
Qed.

Lemma kalloc_probes_in_order_witness :
  exists r s' n,
    kalloc small 0 (lay [[]; [page 2; page 3; page 4]]) = KRet r s' /\
    ktrace s' = ktrace (lay [[]; [page 2; page 3; page 4]])
                ++ [KPushOff; KPopOff; KAcquire 0]
                ++ probes 0 0 n ++ [KRelease 0] /\
    ((concat [[]; [page 2; page 3; page 4]] = [] /\ n = NCPU small) \/
     (exists i a l, [[]; [page 2; page 3; page 4]] !! i = Some (a :: l) /\
                    (forall k, (k < i)%nat ->
                       [[]; [page 2; page 3; page 4]] !! k = Some []) /\
                    n = S i)).
Proof.
  apply (kalloc_probes_in_order small (lay [[]; [page 2; page 3; page 4]])).
  - apply kwf_check_sound. vm_compute. reflexivity.
  - reflexivity.
Defined.

(** ** freerange and kinit *)

Lemma pages_lower (L : layout) (n : nat) (p q : Z) :
  0 < PGSIZE L -> q ∈ pages L n p -> p <= q.
Proof.
  intros Hpg. revert p. induction n as [|n IH]; intros p Hq.
  - by apply elem_of_nil in Hq.
  - cbn [pages] in Hq. apply elem_of_cons in Hq as [-> | Hq]; [lia|].
    apply IH in Hq. lia.
Qed.

Lemma page_count_zero (L : layout) (p pa_end : Z) :
  0 < PGSIZE L -> page_count L p pa_end = 0%nat ->
  (p + PGSIZE L <=? pa_end) = false.
Proof.
  intros Hpg Hn. apply Z.leb_gt.
  destruct (Z.lt_ge_cases pa_end (p + PGSIZE L)) as [|Hge]; [done|].
  assert (1 <= (pa_end - p) / PGSIZE L).
  { apply Z.div_le_lower_bound; lia. }
  unfold page_count in Hn. lia.
Qed.

Lemma page_count_succ (L : layout) (p pa_end : Z) (n : nat) :
  0 < PGSIZE L -> page_count L p pa_end = S n ->
  (p + PGSIZE L <=? pa_end) = true /\
  page_count L (p + PGSIZE L) pa_end = n.
Proof.
  intros Hpg Hn. unfold page_count in *. split.
  - apply Z.leb_le.
    destruct (Z.lt_ge_cases pa_end (p + PGSIZE L)) as [Hlt|]; [|done].
    assert ((pa_end - p) / PGSIZE L < 1).
    { apply Z.div_lt_upper_bound; lia. }
    lia.
  - replace (pa_end - (p + PGSIZE L)) with (pa_end - p + (-1) * PGSIZE L) by lia.
    rewrite Z.div_add by lia. lia.
Qed.

Lemma free_loop_kwf (L : layout) (hart : nat) (pa_end : Z) :
  0 < kernel_end L -> 0 < PGSIZE L -> pa_end <= PHYSTOP L ->
  forall (n fuel : nat) (p : Z) (s : kstate) (ls : list (list Z)) (l : list Z),
    kwf L s ls -> ls !! hart = Some l ->
    (n < fuel)%nat -> page_count L p pa_end = n ->
    p mod PGSIZE L = 0 -> kernel_end L <= p ->
    Forall (fun q => is_Some (mem s !! q) /\ q ∉ concat ls) (pages L n p) ->
    exists s', free_loop L fuel hart p pa_end s = KRet tt s' /\
               kwf L s' (<[hart := rev (pages L n p) ++ l]> ls).
Proof.
  intros Hend Hpg Htop. induction n as [|n IH];
    intros fuel p s ls l Hwf Hl Hfuel Hn Hal Hlo Hram.
  - destruct fuel as [|fuel]; [lia|]. cbn [free_loop].
    rewrite page_count_zero by done. exists s. split; [done|].
    cbn [pages rev app]. by rewrite list_insert_id.
  - destruct fuel as [|fuel]; [lia|]. cbn [free_loop].
    destruct (page_count_succ L p pa_end n Hpg Hn) as [Htest Hn'].
    rewrite Htest. cbn [pages] in Hram.
    apply Forall_cons in Hram as [[Hp Hfresh] Hram].
    apply Z.leb_le in Htest.
    destruct (kfree_kwf L s ls hart l p) as (s1 & Hs1 & Hwf1 & Hdom);
      try done; [lia|].
    unfold kbind. rewrite Hs1.
    destruct (IH fuel (p + PGSIZE L) s1 (<[hart := p :: l]> ls) (p :: l))
      as (s' & Hs' & Hwf'); try done.
    + apply list_lookup_insert_eq. by eapply lookup_lt_Some.
    + lia.
    + rewrite <- (Z.mul_1_l (PGSIZE L)) at 1. rewrite Z_mod_plus_full. done.
    + lia.
    + apply Forall_forall. intros q Hq.
      rewrite Forall_forall in Hram. destruct (Hram q Hq) as [Hq1 Hq2].
      split; [by apply Hdom|].
      rewrite (concat_insert_cons ls hart l p Hl).
      apply not_elem_of_cons. split; [|done].
      apply pages_lower in Hq; [lia|done].
    + exists s'. split; [done|].
      rewrite list_insert_insert_eq in Hwf'.
      cbn [pages rev]. by rewrite <- app_assoc.
Qed.

(** X21: [freerange] frees the whole pages between its bounds from the
    lowest to the highest, so that the CPU that runs it gets them at the
    front of its list with the highest page first. *)
Theorem freerange_fills (L : layout) (s : kstate) (ls : list (list Z))
    (hart : nat) (l : list Z) (pa_start pa_end : Z) (fuel : nat) :
  kwf L s ls -> ls !! hart = Some l ->
  0 < kernel_end L -> 0 < PGSIZE L ->
  PGROUNDUP L pa_start mod PGSIZE L = 0 ->
  kernel_end L <= PGROUNDUP L pa_start -> pa_end <= PHYSTOP L ->
  Forall (fun q => is_Some (mem s !! q) /\ q ∉ concat ls)
         (pages L (page_count L (PGROUNDUP L pa_start) pa_end)
                (PGROUNDUP L pa_start)) ->
  (page_count L (PGROUNDUP L pa_start) pa_end < fuel)%nat ->
  exists s', freerange L fuel hart pa_start pa_end s = KRet tt s' /\
             kwf L s' (<[hart := rev (pages L (page_count L (PGROUNDUP L pa_start) pa_end)
                                            (PGROUNDUP L pa_start)) ++ l]> ls).
Proof.
  intros Hwf Hl Hend Hpg Hal Hlo Htop Hram Hfuel.
  unfold freerange. by eapply free_loop_kwf.
Qed.

Lemma freerange_fills_witness :
  exists s', freerange small 5 0 (page 3 + 1) (page 6 + 100)
               (lay [[page 0; page 1]; [page 2]]) = KRet tt s' /\
             kwf small s'
               (<[0%nat := rev (pages small
                                  (page_count small (PGROUNDUP small (page 3 + 1))
                                              (page 6 + 100))
                                  (PGROUNDUP small (page 3 + 1)))
                           ++ [page 0; page 1]]>
                  [[page 0; page 1]; [page 2]]).
Proof.
  apply (freerange_fills small (lay [[page 0; page 1]; [page 2]])).
  - apply kwf_check_sound. vm_compute. reflexivity.
  - reflexivity.
  - reflexivity.
  - reflexivity.
  - vm_compute. reflexivity.
  - vm_compute. discriminate.
  - vm_compute. discriminate.
  - apply (bool_decide_unpack _). vm_compute. exact I.
  - vm_compute. lia.
Defined.

Lemma concat_replicate_nil {A} (n : nat) : concat (replicate n (@nil A)) = [].
Proof. induction n; [done|]. by cbn. Qed.

Lemma kwf_boot (L : layout) (s : kstate) :
  freelist s = replicate (NCPU L) 0 -> kwf L s (replicate (NCPU L) []).
Proof.
  intros Hfl. split; [by rewrite length_replicate|].
  split; [by rewrite Hfl, length_replicate|]. split.
  - intros i l [-> Hi]%lookup_replicate. exists 0. split; [|done].
    rewrite Hfl. by apply lookup_replicate.
  - rewrite concat_replicate_nil. constructor.
Qed.

(** X22: [kinit], run while every list is empty, gives every whole page
    between the end of the kernel and the end of RAM to the CPU that runs
    it, the highest page first; the other CPUs start with nothing. *)
Theorem kinit_fills (L : layout) (s : kstate) (hart fuel : nat) :
  freelist s = replicate (NCPU L) 0 -> (hart < NCPU L)%nat ->
  0 < kernel_end L -> 0 < PGSIZE L ->
  PGROUNDUP L (kernel_end L) mod PGSIZE L = 0 ->
  kernel_end L <= PGROUNDUP L (kernel_end L) ->
  Forall (fun q => is_Some (mem s !! q))
         (pages L (page_count L (PGROUNDUP L (kernel_end L)) (PHYSTOP L))
                (PGROUNDUP L (kernel_end L))) ->
  (page_count L (PGROUNDUP L (kernel_end L)) (PHYSTOP L) < fuel)%nat ->
  exists s', kinit L fuel hart s = KRet tt s' /\
             kwf L s' (<[hart := rev (pages L (page_count L (PGROUNDUP L (kernel_end L))
                                                         (PHYSTOP L))
                                            (PGROUNDUP L (kernel_end L)))]>
                         (replicate (NCPU L) [])).
Proof.
  intros Hfl Hh Hend Hpg Hal Hlo Hram Hfuel.
  unfold kinit, freerange.
  edestruct (free_loop_kwf L hart (PHYSTOP L) Hend Hpg (Z.le_refl _))
    as (s' & Hs' & Hwf'); [by apply kwf_boot| |exact Hfuel|reflexivity|exact Hal|exact Hlo| |].
  - by apply lookup_replicate.
  - rewrite concat_replicate_nil. eapply Forall_impl; [exact Hram|].
    intros q Hq. split; [done|]. apply not_elem_of_nil.
  - exists s'. split; [done|]. by rewrite app_nil_r in Hwf'.
Qed.

Lemma kinit_fills_witness :
  exists s', kinit small 9 1 (lay [[]; []]) = KRet tt s' /\
             kwf small s'
               (<[1%nat := rev (pages small
                                  (page_count small (PGROUNDUP small (kernel_end small))
                                              (PHYSTOP small))
                                  (PGROUNDUP small (kernel_end small)))]>
                  (replicate (NCPU small) [])).
Proof.
  apply (kinit_fills small (lay [[]; []]) 1 9).
  - reflexivity.
  - cbn. lia.
  - reflexivity.
  - reflexivity.
  - vm_compute. reflexivity.
  - vm_compute. discriminate.
  - apply (bool_decide_unpack _). vm_compute. exact I.
  - vm_compute. lia.
Defined.

(** X23: [kfree] panics exactly on an address that is not the start of
    a page or lies outside the range from the end of the kernel to the
    end of RAM; the panic is "kfree" and comes before anything is
    written. *)
Theorem kfree_panics_iff (L : layout) (hart : nat) (pa : Z) (s : kstate) :
  ((exists msg s', kfree L hart pa s = KPanic msg s') <->
   (pa mod PGSIZE L <> 0 \/ pa < kernel_end L \/ PHYSTOP L <= pa)) /\
  (forall msg s', kfree L hart pa s = KPanic msg s' ->
                  msg = "kfree"%string /\ s' = s).
Proof.
  unfold kfree.
  destruct (Z.eqb_spec (pa mod PGSIZE L) 0) as [Hal|Hal].
  2: { cbn [negb orb]. unfold kpanic. split.
       - split; [by left|]. intros _. by eexists _, _.
       - intros msg s' H. by injection H as <- <-. }
  destruct (Z.ltb_spec pa (kernel_end L)) as [Hlo|Hlo].
  { cbn [negb orb]. unfold kpanic. split.
    - split; [by right; left|]. intros _. by eexists _, _.
    - intros msg s' H. by injection H as <- <-. }
  destruct (Z.geb_spec pa (PHYSTOP L)) as [Hhi|Hhi].
  { cbn [negb orb]. unfold kpanic. split.
    - split; [right; right; lia|]. intros _. by eexists _, _.
    - intros msg s' H. by injection H as <- <-. }
  cbn [negb orb].
  assert (Hno : forall msg s',
            (set_word pa JUNK1 ;;
             hartid <- my_hart hart ;;
             kemit (KAcquire hartid) ;;
             hd <- get_head hartid ;;
             set_word pa hd ;;
             set_head hartid pa ;;
             kemit (KRelease hartid)) s <> KPanic msg s').
  { intros msg s'. kunf.
    destruct (mem s !! pa); [|done]. kunf.
    destruct (freelist s !! hart); [|done]. kunf.
    rewrite lookup_insert_eq. kunf.
    destruct (freelist s !! hart); [|done]. done. }
  split.
  - split; [|lia]. intros (msg & s' & H). by apply Hno in H.
  - intros msg s' H. by apply Hno in H.
Qed.

End KallocFacts.
